(** * GitLens revision locators and commit records

    A shallow embedding of [src/git/gitUri.ts] (class [GitUri]) and
    [src/git/models/commit.ts] (class [GitCommit]).

    JavaScript strings are lists of 8-bit characters, a character outside
    ASCII being the octets of its UTF-8 encoding.  The platform the two
    classes run on (Node's [path] module in its POSIX flavour, [JSON], and
    the editor's [Uri] value type) is modelled in the modules [Path], [JSON]
    and [Uri]; the helpers of the repository's [Git]/[GitService] classes and
    the scheme constant, which live in files outside the two classes, are
    taken as parameters.

    Of [GitCommit], the two date formatters (they only forward to a helper
    module) and the abstract [with] are left out.  The abstract accessor
    [previousFileSha] is a parameter of what uses it.  The logger and the
    stash command, which the sources hold as well, follow in the modules
    [Logger] and [StashSave]. *)

From Stdlib Require Import List Ascii String Bool Arith Lia DecimalString.
Import ListNotations.

(* ================================================================== *)
(** * Strings *)
(* ================================================================== *)

Definition str := list ascii.

Coercion list_ascii_of_string : string >-> list.

Local Open Scope string_scope.
Local Open Scope list_scope.
Local Open Scope nat_scope.

Module Str.

Fixpoint eqb (a b : str) : bool :=
  match a, b with
  | [], [] => true
  | x :: a', y :: b' => Ascii.eqb x y && eqb a' b'
  | _, _ => false
  end.

(** [===] on values of type [string | undefined]. *)
Definition opt_eqb (a b : option str) : bool :=
  match a, b with
  | None, None => true
  | Some x, Some y => eqb x y
  | _, _ => false
  end.

(** Truthiness of a string: every string but the empty one. *)
Definition truthy (s : str) : bool :=
  match s with [] => false | _ :: _ => true end.

(** Truthiness of a [string | undefined]. *)
Definition opt_truthy (s : option str) : bool :=
  match s with Some (_ :: _) => true | _ => false end.

(** The longest prefix whose characters all satisfy [p], and the rest. *)
Fixpoint span (p : ascii -> bool) (s : str) : str * str :=
  match s with
  | [] => ([], [])
  | c :: r => if p c then let (a, b) := span p r in (c :: a, b) else ([], s)
  end.

Fixpoint dropWhile (p : ascii -> bool) (s : str) : str :=
  match s with
  | [] => []
  | c :: r => if p c then dropWhile p r else s
  end.

Definition takeWhile (p : ascii -> bool) (s : str) : str := fst (span p s).

(** [s.split(c)] for a one-character separator: never the empty list. *)
Fixpoint split (c : ascii) (s : str) : list str :=
  match s with
  | [] => [[]]
  | x :: r =>
      if Ascii.eqb x c then [] :: split c r
      else match split c r with
           | [] => [[x]]
           | h :: t => (x :: h) :: t
           end
  end.

(** [l.join(c)]. *)
Fixpoint join (c : ascii) (l : list str) : str :=
  match l with
  | [] => []
  | [x] => x
  | x :: r => x ++ c :: join c r
  end.

(** [s.replace(/a/g, b)] for single characters. *)
Definition replaceAll (a b : ascii) (s : str) : str :=
  map (fun c => if Ascii.eqb c a then b else c) s.

(** Every character of [s] satisfies [p]. *)
Definition all (p : ascii -> bool) (s : str) : bool := forallb p s.

(** The character [c] does not occur in [s]. *)
Definition free (c : ascii) (s : str) : bool :=
  all (fun x => negb (Ascii.eqb x c)) s.

End Str.

(* ================================================================== *)
(** * Node's [path] module, POSIX flavour *)
(* ================================================================== *)

(** The functions of [path.posix] that the two classes call.  Node scans
    the characters of a path; here a path is read as the sequence of its
    segments between ['/'] characters, which is what those scans compute.
    The process's working directory is the parameter [cwd]; [relative]
    is meant for a working directory that is an absolute path. *)

Module Path.

Definition isSep (c : ascii) : bool := Ascii.eqb c "/".

Definition isAbsolute (p : str) : bool :=
  match p with c :: _ => isSep c | [] => false end.

Definition dot : str := ".".
Definition dotdot : str := "..".

(** One segment of [normalizeString]; [res] holds the segments kept so
    far, the last one first.  Empty segments and ["."] are dropped;
    [".."] removes the last kept segment unless there is none or it is
    [".."] itself, in which case it is kept only when [allowAboveRoot]. *)
Definition step (allowAboveRoot : bool) (res : list str) (seg : str) : list str :=
  if Str.eqb seg [] || Str.eqb seg dot then res
  else if Str.eqb seg dotdot then
    match res with
    | top :: below =>
        if Str.eqb top dotdot
        then (if allowAboveRoot then seg :: res else res)
        else below
    | [] => if allowAboveRoot then [seg] else []
    end
  else seg :: res.

Definition normalizeSegs (p : str) (allowAboveRoot : bool) : list str :=
  rev (fold_left (step allowAboveRoot) (Str.split "/" p) []).

Definition normalizeString (p : str) (allowAboveRoot : bool) : str :=
  Str.join "/" (normalizeSegs p allowAboveRoot).

(** The loop of [resolve]: arguments from the last to the first, empty
    ones skipped, until an absolute one has been prepended. *)
Fixpoint resolveLoop (revArgs : list str) (resolvedPath : str) : str * bool :=
  match revArgs with
  | [] => (resolvedPath, false)
  | p :: more =>
      match p with
      | [] => resolveLoop more resolvedPath
      | _ :: _ =>
          let resolvedPath' := p ++ "/" ++ resolvedPath in
          if isAbsolute p then (resolvedPath', true)
          else resolveLoop more resolvedPath'
      end
  end.

Definition normalize (p : str) : str :=
  match p with
  | [] => dot
  | _ :: _ =>
      let isAbs := isAbsolute p in
      let trailingSeparator := isAbsolute (rev p) in
      let n := normalizeString p (negb isAbs) in
      match n with
      | [] => if isAbs then "/" else if trailingSeparator then "./" else dot
      | _ :: _ =>
          let n' := if trailingSeparator then n ++ "/" else n in
          if isAbs then "/" ++ n' else n'
      end
  end.

Definition join (args : list str) : str :=
  match filter Str.truthy args with
  | [] => dot
  | joined => normalize (Str.join "/" joined)
  end.

(** [dirname]: the path up to the separator before the last component,
    trailing separators ignored; the first character is never looked at
    as a separator. *)
Definition dirname (p : str) : str :=
  match p with
  | [] => dot
  | c0 :: rest =>
      let hasRoot := isSep c0 in
      let r := Str.dropWhile (fun c => negb (isSep c))
                 (Str.dropWhile isSep (rev rest)) in
      match r with
      | [] => if hasRoot then "/" else dot
      | _ :: before =>
          match before with
          | [] => if hasRoot then "//" else [c0]
          | _ :: _ => c0 :: rev before
          end
      end
  end.

(** [basename] with no extension argument: the last component, trailing
    separators ignored. *)
Definition basename (p : str) : str :=
  rev (Str.takeWhile (fun c => negb (isSep c)) (Str.dropWhile isSep (rev p))).

(** The index-free reading of how [parse] finds the extension of a base
    name: from its last ['.'] on, unless there is no dot, the last dot is
    the first character, or the base name is [".."]. *)
Definition splitExt (base : str) : str * str :=
  let (revExt, revName) := Str.span (fun c => negb (Ascii.eqb c ".")) (rev base) in
  match revName with
  | [] => (base, [])
  | _ :: revStem =>
      match revStem with
      | [] => (base, [])
      | _ :: _ =>
          if Str.eqb base dotdot then (base, [])
          else (rev revStem, "."%char :: rev revExt)
      end
  end.

Record ParsedPath := {
  root : str;
  dir  : str;
  base : str;
  ext  : str;
  name : str
}.

Definition parse (p : str) : ParsedPath :=
  match p with
  | [] => {| root := []; dir := []; base := []; ext := []; name := [] |}
  | c0 :: rest =>
      let isAbs := isSep c0 in
      let body := if isAbs then rest else p in
      let r := Str.dropWhile isSep (rev body) in
      let (revBase, before) := Str.span (fun c => negb (isSep c)) r in
      let b := rev revBase in
      let (n, e) := splitExt b in
      {| root := if isAbs then "/" else [];
         dir := match before with
                | [] => if isAbs then "/" else []
                | _ :: revDir => (if isAbs then "/" else []) ++ rev revDir
                end;
         base := b;
         ext := e;
         name := n |}
  end.

Section WithCwd.

(** [process.cwd()]. *)
Variable cwd : str.

Definition resolve (args : list str) : str :=
  let (resolvedPath, resolvedAbsolute) := resolveLoop (rev args ++ [cwd]) [] in
  let n := normalizeString resolvedPath (negb resolvedAbsolute) in
  if resolvedAbsolute then "/" ++ n
  else match n with [] => dot | _ :: _ => n end.

(** The segments of a resolved path, after its leading separator. *)
Definition segmentsOf (resolved : str) : list str :=
  match resolved with
  | [] => []
  | _ :: [] => []
  | _ :: body => Str.split "/" body
  end.

(** The longest common prefix of segments removed from both lists. *)
Fixpoint stripCommon (a b : list str) : list str * list str :=
  match a, b with
  | x :: a', y :: b' => if Str.eqb x y then stripCommon a' b' else (a, b)
  | _, _ => (a, b)
  end.

Definition relative (from to : str) : str :=
  if Str.eqb from to then []
  else
    let from' := resolve [from] in
    let to' := resolve [to] in
    if Str.eqb from' to' then []
    else
      let (up, down) := stripCommon (segmentsOf from') (segmentsOf to') in
      Str.join "/" (map (fun _ => dotdot) up ++ down).

End WithCwd.

(** [resolve] given arguments that may be [undefined].  Node checks an
    argument when the loop reaches it: a missing one makes [resolve] throw
    ([None]) unless an absolute argument to its right ended the loop. *)
Fixpoint resolveLoopAny (revArgs : list (option str)) (resolvedPath : str)
  : option (str * bool) :=
  match revArgs with
  | [] => Some (resolvedPath, false)
  | None :: _ => None
  | Some p :: more =>
      match p with
      | [] => resolveLoopAny more resolvedPath
      | _ :: _ =>
          let resolvedPath' := p ++ "/" ++ resolvedPath in
          if isAbsolute p then Some (resolvedPath', true)
          else resolveLoopAny more resolvedPath'
      end
  end.

Definition resolveAny (cwd : str) (args : list (option str)) : option str :=
  match resolveLoopAny (rev args ++ [Some cwd]) [] with
  | Some (resolvedPath, resolvedAbsolute) =>
      let n := normalizeString resolvedPath (negb resolvedAbsolute) in
      Some (if resolvedAbsolute then "/" ++ n
            else match n with [] => dot | _ :: _ => n end)
  | None => None
  end.

End Path.

(* ================================================================== *)
(** * [JSON], as the two classes use it *)
(* ================================================================== *)

(** The texts this code base produces are objects whose members are
    strings: [IUriRevisionData] is [{fileName, repoPath, sha?}].  An
    object is an association list: [JSON.stringify] writes the members in
    their order, and of a repeated key [JSON.parse] keeps the last value.
    [JSON.stringify] is modelled for such records.  [JSON.parse] reads any
    JSON text, with insignificant white space.  The two classes read the
    members of the parsed value, and each where a string is expected: so
    of an object [parse] gives the members, a string with its value,
    [null] as such and a number, a boolean, an array or an object as
    [VOther]; of a text that is itself a number, a string, a boolean or an
    array it gives no members, reading a member of such a value being
    [undefined].  [None] stands for a text that does not parse (a
    [SyntaxError]) and for the text [null], of which no member can be
    read (a [TypeError]).  A [\uXXXX] escape above 127, which stands for
    more than one octet, is not modelled and is refused as well. *)

Module JSON.

Definition dquote : ascii := "034".
Definition backslash : ascii := "092".

Definition hexDigit (n : nat) : ascii :=
  if n <? 10 then ascii_of_nat (48 + n) else ascii_of_nat (87 + n).

Definition hexVal (c : ascii) : option nat :=
  let n := nat_of_ascii c in
  if (48 <=? n) && (n <=? 57) then Some (n - 48)
  else if (97 <=? n) && (n <=? 102) then Some (n - 87)
  else if (65 <=? n) && (n <=? 70) then Some (n - 55)
  else None.

(** [QuoteJSONString], one character. *)
Definition escapeChar (c : ascii) : str :=
  let n := nat_of_ascii c in
  if n =? 34 then [backslash; dquote]
  else if n =? 92 then [backslash; backslash]
  else if n =? 8 then [backslash; "b"%char]
  else if n =? 12 then [backslash; "f"%char]
  else if n =? 10 then [backslash; "n"%char]
  else if n =? 13 then [backslash; "r"%char]
  else if n =? 9 then [backslash; "t"%char]
  else if n <? 32 then
    [backslash; "u"%char; "0"%char; "0"%char; hexDigit (n / 16); hexDigit (n mod 16)]
  else [c].

Definition quote (s : str) : str :=
  dquote :: flat_map escapeChar s ++ [dquote].

Definition member (k v : str) : str := quote k ++ ":"%char :: quote v.

(** The members whose value is not [undefined], in order. *)
Fixpoint defined (l : list (str * option str)) : list (str * str) :=
  match l with
  | [] => []
  | (k, Some v) :: r => (k, v) :: defined r
  | (_, None) :: r => defined r
  end.

(** [JSON.stringify] of an object with the given own properties. *)
Definition stringify (l : list (str * option str)) : str :=
  "{"%char :: Str.join "," (map (fun kv => member (fst kv) (snd kv)) (defined l))
    ++ ["}"%char].

Inductive value := VString (s : str) | VNull | VOther.

Definition isWs (c : ascii) : bool :=
  let n := nat_of_ascii c in
  (n =? 32) || (n =? 9) || (n =? 10) || (n =? 13).

Definition skipWs (s : str) : str := Str.dropWhile isWs s.

Definition unescape (c : ascii) : option ascii :=
  let n := nat_of_ascii c in
  if n =? 34 then Some dquote
  else if n =? 92 then Some backslash
  else if n =? 47 then Some "/"%char
  else if n =? 98 then Some (ascii_of_nat 8)
  else if n =? 102 then Some (ascii_of_nat 12)
  else if n =? 110 then Some (ascii_of_nat 10)
  else if n =? 114 then Some (ascii_of_nat 13)
  else if n =? 116 then Some (ascii_of_nat 9)
  else None.

Definition hex4 (a b c d : ascii) : option ascii :=
  match hexVal a, hexVal b, hexVal c, hexVal d with
  | Some x, Some y, Some z, Some w =>
      let v := 4096 * x + 256 * y + 16 * z + w in
      if v <? 128 then Some (ascii_of_nat v) else None
  | _, _, _, _ => None
  end.

Definition consTo (c : ascii) (r : option (str * str)) : option (str * str) :=
  match r with
  | Some (s, rest) => Some (c :: s, rest)
  | None => None
  end.

(** The characters of a string literal after its opening quote: the
    string and the text after its closing quote. *)
Fixpoint parseChars (s : str) : option (str * str) :=
  match s with
  | [] => None
  | c :: r =>
      if Ascii.eqb c dquote then Some ([], r)
      else if Ascii.eqb c backslash then
        match r with
        | [] => None
        | e :: r1 =>
            if Ascii.eqb e "u" then
              match r1 with
              | h1 :: h2 :: h3 :: h4 :: r2 =>
                  match hex4 h1 h2 h3 h4 with
                  | Some x => consTo x (parseChars r2)
                  | None => None
                  end
              | _ => None
              end
            else
              match unescape e with
              | Some x => consTo x (parseChars r1)
              | None => None
              end
        end
      else if nat_of_ascii c <? 32 then None
      else consTo c (parseChars r)
  end.

Definition isDigit (c : ascii) : bool :=
  let n := nat_of_ascii c in (48 <=? n) && (n <=? 57).

(** One digit or more. *)
Definition skipDigits (s : str) : option str :=
  match s with
  | c :: r => if isDigit c then Some (Str.dropWhile isDigit r) else None
  | [] => None
  end.

(** The integer part of a number: a zero, or digits that do not start
    with one. *)
Definition skipInt (s : str) : option str :=
  match s with
  | c :: r =>
      if Ascii.eqb c "0" then Some r
      else if isDigit c then Some (Str.dropWhile isDigit r)
      else None
  | [] => None
  end.

Definition skipFraction (s : str) : option str :=
  match s with
  | c :: r => if Ascii.eqb c "." then skipDigits r else Some s
  | [] => Some s
  end.

Definition skipExponent (s : str) : option str :=
  match s with
  | c :: r =>
      if Ascii.eqb c "e" || Ascii.eqb c "E" then
        match r with
        | d :: r' =>
            if Ascii.eqb d "+" || Ascii.eqb d "-" then skipDigits r' else skipDigits r
        | [] => None
        end
      else Some s
  | [] => Some s
  end.

(** The text after a number. *)
Definition skipNumber (s : str) : option str :=
  let unsigned :=
    match s with
    | c :: r => if Ascii.eqb c "-" then r else s
    | [] => s
    end in
  match skipInt unsigned with
  | Some s1 =>
      match skipFraction s1 with
      | Some s2 => skipExponent s2
      | None => None
      end
  | None => None
  end.

(** The text after the given word. *)
Fixpoint skipWord (word s : str) : option str :=
  match word, s with
  | [], _ => Some s
  | a :: word', b :: s' => if Ascii.eqb a b then skipWord word' s' else None
  | _ :: _, [] => None
  end.

(** What the recogniser of values is at: a value, the elements of an
    array after its opening bracket, or the members of an object after its
    opening brace, in the last two cases with an element or a member to
    come. *)
Inductive Part := AValue | Elements | Members.

(** The text after a value, or after the closing bracket or brace of the
    elements or members; [None] when the text is malformed. *)
Fixpoint skip (fuel : nat) (part : Part) (s : str) : option str :=
  match fuel with
  | 0 => None
  | S fuel' =>
      match part with
      | AValue =>
          match s with
          | [] => None
          | c :: r =>
              if Ascii.eqb c dquote then option_map snd (parseChars r)
              else if Ascii.eqb c "{" then
                match skipWs r with
                | d :: r' =>
                    if Ascii.eqb d "}" then Some r' else skip fuel' Members (d :: r')
                | [] => None
                end
              else if Ascii.eqb c "[" then
                match skipWs r with
                | d :: r' =>
                    if Ascii.eqb d "]" then Some r' else skip fuel' Elements (d :: r')
                | [] => None
                end
              else if Ascii.eqb c "t" then skipWord "rue" r
              else if Ascii.eqb c "f" then skipWord "alse" r
              else if Ascii.eqb c "n" then skipWord "ull" r
              else skipNumber s
          end
      | Elements =>
          match skip fuel' AValue s with
          | Some r =>
              match skipWs r with
              | d :: r' =>
                  if Ascii.eqb d "," then skip fuel' Elements (skipWs r')
                  else if Ascii.eqb d "]" then Some r'
                  else None
              | [] => None
              end
          | None => None
          end
      | Members =>
          match s with
          | c :: r =>
              if Ascii.eqb c dquote then
                match parseChars r with
                | Some (_, r1) =>
                    match skipWs r1 with
                    | d :: r2 =>
                        if Ascii.eqb d ":" then
                          match skip fuel' AValue (skipWs r2) with
                          | Some r3 =>
                              match skipWs r3 with
                              | e :: r4 =>
                                  if Ascii.eqb e "," then skip fuel' Members (skipWs r4)
                                  else if Ascii.eqb e "}" then Some r4
                                  else None
                              | [] => None
                              end
                          | None => None
                          end
                        else None
                    | [] => None
                    end
                | None => None
                end
              else None
          | [] => None
          end
      end
  end.

(** A value and the text after it.  The recogniser is given fuel for
    twice the length of the text: an element or a member takes one step
    and at least one character, a level of nesting two steps and one
    character. *)
Definition parseValue (s : str) : option (value * str) :=
  match s with
  | c :: r =>
      if Ascii.eqb c dquote then
        match parseChars r with
        | Some (v, rest) => Some (VString v, rest)
        | None => None
        end
      else
        match s with
        | "n"%char :: "u"%char :: "l"%char :: "l"%char :: rest => Some (VNull, rest)
        | _ =>
            match skip (2 * List.length s + 2) AValue s with
            | Some rest => Some (VOther, rest)
            | None => None
            end
        end
  | [] => None
  end.

(** The members of an object after its opening brace, up to the end of
    the text. *)
Fixpoint parseMembers (fuel : nat) (s : str) (acc : list (str * value))
  : option (list (str * value)) :=
  match fuel with
  | 0 => None
  | S fuel' =>
      match skipWs s with
      | c :: r =>
          if Ascii.eqb c dquote then
            match parseChars r with
            | Some (k, r1) =>
                match skipWs r1 with
                | ":"%char :: r2 =>
                    match parseValue (skipWs r2) with
                    | Some (v, r3) =>
                        match skipWs r3 with
                        | ","%char :: r4 => parseMembers fuel' r4 (acc ++ [(k, v)])
                        | "}"%char :: r4 =>
                            match skipWs r4 with
                            | [] => Some (acc ++ [(k, v)])
                            | _ :: _ => None
                            end
                        | _ => None
                        end
                    | None => None
                    end
                | _ => None
                end
            | None => None
            end
          else None
      | [] => None
      end
  end.

Definition parse (s : str) : option (list (str * value)) :=
  match skipWs s with
  | "{"%char :: r =>
      match skipWs r with
      | "}"%char :: r' => match skipWs r' with [] => Some [] | _ :: _ => None end
      | _ => parseMembers (List.length r) r []
      end
  | other =>
      match parseValue other with
      | Some (VNull, _) => None
      | Some (_, rest) => match skipWs rest with [] => Some [] | _ :: _ => None end
      | None => None
      end
  end.

(** Property access [obj.key]: the last member of that name, if any. *)
Fixpoint get (obj : list (str * value)) (key : str) : option value :=
  match obj with
  | [] => None
  | (k, v) :: r =>
      match get r key with
      | Some v' => Some v'
      | None => if Str.eqb k key then Some v else None
      end
  end.

End JSON.

(* ================================================================== *)
(** * The editor's [Uri] *)
(* ================================================================== *)

(** The five components of a resource locator, [Uri.file], [Uri.parse]
    and [fsPath] on a POSIX host.  [Uri.parse] splits its argument as its
    pattern does: an optional scheme (a non-empty run of characters other
    than colon, slash, question mark and hash, then a colon); an optional
    authority (two slashes, then a run free of slash, question mark and
    hash); the path (a run free of question mark and hash); an optional
    query (a question mark, then a run free of hash); an optional fragment
    (a hash, then the rest of the line).  Authority, path, query and
    fragment are percent-decoded; a malformed percent escape makes it
    throw ([None]).  The checks the constructor of a locator runs on its
    components are not modelled. *)

Module Uri.

Record t := {
  scheme : str;
  authority : str;
  path : str;
  query : str;
  fragment : str
}.

Definition isGenDelim (c : ascii) : bool :=
  Ascii.eqb c ":" || Ascii.eqb c "/" || Ascii.eqb c "?" || Ascii.eqb c "#".

Definition notIn (stops : str) (c : ascii) : bool :=
  negb (existsb (Ascii.eqb c) stops).

(** The octets of a component, each marked as escaped or not: a
    character as it stands, a percent escape as the octet it names. *)
Fixpoint octets (s : str) : option (list (bool * ascii)) :=
  match s with
  | [] => Some []
  | c :: r =>
      if Ascii.eqb c "%" then
        match r with
        | h1 :: h2 :: r' =>
            match JSON.hexVal h1, JSON.hexVal h2 with
            | Some a, Some b =>
                option_map (cons (true, ascii_of_nat (16 * a + b))) (octets r')
            | _, _ => None
            end
        | _ => None
        end
      else option_map (cons (false, c)) (octets r)
  end.

(** An escaped octet in the given range. *)
Definition escapedIn (lo hi : nat) (x : bool * ascii) : bool :=
  fst x && (lo <=? nat_of_ascii (snd x)) && (nat_of_ascii (snd x) <=? hi).

(** Every escaped octet above 127 starts, or continues, the well-formed
    UTF-8 encoding of a code point, all of whose octets are escaped. *)
Fixpoint escapesWellFormed (l : list (bool * ascii)) : bool :=
  match l with
  | [] => true
  | (false, _) :: r => escapesWellFormed r
  | (true, c) :: r =>
      let n := nat_of_ascii c in
      if n <? 128 then escapesWellFormed r
      else if (194 <=? n) && (n <=? 223) then
        match r with
        | x1 :: r1 => escapedIn 128 191 x1 && escapesWellFormed r1
        | _ => false
        end
      else if (224 <=? n) && (n <=? 239) then
        match r with
        | x1 :: x2 :: r2 =>
            escapedIn (if n =? 224 then 160 else 128) (if n =? 237 then 159 else 191) x1
            && escapedIn 128 191 x2 && escapesWellFormed r2
        | _ => false
        end
      else if (240 <=? n) && (n <=? 244) then
        match r with
        | x1 :: x2 :: x3 :: r3 =>
            escapedIn (if n =? 240 then 144 else 128) (if n =? 244 then 143 else 191) x1
            && escapedIn 128 191 x2 && escapedIn 128 191 x3 && escapesWellFormed r3
        | _ => false
        end
      else false
  end.

(** [decodeURIComponent]: every escape is replaced by its octet; it throws
    ([None]) on a percent sign that two hexadecimal digits do not follow
    and on escapes that are not the UTF-8 encoding of a code point. *)
Definition decodeURIComponent (s : str) : option str :=
  match octets s with
  | Some l => if escapesWellFormed l then Some (map snd l) else None
  | None => None
  end.

(** The scheme: a non-empty run of characters other than [:/?#] that a
    colon follows. *)
Definition splitScheme (value : str) : str * str :=
  let (s, r) := Str.span (notIn ":/?#") value in
  match s, r with
  | _ :: _, c :: r' => if Ascii.eqb c ":" then (s, r') else ([], value)
  | _, _ => ([], value)
  end.

(** The authority: after two slashes, the run of characters other than
    [/?#]. *)
Definition splitAuthority (value : str) : str * str :=
  match value with
  | a :: b :: r =>
      if Ascii.eqb a "/" && Ascii.eqb b "/" then Str.span (notIn "/?#") r
      else ([], value)
  | _ => ([], value)
  end.

Definition splitQuery (value : str) : str * str :=
  match value with
  | c :: r => if Ascii.eqb c "?" then Str.span (notIn "#") r else ([], value)
  | [] => ([], value)
  end.

Definition isLineEnd (c : ascii) : bool :=
  (nat_of_ascii c =? 10) || (nat_of_ascii c =? 13).

Definition splitFragment (value : str) : str :=
  match value with
  | c :: r =>
      if Ascii.eqb c "#" then Str.takeWhile (fun c => negb (isLineEnd c)) r else []
  | [] => []
  end.

Definition parse (value : str) : option t :=
  let (sch, r0) := splitScheme value in
  let (auth, r1) := splitAuthority r0 in
  let (pth, r2) := Str.span (notIn "?#") r1 in
  let (qry, r3) := splitQuery r2 in
  let frag := splitFragment r3 in
  match decodeURIComponent auth, decodeURIComponent pth,
        decodeURIComponent qry, decodeURIComponent frag with
  | Some a, Some p, Some q, Some f =>
      Some {| scheme := sch; authority := a; path := p; query := q; fragment := f |}
  | _, _, _, _ => None
  end.

(** A path made to start with a separator. *)
Definition rooted (p : str) : str :=
  if Path.isAbsolute p then p else "/"%char :: p.

(** [Uri.file]: two leading separators introduce an authority (a UNC
    share), the path being what follows it, or a separator when nothing
    does; any other path is taken as given, and is given a leading
    separator when it has none. *)
Definition file (p : str) : t :=
  match p with
  | a :: b :: r =>
      if Path.isSep a && Path.isSep b then
        let (auth, rest) := Str.span (fun c => negb (Path.isSep c)) r in
        {| scheme := "file"; authority := auth;
           path := match rest with [] => "/" : str | _ :: _ => rest end;
           query := []; fragment := [] |}
      else
        {| scheme := "file"; authority := []; path := rooted p;
           query := []; fragment := [] |}
  | _ =>
      {| scheme := "file"; authority := []; path := rooted p;
         query := []; fragment := [] |}
  end.

Definition isLetter (c : ascii) : bool :=
  let n := nat_of_ascii c in
  ((65 <=? n) && (n <=? 90)) || ((97 <=? n) && (n <=? 122)).

Definition toLowerCase (c : ascii) : ascii :=
  let n := nat_of_ascii c in
  if (65 <=? n) && (n <=? 90) then ascii_of_nat (n + 32) else c.

Definition fsPath (u : t) : str :=
  if Str.truthy (authority u) && Str.truthy (path u) && Str.eqb (scheme u) "file"
  then "//" ++ authority u ++ path u
  else
    match path u with
    | "/"%char :: c :: ":"%char :: r =>
        if isLetter c then toLowerCase c :: ":"%char :: r else path u
    | _ => path u
    end.

End Uri.

(* ================================================================== *)
(** * The helpers of [Git] / [GitService] *)
(* ================================================================== *)

(** The static helpers of the repository's [Git] class ([GitService]
    forwards to them) that the two classes call.  Their file is not part of
    the sources at hand, so they are the fields of an interface.  The two
    classifiers are applied to values of type [string | undefined]. *)

Record GitService := {
  isStagedUncommitted : option str -> bool;
  isUncommitted : option str -> bool;
  shortenSha : str -> str;
  normalizePath : str -> str
}.

(** [IGitStatusFile], as far as it is read here. *)
Record IGitStatusFile := {
  statusFileName : str;
  statusOriginalFileName : option str
}.

(** String interpolation of a [string | undefined]. *)
Definition interpolate (s : option str) : str :=
  match s with Some x => x | None => "undefined" end.

(** [a || b] on values of type [string | undefined]. *)
Definition orElse (a b : option str) : option str :=
  if Str.opt_truthy a then a else b.

(* ================================================================== *)
(** * [GitCommit]: the record and its accessors *)
(* ================================================================== *)

Module GitCommit.

Inductive GitCommitType := Blame | Branch | File | Stash | StashFile.

Definition GitCommitType_eqb (a b : GitCommitType) : bool :=
  match a, b with
  | Blame, Blame | Branch, Branch | File, File
  | Stash, Stash | StashFile, StashFile => true
  | _, _ => false
  end.

Record t := {
  type : GitCommitType;
  repoPath : str;
  sha : str;
  author : str;
  date : nat;
  message : str;
  originalFileName : option str;
  previousFileName : option str;
  workingFileName : option str;
  _fileName : str;
  _previousSha : option str;
  _isStagedUncommitted : option bool;
  _isUncommitted : option bool;
  _shortSha : option str;
  _resolvedPreviousFileSha : option str
}.

(** The constructor: [_fileName = fileName || ''] (the argument is typed
    as a string; the guard also covers a missing one), the caches empty. *)
Definition new (type : GitCommitType) (repoPath sha author : str) (date : nat)
    (message : str) (fileName originalFileName previousSha previousFileName : option str) : t :=
  {| type := type;
     repoPath := repoPath;
     sha := sha;
     author := author;
     date := date;
     message := message;
     originalFileName := originalFileName;
     previousFileName := previousFileName;
     workingFileName := None;
     _fileName := match orElse fileName (Some []) with Some f => f | None => [] end;
     _previousSha := previousSha;
     _isStagedUncommitted := None;
     _isUncommitted := None;
     _shortSha := None;
     _resolvedPreviousFileSha := None |}.

Definition isFile (c : t) : bool :=
  GitCommitType_eqb (type c) Blame || GitCommitType_eqb (type c) File
  || GitCommitType_eqb (type c) StashFile.

Definition isStash (c : t) : bool :=
  GitCommitType_eqb (type c) Stash || GitCommitType_eqb (type c) StashFile.

(** If we aren't a single-file commit, return an empty file name (makes
    it default to the repoPath). *)
Definition fileName (c : t) : str :=
  if isFile c then _fileName c else [].

Definition previousSha (c : t) : option str := _previousSha c.

(** The object after assignments to its private mutable fields: the
    read-only and public fields are those of [c]. *)
Definition assign (c : t) (previousSha : option str)
    (isStagedUncommitted isUncommitted : option bool)
    (shortSha resolvedPreviousFileSha : option str) : t :=
  {| type := type c;
     repoPath := repoPath c;
     sha := sha c;
     author := author c;
     date := date c;
     message := message c;
     originalFileName := originalFileName c;
     previousFileName := previousFileName c;
     workingFileName := workingFileName c;
     _fileName := _fileName c;
     _previousSha := previousSha;
     _isStagedUncommitted := isStagedUncommitted;
     _isUncommitted := isUncommitted;
     _shortSha := shortSha;
     _resolvedPreviousFileSha := resolvedPreviousFileSha |}.

(** The setter of [previousSha]. *)
Definition set_previousSha (value : option str) (c : t) : t :=
  if Str.opt_eqb value (_previousSha c) then c
  else assign c value (_isStagedUncommitted c) (_isUncommitted c) (_shortSha c) None.

(** The assignment [this._resolvedPreviousFileSha = value]. *)
Definition set_resolvedPreviousFileSha (value : option str) (c : t) : t :=
  assign c (_previousSha c) (_isStagedUncommitted c) (_isUncommitted c) (_shortSha c) value.




(** The three shapes of a change: [undefined], [null], or a value. *)
Inductive Change (T : Type) :=
| Omitted : Change T
| Clear : Change T
| SetTo : T -> Change T.

Arguments Omitted {T}.
Arguments Clear {T}.
Arguments SetTo {T} _.

Definition getChangedValue {T : Type} (change : Change T) (original : option T) : option T :=
  match change with
  | Omitted => original
  | Clear => None
  | SetTo v => Some v
  end.

Section WithCwd.

Variable cwd : str.

Definition uri (c : t) : Uri.t :=
  Uri.file (Path.resolve cwd [repoPath c; fileName c]).

(** [path.resolve] refuses an argument that is not a string: [None]
    stands for the [TypeError] it throws. *)
Definition previousUri (c : t) : option Uri.t :=
  if Str.opt_truthy (previousFileName c) then
    match orElse (previousFileName c) (originalFileName c) with
    | Some f => Some (Uri.file (Path.resolve cwd [repoPath c; f]))
    | None => None
    end
  else Some (uri c).

End WithCwd.

End GitCommit.

(* ================================================================== *)
(** * [GitUri] *)
(* ================================================================== *)

Module GitUri.

Record IGitCommitInfo := {
  infoFileName : option str;
  infoRepoPath : str;
  infoSha : option str
}.

(** A [GitUri] is a [Uri] with two more fields. *)
Record t := {
  uri : Uri.t;
  repoPath : option str;
  sha : option str
}.

Definition scheme (g : t) : str := Uri.scheme (uri g).
Definition path (g : t) : str := Uri.path (uri g).
Definition query (g : t) : str := Uri.query (uri g).
Definition fsPath (g : t) : str := Uri.fsPath (uri g).

(** The second constructor argument: absent, a repository path, or a
    commit-info record. *)
Inductive CommitOrRepoPath :=
| NoArgument
| RepoPath (repoPath : str)
| Commit (commit : IGitCommitInfo).

(** The first argument of the static formatters: a string, a plain
    [Uri], or a [GitUri]. *)
Inductive FileNameOrUri :=
| OfString (fileName : str)
| OfUri (u : Uri.t)
| OfGitUri (g : t).

(** The three overloads of [toRevisionUri]. *)
Inductive RevisionSource :=
| FromGitUri (g : t)
| FromFileName (sha fileName repoPath : str)
| FromStatus (sha : str) (status : IGitStatusFile) (repoPath : str).

Record IUriRevisionData := {
  dataSha : option str;
  dataFileName : str;
  dataRepoPath : str
}.

(** A member of a parsed query read where a string is expected: the
    string, if the member is there and is one. *)
Definition memberString (obj : list (str * JSON.value)) (key : str) : option str :=
  match JSON.get obj key with
  | Some (JSON.VString s) => Some s
  | _ => None
  end.

(** A parsed query that has the shape of [IUriRevisionData], as that
    record: [fileName] and [repoPath] are strings, [sha] is a string or
    missing. *)
Definition asRevisionData (obj : list (str * JSON.value)) : option IUriRevisionData :=
  match JSON.get obj "fileName", JSON.get obj "repoPath" with
  | Some (JSON.VString f), Some (JSON.VString r) =>
      Some {| dataSha := match JSON.get obj "sha" with
                         | Some (JSON.VString s) => Some s
                         | _ => None
                         end;
              dataFileName := f;
              dataRepoPath := r |}
  | _, _ => None
  end.

Definition stringifyRevisionData (d : IUriRevisionData) : str :=
  JSON.stringify [("fileName" : str, Some (dataFileName d));
                  ("repoPath" : str, Some (dataRepoPath d));
                  ("sha" : str, dataSha d)].

Section WithEnv.

Variable G : GitService.
Variable cwd : str.
(** [DocumentSchemes.GitLensGit]. *)
Variable GitLensGit : str.

(** The guard of both decoding branches of the constructor. *)
Definition keptSha (s : option str) : option str :=
  if isStagedUncommitted G s || negb (isUncommitted G s) then s else None.

(** The constructor; [None] when it throws (a query that does not
    parse, or [path.resolve] reaching a member of the parsed data that is
    not a string).  The constructor does not check the parsed data: a
    [repoPath] that [path.resolve] does not reach may be missing, and is
    then missing in the object.  The fields [repoPath] and [sha] hold the
    string, if the member is one: what a query may hold there in place of
    a string ([null], a number) lies outside the declared types of the
    two fields and of the [Git] helpers, and is read as no string. *)
Definition new (u : option Uri.t) (commitOrRepoPath : CommitOrRepoPath) : option t :=
  match u with
  | None =>
      Some {| uri := {| Uri.scheme := []; Uri.authority := []; Uri.path := [];
                        Uri.query := []; Uri.fragment := [] |};
              repoPath := None; sha := None |}
  | Some u =>
      if Str.eqb (Uri.scheme u) GitLensGit then
        match JSON.parse (Uri.query u) with
        | Some data =>
            match Path.resolveAny cwd [memberString data "repoPath";
                                       memberString data "fileName"] with
            | Some p =>
                Some {| uri := {| Uri.scheme := Uri.scheme u;
                                  Uri.authority := Uri.authority u;
                                  Uri.path := p;
                                  Uri.query := Uri.query u;
                                  Uri.fragment := Uri.fragment u |};
                        repoPath := memberString data "repoPath";
                        sha := keptSha (memberString data "sha") |}
            | None => None
            end
        | None => None
        end
      else
        match commitOrRepoPath with
        | NoArgument => Some {| uri := u; repoPath := None; sha := None |}
        | RepoPath r => Some {| uri := u; repoPath := Some r; sha := None |}
        | Commit c =>
            match orElse (infoFileName c) (Some (Uri.fsPath u)) with
            | Some f =>
                Some {| uri := {| Uri.scheme := Uri.scheme u;
                                  Uri.authority := Uri.authority u;
                                  Uri.path := Path.resolve cwd [infoRepoPath c; f];
                                  Uri.query := Uri.query u;
                                  Uri.fragment := Uri.fragment u |};
                        repoPath := Some (infoRepoPath c);
                        sha := keptSha (infoSha c) |}
            | None => None
            end
        end
  end.

Definition shortSha (g : t) : option str :=
  match sha g with
  | Some (c :: s) => Some (shortenSha G (c :: s))
  | other => other
  end.

Definition fileUri (g : t) (useSha : bool) : Uri.t :=
  Uri.file (if useSha && Str.opt_truthy (sha g) then path g else fsPath g).

Definition getFormattedPath (g : t) (separator : str) (relativeTo : option str) : str :=
  let directory := Path.dirname (fsPath g) in
  let directory :=
    match repoPath g with
    | Some (c :: r) => Path.relative cwd (c :: r) directory
    | _ => directory
    end in
  let directory :=
    match relativeTo with
    | Some rel => Path.relative cwd rel directory
    | None => directory
    end in
  let directory := normalizePath G directory in
  if negb (Str.truthy directory) || Str.eqb directory "."
  then Path.basename (fsPath g)
  else Path.basename (fsPath g) ++ separator ++ directory.

Definition getRelativePath (g : t) (relativeTo : option str) : str :=
  let relativePath :=
    Path.relative cwd
      (match orElse (repoPath g) (Some []) with Some r => r | None => [] end)
      (fsPath g) in
  let relativePath :=
    match relativeTo with
    | Some rel => Path.relative cwd rel relativePath
    | None => relativePath
    end in
  normalizePath G relativePath.

Definition fromCommit (commit : GitCommit.t) (previous : bool) : option t :=
  if negb previous then
    new (Some (GitCommit.uri cwd commit))
        (Commit {| infoFileName := Some (GitCommit.fileName commit);
                   infoRepoPath := GitCommit.repoPath commit;
                   infoSha := Some (GitCommit.sha commit) |})
  else
    match GitCommit.previousUri cwd commit with
    | Some pu =>
        new (Some pu)
            (Commit {| infoFileName := None;
                       infoRepoPath := GitCommit.repoPath commit;
                       infoSha := GitCommit.previousSha commit |})
    | None => None
    end.

Definition fromFileStatus (status : IGitStatusFile) (repoPath : str)
    (sha : option str) (original : bool) : option t :=
  let f :=
    match (if original then statusOriginalFileName status else None) with
    | Some (c :: r) => c :: r
    | _ => statusFileName status
    end in
  let u := Uri.file (Path.resolve cwd [repoPath; f]) in
  match sha with
  | None => new (Some u) (RepoPath repoPath)
  | Some s =>
      new (Some u) (Commit {| infoFileName := None; infoRepoPath := repoPath;
                              infoSha := Some s |})
  end.

Definition fromRepoPath (repoPath : str) (ref : option str) : option t :=
  match ref with
  | None => new (Some (Uri.file repoPath)) (RepoPath repoPath)
  | Some r =>
      new (Some (Uri.file repoPath))
          (Commit {| infoFileName := None; infoRepoPath := repoPath;
                     infoSha := Some r |})
  end.

Definition fromRevisionUri (u : Uri.t) : option t := new (Some u) NoArgument.

Definition getDirectory (fileName : str) (relativeTo : option str) : str :=
  let directory := Path.dirname fileName in
  let directory :=
    match relativeTo with
    | Some rel => Path.relative cwd rel directory
    | None => directory
    end in
  let directory := normalizePath G directory in
  if negb (Str.truthy directory) || Str.eqb directory "." then [] else directory.

Definition getFormattedPathOf (fileNameOrUri : FileNameOrUri) (separator : str)
    (relativeTo : option str) : str :=
  match fileNameOrUri with
  | OfGitUri g => getFormattedPath g separator relativeTo
  | other =>
      let fileName :=
        match other with
        | OfString f => f
        | OfUri u => Uri.fsPath u
        | OfGitUri g => fsPath g
        end in
      let directory := getDirectory fileName relativeTo in
      if negb (Str.truthy directory) then Path.basename fileName
      else Path.basename fileName ++ separator ++ directory
  end.

Definition getRelativePathOf (fileNameOrUri : FileNameOrUri) (relativeTo : option str)
    (repoPath : option str) : str :=
  match fileNameOrUri with
  | OfGitUri g => getRelativePath g relativeTo
  | other =>
      let fileName :=
        match other with
        | OfString f => f
        | OfUri u => Uri.fsPath u
        | OfGitUri g => fsPath g
        end in
      let relativePath :=
        Path.relative cwd
          (match orElse repoPath (Some []) with Some r => r | None => [] end)
          fileName in
      let relativePath :=
        match relativeTo with
        | Some rel => Path.relative cwd rel relativePath
        | None => relativePath
        end in
      normalizePath G relativePath
  end.

(** The text handed to [Uri.parse]; [None] when [path.relative] is
    given the missing repository path of a [GitUri]. *)
Definition toRevisionUriText (source : RevisionSource) : option str :=
  let args :=
    match source with
    | FromFileName sha fileName repoPath =>
        Some (fileName, repoPath, Some sha, Some (shortenSha G sha))
    | FromStatus sha status repoPath =>
        Some (Path.resolve cwd [repoPath; statusFileName status], repoPath,
              Some sha, Some (shortenSha G sha))
    | FromGitUri g =>
        match repoPath g with
        | Some r => Some (fsPath g, r, sha g, shortSha g)
        | None => None
        end
    end in
  match args with
  | Some (fileName, repoPath, sha, shortSha) =>
      let data :=
        {| dataFileName := normalizePath G (Path.relative cwd repoPath fileName);
           dataRepoPath := repoPath;
           dataSha := sha |} in
      let parsed := Path.parse fileName in
      Some (GitLensGit ++ ":" ++ Path.join [Path.dir parsed; Path.name parsed]
              ++ ":" ++ interpolate shortSha ++ Path.ext parsed
              ++ "?" ++ stringifyRevisionData data)
  | None => None
  end.

Definition toRevisionUri (source : RevisionSource) : option Uri.t :=
  match toRevisionUriText source with
  | Some text => Uri.parse text
  | None => None
  end.

End WithEnv.

(** What [fromUri] is given: a plain locator, or one that already is a
    [GitUri]. *)
Inductive AnyUri :=
| PlainUri (u : Uri.t)
| IsGitUri (g : t).

(** What [git.getRepoPath] is asked with: a file path (possibly missing
    from the query it was read from) or a locator. *)
Inductive RepoPathQuery :=
| ByPath (p : option str)
| ByUri (u : Uri.t).

(** The three collaborators of [fromUri]; [getRepoPath] may reject, with a
    value of type [E], and may find no repository. *)
Record GitBackend (E : Type) := {
  isTrackable : Uri.t -> bool;
  getRepoPath : RepoPathQuery -> E + option str;
  getGitUriForVersionedFile : Uri.t -> option t
}.

Arguments isTrackable {E} _ _.
Arguments getRepoPath {E} _ _.
Arguments getGitUriForVersionedFile {E} _ _.

(** How an asynchronous function ends: it returns, it throws on its own
    account, or the backend rejects. *)
Inductive Completion (E A : Type) :=
| Returned (a : A)
| Threw
| RejectedWith (e : E).

Arguments Returned {E A} a.
Arguments Threw {E A}.
Arguments RejectedWith {E A} e.

Section WithGit.

Variable G : GitService.
Variable cwd : str.
Variable GitLensGit : str.
(** [DocumentSchemes.Git]. *)
Variable GitScheme : str.
Variable E : Type.

Definition ofConstructor (r : option t) : Completion E t :=
  match r with
  | Some g => Returned g
  | None => Threw
  end.

(** The constructor's last branch on an object whose [repoPath] may be
    missing, as [fromUri] builds it from what the backend answered. *)
Definition newOfInfo (u : Uri.t) (fileName repoPath sha : option str) : option t :=
  match Path.resolveAny cwd [repoPath; orElse fileName (Some (Uri.fsPath u))] with
  | Some p =>
      Some {| uri := {| Uri.scheme := Uri.scheme u;
                        Uri.authority := Uri.authority u;
                        Uri.path := p;
                        Uri.query := Uri.query u;
                        Uri.fragment := Uri.fragment u |};
              repoPath := repoPath;
              sha := keptSha G sha |}
  | None => None
  end.

Definition fromUri (git : GitBackend E) (x : AnyUri) : Completion E t :=
  match x with
  | IsGitUri g => Returned g
  | PlainUri u =>
      if negb (isTrackable git u) then ofConstructor (new G cwd GitLensGit (Some u) NoArgument)
      else if Str.eqb (Uri.scheme u) GitLensGit
      then ofConstructor (new G cwd GitLensGit (Some u) NoArgument)
      else if Str.eqb (Uri.scheme u) GitScheme then
        match JSON.parse (Uri.query u) with
        | None => Threw
        | Some data =>
            match getRepoPath git (ByPath (memberString data "path")) with
            | inl e => RejectedWith e
            | inr repoPath =>
                ofConstructor
                  (newOfInfo u (memberString data "path") repoPath
                     (match memberString data "ref" with
                      | Some (c :: r) => Some (c :: r)
                      | _ => None
                      end))
            end
        end
      else
        match getGitUriForVersionedFile git u with
        | Some g => Returned g
        | None =>
            match getRepoPath git (ByUri u) with
            | inl e => RejectedWith e
            | inr (Some r) => ofConstructor (new G cwd GitLensGit (Some u) (RepoPath r))
            | inr None => ofConstructor (new G cwd GitLensGit (Some u) NoArgument)
            end
        end
  end.

End WithGit.

End GitUri.

(* ================================================================== *)
(** * [GitCommit]: the methods that touch the object or the backend *)
(* ================================================================== *)

(** A commit object is mutable: the setter of [previousSha] and
    [resolvePreviousFileSha] assign to its fields, and the latter calls
    the version-control backend, which may reject.  A computation runs on
    a heap holding the object, the backend's state and the log of the
    calls made to [resolveReference]; it returns a value or a failure
    together with the heap it leaves. *)

Module GitCommitOps.

Record ResolveRequest := {
  reqRepoPath : str;
  reqRef : str;
  reqUri : option Uri.t
}.

Section WithBackend.

Variable G : GitService.
Variable cwd : str.
Variable GitLensGit : str.

(** What a rejected promise carries, and the backend's own state. *)
Variable E : Type.
Variable W : Type.

(** [git.resolveReference(repoPath, ref, uri)]. *)
Variable resolveReference : ResolveRequest -> W -> (E + str) * W.

(** The abstract accessor [previousFileSha] of the subclasses. *)
Variable previousFileSha : GitCommit.t -> str.

Inductive Failure :=
| TypeError
| Rejected (e : E).

Record Heap := {
  this : GitCommit.t;
  world : W;
  calls : list ResolveRequest
}.

Definition M (A : Type) : Type := Heap -> (Failure + A) * Heap.

Definition ret {A : Type} (a : A) : M A := fun h => (inr a, h).

Definition bind {A B : Type} (m : M A) (k : A -> M B) : M B :=
  fun h =>
    match m h with
    | (inr a, h') => k a h'
    | (inl e, h') => (inl e, h')
    end.

Definition throw {A : Type} (e : Failure) : M A := fun h => (inl e, h).

Definition getThis : M GitCommit.t := fun h => (inr (this h), h).

Definition modifyThis (f : GitCommit.t -> GitCommit.t) : M unit :=
  fun h => (inr tt, {| this := f (this h); world := world h; calls := calls h |}).

Definition await_resolveReference (req : ResolveRequest) : M str :=
  fun h =>
    let (r, w) := resolveReference req (world h) in
    (match r with
     | inl e => inl (Rejected e)
     | inr v => inr v
     end,
     {| this := this h; world := w; calls := calls h ++ [req] |}).

Definition orThrow {A : Type} (x : option A) : M A :=
  match x with
  | Some a => ret a
  | None => throw TypeError
  end.

Notation "x <- c ;; k" := (bind c (fun x => k))
  (at level 61, c at next level, right associativity).

(** [set previousSha(value)]. *)
Definition assign_previousSha (value : option str) : M unit :=
  modifyThis (GitCommit.set_previousSha value).

Definition resolvePreviousFileSha : M unit :=
  c <- getThis ;;
  match GitCommit._resolvedPreviousFileSha c with
  | Some _ => ret tt
  | None =>
      u <- (if Str.truthy (GitCommit.fileName c)
            then (pu <- orThrow (GitCommit.previousUri cwd c) ;; ret (Some pu))
            else ret None) ;;
      r <- await_resolveReference
             {| reqRepoPath := GitCommit.repoPath c;
                reqRef := previousFileSha c;
                reqUri := u |} ;;
      modifyThis (GitCommit.set_resolvedPreviousFileSha (Some r))
  end.




(** [getChangedValue] as a method: it reads its two arguments only. *)
Definition getChangedValue {T : Type} (change : GitCommit.Change T)
    (original : option T) : M (option T) :=
  ret (GitCommit.getChangedValue change original).

Definition previousFileShortSha (c : GitCommit.t) : str :=
  shortenSha G (previousFileSha c).

Definition previousShortSha (c : GitCommit.t) : option str :=
  match GitCommit.previousSha c with
  | Some (x :: s) => Some (shortenSha G (x :: s))
  | other => other
  end.

Definition toGitUri (c : GitCommit.t) (previous : bool) : option GitUri.t :=
  GitUri.fromCommit G cwd GitLensGit c previous.

Definition getFormattedPath (c : GitCommit.t) (separator : str) : str :=
  GitUri.getFormattedPathOf G cwd (GitUri.OfString (GitCommit.fileName c)) separator None.

End WithBackend.

Arguments TypeError {E}.
Arguments Rejected {E} e.
Arguments this {W} h.
Arguments world {W} h.
Arguments calls {W} h.
Arguments Build_Heap {W} this world calls.
Arguments resolvePreviousFileSha cwd {E W} resolveReference previousFileSha h.
Arguments assign_previousSha E {W} value h.

End GitCommitOps.

(* ================================================================== *)
(** * A reference instance of the [Git] helpers *)
(* ================================================================== *)

Module GitModel.

Section Tokens.

(** The texts of the two sentinel ids. *)
Variable stagedUncommittedSha : str.
Variable uncommittedSha : str.

(** Modelled from the spec: [Git.isStagedUncommitted], whose file is not
    among the sources; true of the "staged uncommitted" sentinel. *)
Definition isStagedUncommitted (sha : option str) : bool :=
  match sha with
  | Some s => Str.eqb s stagedUncommittedSha
  | None => false
  end.

(** Modelled from the spec: [Git.isUncommitted], whose file is not among
    the sources; true for either sentinel. *)
Definition isUncommitted (sha : option str) : bool :=
  match sha with
  | Some s => Str.eqb s stagedUncommittedSha || Str.eqb s uncommittedSha
  | None => false
  end.

(** Modelled from the spec: [Git.shortenSha], whose file is not among the
    sources; it truncates a real id to a fixed display length (seven
    characters in the spec's example) and sentinels short-circuit to
    themselves. *)
Definition shortenSha (sha : str) : str :=
  if isUncommitted (Some sha) then sha else firstn 7 sha.

(** Modelled from the spec: [Git.normalizePath], whose file is not among
    the sources; the spec only names the operation, the instance takes
    it to unify the separator. *)
Definition normalizePath (fileName : str) : str :=
  Str.replaceAll "\" "/" fileName.

(** The four helpers as an instance of the interface. *)
Definition service : GitService :=
  Build_GitService isStagedUncommitted isUncommitted shortenSha normalizePath.

End Tokens.

End GitModel.

(* ================================================================== *)
(** * [Logger] *)
(* ================================================================== *)

(** The logger keeps three static fields, [debug], [level] and [output].
    Its state here holds them together with what it has done to the
    editor: the calls made to the console, in order, the number of output
    channels created and the channels disposed of.  A channel is the list
    of the lines appended to it.  Values handed to the console or joined
    into a line are taken as the strings they print as. *)

Module Logger.

Inductive OutputLevel := Silent | Errors | Verbose.

Definition OutputLevel_eqb (a b : OutputLevel) : bool :=
  match a, b with
  | Silent, Silent | Errors, Errors | Verbose, Verbose => true
  | _, _ => false
  end.

Inductive ConsoleMethod := ConsoleLog | ConsoleError | ConsoleWarn.

Record t := {
  debug : bool;
  level : OutputLevel;
  output : option (list str);
  console : list (ConsoleMethod * list str);
  created : nat;
  disposed : list (list str)
}.

(** The static initializers. *)
Definition initial : t :=
  {| debug := false; level := Silent; output := None;
     console := []; created := 0; disposed := [] |}.

(** A configuration change as the logger reads it: whether the
    configuration is initializing, which of the two sections changed, and
    the values the configuration holds for them. *)
Record ConfigurationChangeEvent := {
  initializing : bool;
  changedDebug : bool;
  changedOutputLevel : bool;
  getDebug : bool;
  getOutputLevel : OutputLevel
}.

Definition onConfigurationChanged (e : ConfigurationChangeEvent) (s : t) : t :=
  let debug' := if initializing e || changedDebug e then getDebug e else debug s in
  if initializing e || changedOutputLevel e then
    let level' := getOutputLevel e in
    if OutputLevel_eqb level' Silent then
      match output s with
      | Some ch =>
          {| debug := debug'; level := level'; output := None;
             console := console s; created := created s;
             disposed := disposed s ++ [ch] |}
      | None =>
          {| debug := debug'; level := level'; output := None;
             console := console s; created := created s; disposed := disposed s |}
      end
    else
      match output s with
      | Some ch =>
          {| debug := debug'; level := level'; output := Some ch;
             console := console s; created := created s; disposed := disposed s |}
      | None =>
          {| debug := debug'; level := level'; output := Some [];
             console := console s; created := S (created s); disposed := disposed s |}
      end
  else
    {| debug := debug'; level := level s; output := output s;
       console := console s; created := created s; disposed := disposed s |}.

(** [configure]: the logger handles the configuration's initializing
    event (and subscribes to the later ones). *)
Definition configure (initializingChangeEvent : ConfigurationChangeEvent) (s : t) : t :=
  onConfigurationChanged initializingChangeEvent s.

Section WithConstants.

(** [ConsolePrefix], the channel name in brackets. *)
Variable ConsolePrefix : str.

(** One logging call: to the console when [debug] is on, and a line to
    the channel when there is one and [toChannel] holds of the level.  The
    clock is read once for the console and once for the line. *)
Definition write (method : ConsoleMethod) (toChannel : OutputLevel -> bool)
    (tsConsole tsLine : str) (consoleItems lineItems : list str) (s : t) : t :=
  let console' :=
    if debug s then console s ++ [(method, tsConsole :: ConsolePrefix :: consoleItems)]
    else console s in
  let output' :=
    match output s with
    | Some ch =>
        if toChannel (level s)
        then Some (ch ++ [Str.join " " (if debug s then tsLine :: lineItems else lineItems)])
        else Some ch
    | None => None
    end in
  {| debug := debug s; level := level s; output := output';
     console := console'; created := created s; disposed := disposed s |}.

Definition log (tsConsole tsLine message : str) (params : list str) (s : t) : t :=
  write ConsoleLog (fun l => OutputLevel_eqb l Verbose) tsConsole tsLine
    (message :: params) (message :: params) s.

Definition error (tsConsole tsLine ex classOrMethod : str) (params : list str) (s : t) : t :=
  write ConsoleError (fun l => negb (OutputLevel_eqb l Silent)) tsConsole tsLine
    (classOrMethod :: ex :: params) (classOrMethod :: ex :: params) s.

Definition warn (tsConsole tsLine message : str) (params : list str) (s : t) : t :=
  write ConsoleWarn (fun l => negb (OutputLevel_eqb l Silent)) tsConsole tsLine
    (message :: params) (message :: params) s.

End WithConstants.

(** [s.replace(/T/, ' ')]: the first [T] becomes a blank. *)
Fixpoint replaceFirstT (s : str) : str :=
  match s with
  | [] => []
  | c :: r => if Ascii.eqb c "T" then " "%char :: r else c :: replaceFirstT r
  end.

(** [s.replace(/\..+/, '')]: the first dot that a character other than a
    line end follows is removed with the rest of its line. *)
Fixpoint removeFraction (s : str) : str :=
  match s with
  | [] => []
  | c :: r =>
      if Ascii.eqb c "." then
        match r with
        | d :: _ =>
            if Uri.isLineEnd d then c :: removeFraction r
            else Str.dropWhile (fun x => negb (Uri.isLineEnd x)) r
        | [] => [c]
        end
      else c :: removeFraction r
  end.

(** A number as JavaScript prints it, for natural numbers. *)
Definition numberToString (n : nat) : str :=
  list_ascii_of_string (DecimalString.NilZero.string_of_uint (Nat.to_uint n)).

(** [s.slice(-n)]: the last [n] characters. *)
Definition sliceLast (n : nat) (s : str) : str :=
  skipn (List.length s - n) s.

(** The [timestamp] accessor, from what the clock gives: the ISO form of
    the date and its milliseconds. *)
Definition timestamp (toISOString : str) (getUTCMilliseconds : nat) : str :=
  "[" ++ removeFraction (replaceFirstT toISOString) ++ ":"
      ++ sliceLast 3 ("00" ++ numberToString getUTCMilliseconds) ++ "]".

End Logger.

(* ================================================================== *)
(** * The stash command *)
(* ================================================================== *)

(** [StashSaveCommand] talks to the backend, to two pickers of the editor
    and to the logger.  What these answer is the environment of a run; a
    run gives the events it caused, in order, and how it ended.  A quick
    pick command is a value of the type [Cmd], the result of executing one
    or of a stash a value of [V], what is thrown or rejected a value of
    [E].  The command awaits the backend and the two pickers, so that for
    these a thrown error and a rejected promise end alike ([inl]); the
    result of executing a quick pick command it returns as it is, so that
    there the two are told apart. *)

Module StashSave.

Section WithTypes.

Variables Cmd V E : Type.

Record StashSaveCommandArgs := {
  message : option str;
  uris : option (list Uri.t);
  goBackCommand : option Cmd
}.

(** [args = {}]. *)
Definition noArgs : StashSaveCommandArgs :=
  {| message := None; uris := None; goBackCommand := None |}.

(** The command context, as far as [preExecute] reads it: the resource
    states, each with its locator, or the resource groups, each with its
    states. *)
Record SourceControlResourceState := { resourceUri : Uri.t }.

Record SourceControlResourceGroup := {
  resourceStates : list SourceControlResourceState
}.

Inductive CommandContext :=
| ScmStates (scmResourceStates : list SourceControlResourceState)
| ScmGroups (scmResourceGroups : list SourceControlResourceGroup)
| OtherContext.

(** What executing a quick pick command does: it throws, or it returns a
    promise, which is fulfilled or rejected. *)
Inductive Execution :=
| Throws (ex : E)
| Fulfils (v : V)
| Rejects (ex : E).

(** What the repository picker resolves to. *)
Inductive Pick :=
| PickCommand (c : Cmd)
| PickNothing
| PickRepository (repoPath : str).

Record Environment := {
  getHighlanderRepoPath : E + option str;
  showRepositories : option Cmd -> E + Pick;
  showInputBox : E + option str;
  stashSave : str -> str -> option (list Uri.t) -> E + V;
  executeCommand : Cmd -> Execution
}.

Inductive Event :=
| AskedHighlanderRepoPath
| ShowedRepositories (goBack : option Cmd)
| Executed (c : Cmd)
| ShowedInputBox
| StashSaved (repoPath message : str) (uris : option (list Uri.t))
| LoggedError (ex : E) (classOrMethod : str)
| ShowedErrorMessage (text : str).

(** How the promise of [execute] ends: fulfilled with [undefined], with a
    value, or with what [showErrorMessage] returned, or rejected. *)
Inductive Outcome :=
| ReturnedUndefined
| ReturnedValue (v : V)
| ReturnedErrorMessage
| ThrewError (ex : E).

(** [this.execute(args)] after the context has been read into the
    arguments. *)
Definition preExecuteArgs (context : CommandContext) (args : StashSaveCommandArgs)
  : StashSaveCommandArgs :=
  match context with
  | ScmStates states =>
      {| message := message args;
         uris := Some (map resourceUri states);
         goBackCommand := goBackCommand args |}
  | ScmGroups groups =>
      {| message := message args;
         uris := Some (fold_left (fun a b => a ++ map resourceUri (resourceStates b))
                         groups []);
         goBackCommand := goBackCommand args |}
  | OtherContext => args
  end.

Variable env : Environment.

(** [return goBackCommand === undefined ? undefined : goBackCommand.execute()]
    and [return pick.execute()], outside the [try]. *)
Definition runCommand (c : Cmd) : list Event * Outcome :=
  ([Executed c],
   match executeCommand env c with
   | Fulfils v => ReturnedValue v
   | Throws ex => ThrewError ex
   | Rejects ex => ThrewError ex
   end).

Definition goBack (args : StashSaveCommandArgs) : list Event * Outcome :=
  match goBackCommand args with
  | None => ([], ReturnedUndefined)
  | Some c => runCommand c
  end.

(** The [catch] block. *)
Definition caught (ex : E) : list Event * Outcome :=
  ([LoggedError ex "StashSaveCommand";
    ShowedErrorMessage "Unable to save stash. See output channel for more details"],
   ReturnedErrorMessage).

(** The call of the backend at the end of the [try] block. *)
Definition save (repoPath message : str) (uris : option (list Uri.t)) : list Event * Outcome :=
  match stashSave env repoPath message uris with
  | inr v => ([StashSaved repoPath message uris], ReturnedValue v)
  | inl ex =>
      let (events, outcome) := caught ex in
      (StashSaved repoPath message uris :: events, outcome)
  end.

(** The [try] block, with the repository known.  The result of the
    command to go back to is returned without [await]: the [catch] block
    sees what executing it throws, not the rejection of its promise. *)
Definition tryBlock (repoPath : str) (args : StashSaveCommandArgs) : list Event * Outcome :=
  match message args with
  | Some m => save repoPath m (uris args)
  | None =>
      match showInputBox env with
      | inl ex =>
          let (events, outcome) := caught ex in (ShowedInputBox :: events, outcome)
      | inr None =>
          match goBackCommand args with
          | None => ([ShowedInputBox], ReturnedUndefined)
          | Some c =>
              match executeCommand env c with
              | Fulfils v => ([ShowedInputBox; Executed c], ReturnedValue v)
              | Rejects ex => ([ShowedInputBox; Executed c], ThrewError ex)
              | Throws ex =>
                  let (events, outcome) := caught ex in
                  (ShowedInputBox :: Executed c :: events, outcome)
              end
          end
      | inr (Some m) =>
          let (events, outcome) := save repoPath m (uris args) in
          (ShowedInputBox :: events, outcome)
      end
  end.

Definition prepend (e : Event) (r : list Event * Outcome) : list Event * Outcome :=
  (e :: fst r, snd r).

Definition execute (args : StashSaveCommandArgs) : list Event * Outcome :=
  prepend AskedHighlanderRepoPath
    match getHighlanderRepoPath env with
    | inl ex => ([], ThrewError ex)
    | inr (Some (c :: r)) => tryBlock (c :: r) args
    | inr _ =>
        prepend (ShowedRepositories (goBackCommand args))
          match showRepositories env (goBackCommand args) with
          | inl ex => ([], ThrewError ex)
          | inr (PickCommand c) => runCommand c
          | inr PickNothing => goBack args
          | inr (PickRepository repoPath) => tryBlock repoPath args
          end
    end.

Definition preExecute (context : CommandContext) (args : StashSaveCommandArgs)
  : list Event * Outcome :=
  execute (preExecuteArgs context args).

End WithTypes.

Arguments message {Cmd} _.
Arguments uris {Cmd} _.
Arguments goBackCommand {Cmd} _.
Arguments Build_StashSaveCommandArgs {Cmd} _ _ _.
Arguments noArgs {Cmd}.
Arguments Throws {V E} ex.
Arguments Fulfils {V E} v.
Arguments Rejects {V E} ex.
Arguments PickCommand {Cmd} c.
Arguments PickNothing {Cmd}.
Arguments PickRepository {Cmd} repoPath.
Arguments getHighlanderRepoPath {Cmd V E} _.
Arguments showRepositories {Cmd V E} _ _.
Arguments showInputBox {Cmd V E} _.
Arguments stashSave {Cmd V E} _ _ _ _.
Arguments executeCommand {Cmd V E} _ _.
Arguments Build_Environment {Cmd V E} _ _ _ _ _.
Arguments AskedHighlanderRepoPath {Cmd E}.
Arguments ShowedRepositories {Cmd E} goBack.
Arguments Executed {Cmd E} c.
Arguments ShowedInputBox {Cmd E}.
Arguments StashSaved {Cmd E} repoPath message uris.
Arguments LoggedError {Cmd E} ex classOrMethod.
Arguments ShowedErrorMessage {Cmd E} text.
Arguments ReturnedUndefined {V E}.
Arguments ReturnedValue {V E} v.
Arguments ReturnedErrorMessage {V E}.
Arguments ThrewError {V E} ex.
Arguments preExecuteArgs {Cmd} context args.
Arguments runCommand {Cmd V E} env c.
Arguments goBack {Cmd V E} env args.
Arguments caught {Cmd V E} ex.
Arguments save {Cmd V E} env repoPath message uris.
Arguments tryBlock {Cmd V E} env repoPath args.
Arguments prepend {Cmd V E} e r.
Arguments execute {Cmd V E} env args.
Arguments preExecute {Cmd V E} env context args.

End StashSave.

(* ================================================================== *)
(** * Notions the properties are stated with *)
(* ================================================================== *)

(** A segment that [normalizeString] keeps as it is. *)
Definition normalSeg (s : str) : Prop :=
  s <> [] /\ s <> Path.dot /\ s <> Path.dotdot /\ Str.free "/" s = true.

(** The absolute path with the given segments. *)
Definition absolutePath (segs : list str) : str := "/"%char :: Str.join "/" segs.

(** Every character of [s] has the property [q]. *)
Definition carries (q : ascii -> bool) (s : str) : Prop := Str.all q s = true.

(** What [JSON.parse] reads a written member as. *)
Definition asValue (kv : str * str) : str * JSON.value :=
  (fst kv, JSON.VString (snd kv)).

(** The text [JSON.stringify] writes for a member. *)
Definition memberText (kv : str * str) : str := JSON.member (fst kv) (snd kv).

(** Characters that may stand in a query that is to survive [Uri.parse]. *)
Definition querySafe : ascii -> bool := Uri.notIn "#%".

(** The request [resolvePreviousFileSha] sends for a commit. *)
Definition requestOf (cwd : str) (previousFileSha : GitCommit.t -> str) (c : GitCommit.t)
  : GitCommitOps.ResolveRequest :=
  {| GitCommitOps.reqRepoPath := GitCommit.repoPath c;
     GitCommitOps.reqRef := previousFileSha c;
     GitCommitOps.reqUri :=
       if Str.truthy (GitCommit.fileName c) then GitCommit.previousUri cwd c else None |}.

(** Case analysis over the 256 characters. *)
Ltac each_char c :=
  destruct c as [[|] [|] [|] [|] [|] [|] [|] [|]].

(** Characters that the text of a locator carries unchanged through
    [Uri.parse]: all but the two delimiters and the percent sign. *)
Definition pathSafe : ascii -> bool := Uri.notIn "?#%".

(** A scheme that [Uri.parse] reads back: not empty and free of [:/?#]. *)
Definition validScheme (L : str) : bool :=
  Str.truthy L && Str.all (Uri.notIn ":/?#") L.

(** A triple the encoder is meant for: the repository root is an absolute
    path; root, file name, revision id and its short form are made of
    characters that a locator carries; and the file name relative to the
    root is in the normal form of [Git.normalizePath]. *)
Definition wellFormed (G : GitService) (cwd repoRoot relativeFileName revisionId : str) : bool :=
  Path.isAbsolute repoRoot
  && Str.all pathSafe repoRoot
  && Str.all pathSafe relativeFileName
  && Str.all pathSafe revisionId
  && Str.all pathSafe (shortenSha G revisionId)
  && (let r := Path.relative cwd repoRoot (Path.resolve cwd [repoRoot; relativeFileName]) in
      Str.eqb (normalizePath G r) r).

(** The file at [fileName] lies directly in the directory [root]. *)
Definition directChild (cwd root fileName : str) : Prop :=
  Path.resolve cwd [Path.dirname fileName] = Path.resolve cwd [root].

(* ================================================================== *)
(** * Sample values *)
(* ================================================================== *)

Definition zeroSha : str := "0000000000000000000000000000000000000000".

(** The reference helpers, with forty zeros as the "uncommitted" id and
    the same followed by a colon as the "staged uncommitted" one. *)
Definition sampleGit : GitService := GitModel.service (zeroSha ++ ":") zeroSha.

Definition sampleSha : str := "deadbeef0123456789abcdef0123456789abcdef".

Definition sampleStatus : IGitStatusFile :=
  {| statusFileName := "src/a.ts"; statusOriginalFileName := None |}.

(** A locator whose embedded id is the "staged uncommitted" sentinel. *)
Definition stagedLocator : Uri.t :=
  {| Uri.scheme := "gitlens-git";
     Uri.authority := [];
     Uri.path := "/repo/a:index.ts";
     Uri.query := GitUri.stringifyRevisionData
                    {| GitUri.dataSha := Some (zeroSha ++ ":");
                       GitUri.dataFileName := "a.ts";
                       GitUri.dataRepoPath := "/repo" |};
     Uri.fragment := [] |}.

(** A file commit of [new.ts], once named [old.ts], whose previous file
    name was not recorded. *)
Definition renamedCommit : GitCommit.t :=
  GitCommit.new GitCommit.File "/repo" sampleSha "author" 0 "rename"
    (Some ("new.ts" : str)) (Some ("old.ts" : str)) (Some ("0123abc" : str)) None.

(** A backend that answers every request with the reference it was asked
    for, marked, and counts its calls. *)
Definition echoBackend (req : GitCommitOps.ResolveRequest) (w : nat) : (unit + str) * nat :=
  (inr (GitCommitOps.reqRef req ++ "^"), S w).

(** A backend that rejects every request. *)
Definition failingBackend (req : GitCommitOps.ResolveRequest) (w : nat) : (unit + str) * nat :=
  (inl tt, S w).

(** A stand-in for the abstract accessor [previousFileSha]. *)
Definition samplePreviousFileSha (c : GitCommit.t) : str :=
  match GitCommit.previousSha c with Some s => s | None => GitCommit.sha c end.

(** The sample commit with a resolved previous id in its cache. *)
Definition resolvedCommit : GitCommit.t :=
  GitCommit.set_resolvedPreviousFileSha (Some ("0123abc" : str)) renamedCommit.

Definition sampleHeap : GitCommitOps.Heap nat :=
  {| GitCommitOps.this := resolvedCommit; GitCommitOps.world := 0; GitCommitOps.calls := [] |}.

(* ================================================================== *)
(** * Further notions: file locators, logger runs, command traces *)
(* ================================================================== *)

(** The path starts with two separators: [Uri.file] reads a share name
    from it. *)
Definition doubleSlash (p : str) : bool :=
  match p with
  | a :: b :: _ => Ascii.eqb a "/" && Ascii.eqb b "/"
  | _ => false
  end.

(** The path starts with a separator, a letter and a colon: [fsPath]
    reads a drive from it. *)
Definition driveLetter (p : str) : bool :=
  match p with
  | a :: c :: d :: _ => Ascii.eqb a "/" && Uri.isLetter c && Ascii.eqb d ":"
  | _ => false
  end.

(** A [GitUri] that [toRevisionUri] can write down and [Uri.parse] read
    back: it has an absolute repository path and an absolute file path,
    both made of characters a locator carries, as are its revision id and
    the short form of it as they are interpolated; and the file's path
    relative to the repository is in the normal form of
    [Git.normalizePath]. *)
Definition reencodable (G : GitService) (cwd : str) (g : GitUri.t) : bool :=
  match GitUri.repoPath g with
  | Some root =>
      Path.isAbsolute root
      && Path.isAbsolute (GitUri.fsPath g)
      && Str.all pathSafe root
      && Str.all pathSafe (GitUri.fsPath g)
      && Str.all pathSafe (interpolate (GitUri.sha g))
      && Str.all pathSafe (interpolate (GitUri.shortSha G g))
      && (let r := Path.relative cwd root (GitUri.fsPath g) in
          Str.eqb (normalizePath G r) r)
  | None => false
  end.

(** A plain [file] locator. *)
Definition fileLocator (p : str) : Uri.t :=
  {| Uri.scheme := "file"; Uri.authority := []; Uri.path := p;
     Uri.query := []; Uri.fragment := [] |}.



(** The calls a program makes to the logger. *)
Inductive LoggerCall :=
| CallConfigure (e : Logger.ConfigurationChangeEvent)
| CallLog (tsConsole tsLine message : str) (params : list str)
| CallError (tsConsole tsLine ex classOrMethod : str) (params : list str)
| CallWarn (tsConsole tsLine message : str) (params : list str).

Definition loggerCall (ConsolePrefix : str) (s : Logger.t) (c : LoggerCall) : Logger.t :=
  match c with
  | CallConfigure e => Logger.onConfigurationChanged e s
  | CallLog tc tl m ps => Logger.log ConsolePrefix tc tl m ps s
  | CallError tc tl ex cm ps => Logger.error ConsolePrefix tc tl ex cm ps s
  | CallWarn tc tl m ps => Logger.warn ConsolePrefix tc tl m ps s
  end.

(** The logger after a sequence of calls, from its static initializers. *)
Definition loggerAfter (ConsolePrefix : str) (calls : list LoggerCall) : Logger.t :=
  fold_left (loggerCall ConsolePrefix) calls Logger.initial.

(** The number of channels a state holds. *)
Definition liveChannels (s : Logger.t) : nat :=
  match Logger.output s with Some _ => 1 | None => 0 end.

(** All lines that are in a channel, disposed of or not. *)
Definition allLines (s : Logger.t) : list str :=
  List.concat (Logger.disposed s)
  ++ match Logger.output s with Some ch => ch | None => [] end.

(** What holds of the logger whatever it is asked. *)
Definition loggerInvariant (s : Logger.t) : Prop :=
  (Logger.output s = None <-> Logger.level s = Logger.Silent)
  /\ Logger.created s = List.length (Logger.disposed s) + liveChannels s.

(** The decimal digit of a number below ten. *)
Definition digit (n : nat) : ascii := ascii_of_nat (48 + n).

(** An event of the stash command that calls the backend's [stashSave]. *)
Definition isStashSaved {Cmd E : Type} (e : StashSave.Event Cmd E) : bool :=
  match e with StashSave.StashSaved _ _ _ => true | _ => false end.

Definition isShowedInputBox {Cmd E : Type} (e : StashSave.Event Cmd E) : bool :=
  match e with StashSave.ShowedInputBox => true | _ => false end.

Definition isShowedRepositories {Cmd E : Type} (e : StashSave.Event Cmd E) : bool :=
  match e with StashSave.ShowedRepositories _ => true | _ => false end.

Definition isLoggedError {Cmd E : Type} (e : StashSave.Event Cmd E) : bool :=
  match e with StashSave.LoggedError _ _ => true | _ => false end.

(** Case analysis over the events of a trace. *)
Ltac split_events :=
  repeat match goal with
         | H : In _ (_ :: _) |- _ => destruct H as [H|H]
         | H : In _ [] |- _ => destruct H
         | H : _ \/ _ |- _ => destruct H as [H|H]
         | H : False |- _ => destruct H
         end.

(** Case analysis over what the environment of a command answers. *)
Ltac stash_answers :=
  repeat (cbn;
          match goal with
          | |- context [match ?x with _ => _ end] =>
              lazymatch x with
              | context [match _ with _ => _ end] => fail
              | _ => destruct x eqn:?
              end
          end);
  cbn.

(** The text of the error message the stash command shows. *)
Definition stashErrorText : str :=
  "Unable to save stash. See output channel for more details".

(** The user dismissed the repository picker. *)
Definition cancelledPicker {Cmd V E : Type} (env : StashSave.Environment Cmd V E)
    (args : StashSave.StashSaveCommandArgs Cmd) : Prop :=
  exists r, StashSave.getHighlanderRepoPath env = inr r
            /\ Str.opt_truthy r = false
            /\ StashSave.showRepositories env (StashSave.goBackCommand args)
               = inr StashSave.PickNothing.

(** A repository was determined, no message was given, and the user
    dismissed the input box. *)
Definition cancelledPrompt {Cmd V E : Type} (env : StashSave.Environment Cmd V E)
    (args : StashSave.StashSaveCommandArgs Cmd) : Prop :=
  StashSave.message args = None
  /\ StashSave.showInputBox env = inr None
  /\ ((exists repo, StashSave.getHighlanderRepoPath env = inr (Some repo) /\ repo <> [])
      \/ (exists r repo,
            StashSave.getHighlanderRepoPath env = inr r
            /\ Str.opt_truthy r = false
            /\ StashSave.showRepositories env (StashSave.goBackCommand args)
               = inr (StashSave.PickRepository repo))).

(** An editor with several repositories in which the user picks [/repo]
    and types a message; commands and results are their names. *)
Definition pickingEnvironment : StashSave.Environment str str str :=
  {| StashSave.getHighlanderRepoPath := inr None;
     StashSave.showRepositories := fun _ => inr (StashSave.PickRepository "/repo");
     StashSave.showInputBox := inr (Some ("wip" : str));
     StashSave.stashSave := fun repoPath message _ => inr (repoPath ++ ": " ++ message);
     StashSave.executeCommand := fun c => StashSave.Fulfils c |}.

(** An editor in which the user dismisses the repository picker, and
    every command fails. *)
Definition dismissingEnvironment : StashSave.Environment str str str :=
  {| StashSave.getHighlanderRepoPath := inr None;
     StashSave.showRepositories := fun _ => inr StashSave.PickNothing;
     StashSave.showInputBox := inr None;
     StashSave.stashSave := fun _ _ _ => inl ("stash failed" : str);
     StashSave.executeCommand := fun c => StashSave.Throws ("failed: " ++ c) |}.

(* ================================================================== *)
(** * Facts about strings *)
(* ================================================================== *)

Module StrFacts.

Lemma eqb_eq (a b : str) : Str.eqb a b = true <-> a = b.
Proof.
  revert b. induction a as [|x a IH]; intros [|y b]; simpl; split; intros H;
    try reflexivity; try discriminate.
  - apply andb_true_iff in H. destruct H as [Hx Hr].
    apply Ascii.eqb_eq in Hx. apply IH in Hr. congruence.
  - injection H as -> ->. rewrite Ascii.eqb_refl. simpl. now apply IH.
Qed.

Lemma eqb_refl (a : str) : Str.eqb a a = true.
Proof. now apply eqb_eq. Qed.

Lemma eqb_neq (a b : str) : Str.eqb a b = false <-> a <> b.
Proof.
  split.
  - intros H E. apply eqb_eq in E. congruence.
  - intros H. destruct (Str.eqb a b) eqn:E; [|reflexivity].
    apply eqb_eq in E. contradiction.
Qed.

Lemma opt_eqb_eq (a b : option str) : Str.opt_eqb a b = true <-> a = b.
Proof.
  destruct a as [x|], b as [y|]; simpl; split; intros H;
    try reflexivity; try discriminate.
  - apply eqb_eq in H. congruence.
  - injection H as ->. apply eqb_refl.
Qed.

Lemma opt_eqb_refl (a : option str) : Str.opt_eqb a a = true.
Proof. now apply opt_eqb_eq. Qed.

Section Spans.

Variable p : ascii -> bool.

Lemma span_app_stop (a b : str) (c : ascii) :
  Str.all p a = true -> p c = false ->
  Str.span p (a ++ c :: b) = (a, c :: b).
Proof.
  intros Ha Hc. induction a as [|x a IH]; simpl.
  - now rewrite Hc.
  - simpl in Ha. apply andb_true_iff in Ha. destruct Ha as [Hx Ha].
    rewrite Hx, (IH Ha). reflexivity.
Qed.

Lemma span_all (a : str) : Str.all p a = true -> Str.span p a = (a, []).
Proof.
  induction a as [|x a IH]; simpl; intros H; [reflexivity|].
  apply andb_true_iff in H. destruct H as [Hx Ha].
  rewrite Hx, (IH Ha). reflexivity.
Qed.

(** A stop character after [r] is a stop character of the whole. *)
Lemma span_app_later (r q : str) (c : ascii) :
  p c = false ->
  Str.span p (r ++ c :: q)
  = (fst (Str.span p r), snd (Str.span p r) ++ c :: q).
Proof.
  intros Hc. induction r as [|x r IH]; simpl.
  - now rewrite Hc.
  - destruct (p x); [|reflexivity].
    rewrite IH. destruct (Str.span p r). reflexivity.
Qed.

Lemma span_concat (s : str) : fst (Str.span p s) ++ snd (Str.span p s) = s.
Proof.
  induction s as [|x s IH]; simpl; [reflexivity|].
  destruct (p x); [|reflexivity].
  destruct (Str.span p s) as [a b]. simpl in *. now rewrite IH.
Qed.

Variable q : ascii -> bool.

Lemma all_app (a b : str) : Str.all q (a ++ b) = Str.all q a && Str.all q b.
Proof. apply forallb_app. Qed.

Lemma all_rev (a : str) : Str.all q (rev a) = Str.all q a.
Proof.
  induction a as [|x a IH]; simpl; [reflexivity|].
  rewrite all_app, IH. simpl. rewrite andb_true_r. apply andb_comm.
Qed.

Lemma all_span_fst (s : str) : Str.all q s = true -> Str.all q (fst (Str.span p s)) = true.
Proof.
  intros H. rewrite <- (span_concat s), all_app in H.
  now apply andb_true_iff in H.
Qed.

Lemma all_span_snd (s : str) : Str.all q s = true -> Str.all q (snd (Str.span p s)) = true.
Proof.
  intros H. rewrite <- (span_concat s), all_app in H.
  now apply andb_true_iff in H.
Qed.

Lemma all_dropWhile (s : str) : Str.all q s = true -> Str.all q (Str.dropWhile p s) = true.
Proof.
  induction s as [|x s IH]; simpl; intros H; [reflexivity|].
  destruct (p x); [|exact H].
  apply andb_true_iff in H. now apply IH.
Qed.

Lemma all_join (c : ascii) (l : list str) :
  q c = true -> Forall (fun s => Str.all q s = true) l -> Str.all q (Str.join c l) = true.
Proof.
  intros Hc Hl. induction Hl as [|x l Hx Hl IH]; [reflexivity|].
  destruct l as [|y l]; [exact Hx|].
  change (Str.join c (x :: y :: l)) with (x ++ c :: Str.join c (y :: l)).
  rewrite all_app. simpl. rewrite Hx, Hc. exact IH.
Qed.

Lemma all_split (c : ascii) (s : str) :
  Str.all q s = true -> Forall (fun seg => Str.all q seg = true) (Str.split c s).
Proof.
  induction s as [|x s IH]; simpl; intros H.
  - constructor; [reflexivity|constructor].
  - apply andb_true_iff in H. destruct H as [Hx Hs]. specialize (IH Hs).
    destruct (Ascii.eqb x c).
    + constructor; [reflexivity|exact IH].
    + destruct (Str.split c s) as [|h t].
      * constructor; [simpl; now rewrite Hx|constructor].
      * inversion IH; subst. constructor; [simpl; now rewrite Hx|assumption].
Qed.

End Spans.

Section Splitting.

Variable c : ascii.

Lemma split_not_nil (s : str) : Str.split c s <> [].
Proof.
  destruct s as [|x s]; simpl; [discriminate|].
  destruct (Ascii.eqb x c); [discriminate|].
  destruct (Str.split c s); discriminate.
Qed.

Lemma split_app_sep (a b : str) :
  Str.split c (a ++ c :: b) = Str.split c a ++ Str.split c b.
Proof.
  induction a as [|x a IH]; simpl.
  - now rewrite Ascii.eqb_refl.
  - destruct (Ascii.eqb x c); [now rewrite IH|].
    rewrite IH. destruct (Str.split c a) as [|h t] eqn:E; [|reflexivity].
    now apply split_not_nil in E.
Qed.

Lemma split_free (s : str) : Str.free c s = true -> Str.split c s = [s].
Proof.
  induction s as [|x s IH]; simpl; intros H; [reflexivity|].
  apply andb_true_iff in H. destruct H as [Hx Hs].
  apply negb_true_iff in Hx. rewrite Hx, (IH Hs). reflexivity.
Qed.

Lemma split_segments_free (s : str) : Forall (fun seg => Str.free c seg = true) (Str.split c s).
Proof.
  induction s as [|x s IH]; simpl.
  - constructor; [reflexivity|constructor].
  - destruct (Ascii.eqb x c) eqn:E.
    + constructor; [reflexivity|exact IH].
    + destruct (Str.split c s) as [|h t].
      * constructor; [simpl; now rewrite E|constructor].
      * inversion IH; subst. constructor; [|assumption].
        unfold Str.free in *. simpl. now rewrite E.
Qed.

Lemma split_join (l : list str) :
  l <> [] -> Forall (fun seg => Str.free c seg = true) l -> Str.split c (Str.join c l) = l.
Proof.
  intros Hne Hl. induction Hl as [|x l Hx Hl IH]; [contradiction|].
  destruct l as [|y l].
  - simpl. now apply split_free.
  - change (Str.join c (x :: y :: l)) with (x ++ c :: Str.join c (y :: l)).
    rewrite split_app_sep, (split_free _ Hx), IH; [reflexivity|discriminate].
Qed.

Lemma join_nil_inv (l : list str) :
  Forall (fun seg => seg <> []) l -> Str.join c l = [] -> l = [].
Proof.
  intros Hl H. destruct Hl as [|x l Hx Hl]; [reflexivity|].
  destruct l as [|y l]; simpl in H.
  - contradiction.
  - destruct x; [contradiction|discriminate].
Qed.

Lemma join_head (x : str) (l : list str) :
  x <> [] -> exists a r, x = a :: r /\ Str.join c (x :: l) = a :: r ++ match l with [] => [] | _ => c :: Str.join c l end.
Proof.
  intros Hx. destruct x as [|a r]; [contradiction|].
  exists a, r. split; [reflexivity|].
  destruct l; simpl; [now rewrite app_nil_r|reflexivity].
Qed.

End Splitting.

End StrFacts.

(* ================================================================== *)
(** * Facts about paths *)
(* ================================================================== *)

Module PathFacts.

Import StrFacts.

Lemma normalSeg_nonempty (s : str) : normalSeg s -> s <> [].
Proof. now intros [H _]. Qed.

Lemma normalSeg_free (s : str) : normalSeg s -> Str.free "/" s = true.
Proof. now intros (_ & _ & _ & H). Qed.

Lemma dotdot_free : Str.free "/" Path.dotdot = true.
Proof. reflexivity. Qed.

Lemma step_empty (a : bool) (res : list str) : Path.step a res [] = res.
Proof. reflexivity. Qed.

Lemma step_normal (a : bool) (res : list str) (seg : str) :
  normalSeg seg -> Path.step a res seg = seg :: res.
Proof.
  intros (H0 & H1 & H2 & _). unfold Path.step.
  apply eqb_neq in H0, H1, H2. now rewrite H0, H1, H2.
Qed.

Lemma step_pop (a : bool) (top : str) (below : list str) :
  normalSeg top -> Path.step a (top :: below) Path.dotdot = below.
Proof.
  intros (_ & _ & H2 & _). apply eqb_neq in H2.
  unfold Path.step. simpl (Str.eqb Path.dotdot _). simpl. now rewrite H2.
Qed.

Lemma fold_push (a : bool) (l acc : list str) :
  Forall normalSeg l -> fold_left (Path.step a) l acc = rev l ++ acc.
Proof.
  intros Hl. revert acc. induction Hl as [|x l Hx Hl IH]; intros acc; simpl.
  - reflexivity.
  - rewrite step_normal by assumption; rewrite IH, <- app_assoc. reflexivity.
Qed.

Lemma fold_pop (a : bool) (ups stack base : list str) :
  List.length ups = List.length stack -> Forall normalSeg stack ->
  fold_left (Path.step a) (map (fun _ => Path.dotdot) ups) (stack ++ base) = base.
Proof.
  revert stack. induction ups as [|u ups IH]; intros [|top stack] Hlen Hst;
    simpl in Hlen; try discriminate.
  - reflexivity.
  - inversion Hst; subst. simpl.
    rewrite step_pop by assumption. apply IH; [lia|assumption].
Qed.

(** With [allowAboveRoot] off only normal segments are ever kept. *)
Lemma step_keeps_normal (res : list str) (seg : str) :
  Forall normalSeg res -> Str.free "/" seg = true ->
  Forall normalSeg (Path.step false res seg).
Proof.
  intros Hres Hseg. unfold Path.step.
  destruct (Str.eqb seg []) eqn:E0; simpl; [assumption|].
  destruct (Str.eqb seg Path.dot) eqn:E1; simpl; [assumption|].
  destruct (Str.eqb seg Path.dotdot) eqn:E2.
  - destruct res as [|top below]; [constructor|].
    inversion Hres; subst.
    destruct (Str.eqb top Path.dotdot); assumption.
  - constructor; [|assumption].
    apply eqb_neq in E0, E1, E2. repeat split; assumption.
Qed.

Lemma fold_keeps_normal (l acc : list str) :
  Forall normalSeg acc -> Forall (fun seg => Str.free "/" seg = true) l ->
  Forall normalSeg (fold_left (Path.step false) l acc).
Proof.
  intros Hacc Hl. revert acc Hacc.
  induction Hl as [|x l Hx Hl IH]; intros acc Hacc; simpl; [assumption|].
  apply IH. now apply step_keeps_normal.
Qed.

Lemma normalizeSegs_normal (p : str) : Forall normalSeg (Path.normalizeSegs p false).
Proof.
  unfold Path.normalizeSegs. apply Forall_rev.
  apply fold_keeps_normal; [constructor|apply split_segments_free].
Qed.

(** A trailing separator adds nothing. *)
Lemma fold_trailing_sep (a : bool) (p : str) (acc : list str) :
  fold_left (Path.step a) (Str.split "/" (p ++ ["/"%char])) acc
  = fold_left (Path.step a) (Str.split "/" p) acc.
Proof. rewrite split_app_sep, fold_left_app. reflexivity. Qed.

Lemma normalizeSegs_trailing_sep (a : bool) (p : str) :
  Path.normalizeSegs (p ++ ["/"%char]) a = Path.normalizeSegs p a.
Proof. unfold Path.normalizeSegs. now rewrite fold_trailing_sep. Qed.

Lemma resolveLoop_absolute (p : str) (more : list str) (acc : str) :
  Path.isAbsolute p = true ->
  Path.resolveLoop (p :: more) acc = (p ++ "/"%char :: acc, true).
Proof.
  intros H. destruct p as [|c r]; [discriminate|].
  change (Path.resolveLoop ((c :: r) :: more) acc)
    with (if Path.isAbsolute (c :: r)
          then ((c :: r) ++ "/"%char :: acc, true)
          else Path.resolveLoop more ((c :: r) ++ "/"%char :: acc)).
  now rewrite H.
Qed.

Lemma resolveLoop_relative (p : str) (more : list str) (acc : str) :
  p <> [] -> Path.isAbsolute p = false ->
  Path.resolveLoop (p :: more) acc = Path.resolveLoop more (p ++ "/"%char :: acc).
Proof.
  intros Hne H. destruct p as [|c r]; [contradiction|].
  change (Path.resolveLoop ((c :: r) :: more) acc)
    with (if Path.isAbsolute (c :: r)
          then ((c :: r) ++ "/"%char :: acc, true)
          else Path.resolveLoop more ((c :: r) ++ "/"%char :: acc)).
  now rewrite H.
Qed.

(** The segments of an absolute path in normal form are its own. *)
Lemma normalizeSegs_of_normal (xs : list str) :
  Forall normalSeg xs ->
  Path.normalizeSegs ("/"%char :: Str.join "/" xs) false = xs.
Proof.
  intros Hxs. unfold Path.normalizeSegs.
  change ("/"%char :: Str.join "/" xs) with ([] ++ "/"%char :: Str.join "/" xs).
  rewrite split_app_sep, fold_left_app. simpl (fold_left _ (Str.split _ []) _).
  destruct xs as [|x xs]; [reflexivity|].
  rewrite split_join; [|discriminate|].
  - rewrite fold_push by assumption. now rewrite app_nil_r, rev_involutive.
  - eapply Forall_impl; [|exact Hxs]. apply normalSeg_free.
Qed.

Lemma join_normal_nil (xs : list str) :
  Forall normalSeg xs -> Str.join "/" xs = [] -> xs = [].
Proof.
  intros Hxs. apply join_nil_inv.
  eapply Forall_impl; [|exact Hxs]. apply normalSeg_nonempty.
Qed.

Lemma join_not_absolute (segs : list str) :
  Forall (fun seg => seg <> []) segs ->
  Forall (fun seg => Str.free "/" seg = true) segs ->
  Path.isAbsolute (Str.join "/" segs) = false.
Proof.
  intros Hne Hfree. destruct segs as [|x segs]; [reflexivity|].
  inversion Hne as [|? ? Hx _]; subst. inversion Hfree as [|? ? Fx _]; subst.
  destruct (join_head "/" x segs Hx) as (a & r & -> & ->).
  unfold Str.free in Fx. simpl in Fx. apply andb_true_iff in Fx.
  destruct Fx as [Fa _]. apply negb_true_iff in Fa. exact Fa.
Qed.

Lemma isAbsolute_cons (p : str) :
  Path.isAbsolute p = true -> exists r, p = "/"%char :: r.
Proof.
  destruct p as [|c r]; simpl; [discriminate|].
  unfold Path.isSep. intros H. apply Ascii.eqb_eq in H. subst. now exists r.
Qed.

Section WithCwd.

Variable cwd : str.

Lemma resolve_absolute_1 (p : str) :
  Path.isAbsolute p = true ->
  Path.resolve cwd [p] = absolutePath (Path.normalizeSegs p false).
Proof.
  intros Hp. unfold Path.resolve. simpl rev. simpl app.
  rewrite resolveLoop_absolute by assumption. simpl negb. cbv iota beta.
  unfold Path.normalizeString. now rewrite normalizeSegs_trailing_sep.
Qed.

(** [resolve] of a repository root and a name that is not absolutePath. *)
Lemma resolve_absolute_2 (root f : str) :
  Path.isAbsolute root = true -> Path.isAbsolute f = false ->
  Path.resolve cwd [root; f]
  = absolutePath (rev (fold_left (Path.step false) (Str.split "/" f)
                     (rev (Path.normalizeSegs root false)))).
Proof.
  intros Hr Hf. unfold Path.resolve. simpl rev. simpl app.
  destruct f as [|c f].
  - change (Path.resolveLoop [[]; root; cwd] [])
      with (Path.resolveLoop [root; cwd] []).
    rewrite resolveLoop_absolute by assumption. simpl negb. cbv iota beta.
    unfold Path.normalizeString.
    rewrite normalizeSegs_trailing_sep. unfold Path.normalizeSegs.
    simpl fold_left at 1. now rewrite rev_involutive.
  - rewrite resolveLoop_relative by (assumption || discriminate).
    rewrite resolveLoop_absolute by assumption. simpl negb. cbv iota beta.
    unfold Path.normalizeString, absolutePath. f_equal. f_equal.
    unfold Path.normalizeSegs. f_equal.
    rewrite split_app_sep, fold_left_app, fold_trailing_sep.
    now rewrite rev_involutive.
Qed.

Lemma resolve_absolute_2_abs (root f : str) :
  Path.isAbsolute f = true ->
  Path.resolve cwd [root; f] = absolutePath (Path.normalizeSegs f false).
Proof.
  intros Hf. unfold Path.resolve. simpl rev. simpl app.
  rewrite resolveLoop_absolute by assumption. simpl negb. cbv iota beta.
  unfold Path.normalizeString. now rewrite normalizeSegs_trailing_sep.
Qed.

(** Whatever the second argument, an absolute first one makes the
    result an absolute path in normal form. *)
Lemma resolve_absolute_form (root f : str) :
  Path.isAbsolute root = true ->
  exists xs, Forall normalSeg xs /\ Path.resolve cwd [root; f] = absolutePath xs.
Proof.
  intros Hr. destruct (Path.isAbsolute f) eqn:Hf.
  - eexists. split; [|now apply resolve_absolute_2_abs].
    apply normalizeSegs_normal.
  - eexists. split; [|now apply resolve_absolute_2].
    apply Forall_rev. apply fold_keeps_normal.
    + apply Forall_rev. apply normalizeSegs_normal.
    + apply split_segments_free.
Qed.

Lemma resolve_of_absolute (xs : list str) :
  Forall normalSeg xs -> Path.resolve cwd [absolutePath xs] = absolutePath xs.
Proof.
  intros Hxs. rewrite resolve_absolute_1 by reflexivity.
  unfold absolutePath. now rewrite normalizeSegs_of_normal.
Qed.

Lemma segmentsOf_absolute (xs : list str) :
  Forall normalSeg xs -> Path.segmentsOf (absolutePath xs) = xs.
Proof.
  intros Hxs. unfold absolutePath, Path.segmentsOf.
  destruct (Str.join "/" xs) as [|c r] eqn:E.
  - symmetry. now apply join_normal_nil.
  - rewrite <- E. apply split_join.
    + intros ->. discriminate.
    + eapply Forall_impl; [|exact Hxs]. apply normalSeg_free.
Qed.

Lemma absolute_inj (xs ys : list str) :
  Forall normalSeg xs -> Forall normalSeg ys -> absolutePath xs = absolutePath ys -> xs = ys.
Proof.
  intros Hx Hy H.
  rewrite <- (segmentsOf_absolute xs Hx), <- (segmentsOf_absolute ys Hy). now rewrite H.
Qed.

Lemma stripCommon_spec (a b : list str) :
  exists common, a = common ++ fst (Path.stripCommon a b)
                 /\ b = common ++ snd (Path.stripCommon a b).
Proof.
  revert b. induction a as [|x a IH]; intros b.
  - exists []. now destruct b.
  - destruct b as [|y b]; [now exists []|]. simpl.
    destruct (Str.eqb x y) eqn:E.
    + apply eqb_eq in E. subst y. destruct (IH b) as (common & Ha & Hb).
      exists (x :: common). simpl. now rewrite <- Ha, <- Hb.
    + now exists [].
Qed.

(** [relative] between two absolute paths: climb out of what is left
    of [from] after the common prefix, then descend into [to]. *)
Lemma relative_absolute (from to : str) :
  Path.isAbsolute from = true -> Path.isAbsolute to = true ->
  exists common up down,
    Path.normalizeSegs from false = common ++ up
    /\ Path.normalizeSegs to false = common ++ down
    /\ Path.relative cwd from to
       = Str.join "/" (map (fun _ => Path.dotdot) up ++ down).
Proof.
  intros Hf Ht. unfold Path.relative.
  pose proof (normalizeSegs_normal from) as Nf.
  pose proof (normalizeSegs_normal to) as Nt.
  destruct (Str.eqb from to) eqn:E.
  { apply eqb_eq in E. subst to.
    exists (Path.normalizeSegs from false), [], [].
    now rewrite app_nil_r. }
  rewrite !resolve_absolute_1 by assumption.
  destruct (Str.eqb (absolutePath (Path.normalizeSegs from false))
              (absolutePath (Path.normalizeSegs to false))) eqn:E'.
  { apply eqb_eq in E'. apply absolute_inj in E'; try assumption.
    exists (Path.normalizeSegs from false), [], [].
    rewrite <- E', app_nil_r. now repeat split. }
  rewrite !segmentsOf_absolute by assumption.
  destruct (stripCommon_spec (Path.normalizeSegs from false)
              (Path.normalizeSegs to false)) as (common & Ha & Hb).
  destruct (Path.stripCommon _ _) as [up down]. simpl in Ha, Hb.
  now exists common, up, down.
Qed.

(** Resolving, against [from], the relative path from [from] to [to]
    gives [to] back. *)
Lemma resolve_relative (from to : str) :
  Path.isAbsolute from = true -> Path.isAbsolute to = true ->
  Path.resolve cwd [from; Path.relative cwd from to] = Path.resolve cwd [to].
Proof.
  intros Hf Ht.
  destruct (relative_absolute from to Hf Ht) as (common & up & down & Ha & Hb & Hr).
  pose proof (normalizeSegs_normal from) as Nf.
  pose proof (normalizeSegs_normal to) as Nt.
  rewrite Ha in Nf. rewrite Hb in Nt.
  apply Forall_app in Nf. destruct Nf as [Nc Nu].
  apply Forall_app in Nt. destruct Nt as [_ Nd].
  rewrite (resolve_absolute_1 to Ht), Hb, Hr.
  set (segs := map (fun _ => Path.dotdot) up ++ down).
  assert (Hfree : Forall (fun seg => Str.free "/" seg = true) segs).
  { apply Forall_app. split.
    - apply Forall_forall. intros x Hx. apply in_map_iff in Hx.
      destruct Hx as (_ & <- & _). reflexivity.
    - eapply Forall_impl; [|exact Nd]. apply normalSeg_free. }
  assert (Hne : Forall (fun seg => seg <> []) segs).
  { apply Forall_app. split.
    - apply Forall_forall. intros x Hx. apply in_map_iff in Hx.
      destruct Hx as (_ & <- & _). discriminate.
    - eapply Forall_impl; [|exact Nd]. apply normalSeg_nonempty. }
  assert (Hrel : Path.isAbsolute (Str.join "/" segs) = false)
    by now apply join_not_absolute.
  rewrite (resolve_absolute_2 from _ Hf Hrel), Ha. f_equal.
  destruct segs as [|x segs'] eqn:Es.
  - apply app_eq_nil in Es. destruct Es as [Eu ->].
    destruct up; [|discriminate]. simpl. rewrite step_empty. now rewrite rev_involutive.
  - rewrite <- Es in *. rewrite split_join; [|now rewrite Es|assumption].
    unfold segs. rewrite fold_left_app, rev_app_distr.
    rewrite fold_pop; [|now rewrite length_rev|now apply Forall_rev].
    rewrite fold_push by assumption.
    now rewrite rev_app_distr, !rev_involutive.
Qed.

End WithCwd.

End PathFacts.

(* ================================================================== *)
(** * Facts about [JSON] *)
(* ================================================================== *)

Module JSONFacts.

Import StrFacts.

(** Reading back one escaped character. *)
Lemma parseChars_escapeChar (c : ascii) (rest : str) :
  JSON.parseChars (JSON.escapeChar c ++ rest) = JSON.consTo c (JSON.parseChars rest).
Proof. each_char c; reflexivity. Qed.

Lemma parseChars_escaped (s rest : str) :
  JSON.parseChars (flat_map JSON.escapeChar s ++ JSON.dquote :: rest) = Some (s, rest).
Proof.
  induction s as [|c s IH].
  - reflexivity.
  - simpl flat_map. rewrite <- app_assoc, parseChars_escapeChar, IH. reflexivity.
Qed.

Lemma parseChars_quote (s rest : str) :
  JSON.parseChars (tl (JSON.quote s) ++ rest) = Some (s, rest).
Proof.
  unfold JSON.quote. simpl tl. rewrite <- app_assoc. apply parseChars_escaped.
Qed.

(** The text of a member, followed by [tail], reads back as the member
    and leaves [tail]. *)
Lemma member_reads (k v tail : str) :
  exists r,
    JSON.member k v ++ tail = JSON.dquote :: r
    /\ JSON.parseChars r
       = Some (k, ":"%char :: JSON.dquote :: flat_map JSON.escapeChar v ++ JSON.dquote :: tail).
Proof.
  unfold JSON.member, JSON.quote.
  exists (flat_map JSON.escapeChar k
          ++ JSON.dquote :: ":"%char :: JSON.dquote
             :: flat_map JSON.escapeChar v ++ JSON.dquote :: tail).
  split.
  - simpl. rewrite <- !app_assoc. simpl. rewrite <- !app_assoc. reflexivity.
  - apply parseChars_escaped.
Qed.

Lemma parseMembers_members (l : list (str * str)) :
  l <> [] ->
  forall fuel acc, List.length l <= fuel ->
    JSON.parseMembers fuel (Str.join "," (map memberText l) ++ ["}"%char]) acc
    = Some (acc ++ map asValue l).
Proof.
  induction l as [|[k v] l IH]; [contradiction|]. intros _ fuel acc Hfuel.
  destruct fuel as [|fuel]; [simpl in Hfuel; lia|].
  destruct l as [|kv' l].
  - simpl map. simpl Str.join. unfold memberText. simpl fst. simpl snd.
    destruct (member_reads k v ["}"%char]) as (r & -> & Hr).
    simpl. rewrite Hr. simpl. rewrite parseChars_escaped. reflexivity.
  - change (Str.join "," (map memberText ((k, v) :: kv' :: l)))
      with (JSON.member k v ++ ","%char :: Str.join "," (map memberText (kv' :: l))).
    rewrite <- app_assoc.
    destruct (member_reads k v
                ((","%char :: Str.join "," (map memberText (kv' :: l))) ++ ["}"%char]))
      as (r & -> & Hr).
    simpl. rewrite Hr. simpl. rewrite parseChars_escaped. simpl.
    rewrite IH; [|discriminate|simpl in *; lia].
    rewrite <- app_assoc. reflexivity.
Qed.

Lemma members_length (l : list (str * str)) :
  List.length l <= List.length (Str.join "," (map memberText l) ++ ["}"%char]).
Proof.
  induction l as [|[k v] l IH]; [simpl; lia|].
  destruct l as [|kv' l].
  - simpl. lia.
  - change (Str.join "," (map memberText ((k, v) :: kv' :: l)))
      with (JSON.member k v ++ ","%char :: Str.join "," (map memberText (kv' :: l))).
    rewrite <- app_assoc, length_app. simpl in *. lia.
Qed.

(** [JSON.parse] reads back what [JSON.stringify] wrote. *)
Lemma parse_stringify (l : list (str * option str)) :
  JSON.parse (JSON.stringify l) = Some (map asValue (JSON.defined l)).
Proof.
  unfold JSON.stringify, JSON.parse.
  change (map (fun kv => JSON.member (fst kv) (snd kv)) (JSON.defined l))
    with (map memberText (JSON.defined l)).
  simpl JSON.skipWs.
  destruct (JSON.defined l) as [|[k v] d] eqn:E.
  - reflexivity.
  - pose proof (members_length ((k, v) :: d)) as Hlen.
    destruct (member_reads k v
                (match d with [] => [] | _ => ","%char :: Str.join "," (map memberText d) end
                 ++ ["}"%char])) as (r & Hr & _).
    assert (Hshape : Str.join "," (map memberText ((k, v) :: d)) ++ ["}"%char]
                     = JSON.dquote :: r).
    { rewrite <- Hr. destruct d; simpl.
      - reflexivity.
      - unfold memberText at 1. simpl fst. simpl snd. now rewrite <- app_assoc. }
    change (JSON.skipWs ("{"%char :: Str.join "," (map memberText ((k, v) :: d)) ++ ["}"%char]))
      with ("{"%char :: (Str.join "," (map memberText ((k, v) :: d)) ++ ["}"%char])).
    cbv iota beta. rewrite Hshape.
    change (JSON.skipWs (JSON.dquote :: r)) with (JSON.dquote :: r).
    cbv iota beta. rewrite <- Hshape.
    apply (parseMembers_members ((k, v) :: d)); [discriminate|].
    exact Hlen.
Qed.

Lemma escapeChar_safe (c : ascii) :
  querySafe c = true -> Str.all querySafe (JSON.escapeChar c) = true.
Proof. each_char c; intros H; try reflexivity; discriminate H. Qed.

Lemma escaped_safe (s : str) :
  Str.all querySafe s = true -> Str.all querySafe (flat_map JSON.escapeChar s) = true.
Proof.
  induction s as [|c s IH]; simpl; intros H; [reflexivity|].
  apply andb_true_iff in H. destruct H as [Hc Hs].
  rewrite all_app, (escapeChar_safe c Hc). now apply IH.
Qed.

Lemma quote_safe (s : str) :
  Str.all querySafe s = true -> Str.all querySafe (JSON.quote s) = true.
Proof.
  intros H. unfold JSON.quote. simpl. rewrite all_app, (escaped_safe s H). reflexivity.
Qed.

Lemma stringify_safe (l : list (str * option str)) :
  Forall (fun kv => Str.all querySafe (fst kv) = true
                    /\ Str.all querySafe (snd kv) = true) (JSON.defined l) ->
  Str.all querySafe (JSON.stringify l) = true.
Proof.
  intros H. unfold JSON.stringify. simpl. rewrite all_app, andb_true_r.
  apply all_join; [reflexivity|].
  induction H as [|[k v] d [Hk Hv] _ IH]; constructor; [|exact IH].
  unfold JSON.member. simpl fst. simpl snd.
  rewrite all_app, (quote_safe k Hk).
  change (":"%char :: JSON.quote v) with ([":"%char] ++ JSON.quote v).
  rewrite all_app, (quote_safe v Hv). reflexivity.
Qed.

End JSONFacts.

(* ================================================================== *)
(** * Facts about [Uri.parse] *)
(* ================================================================== *)

Module UriFacts.

Import StrFacts.

Lemma all_weaken (p q : ascii -> bool) (s : str) :
  (forall c, p c = true -> q c = true) -> Str.all p s = true -> Str.all q s = true.
Proof.
  intros Hpq. induction s as [|c s IH]; simpl; intros H; [reflexivity|].
  apply andb_true_iff in H. destruct H as [Hc Hs].
  now rewrite (Hpq c Hc), IH.
Qed.

Lemma decodeURIComponent_plain (s : str) :
  Str.free "%" s = true -> Uri.decodeURIComponent s = Some s.
Proof.
  intros H.
  assert (Ho : Uri.octets s = Some (map (pair false) s)).
  { induction s as [|c s IH]; [reflexivity|].
    unfold Str.free in H. simpl in H. apply andb_true_iff in H. destruct H as [Hc Hs].
    apply negb_true_iff in Hc. simpl. rewrite Hc. now rewrite (IH Hs). }
  unfold Uri.decodeURIComponent. rewrite Ho.
  assert (Hw : Uri.escapesWellFormed (map (pair false) s) = true)
    by (clear; induction s as [|c s IH]; [reflexivity|exact IH]).
  rewrite Hw. f_equal. rewrite map_map. simpl. apply map_id.
Qed.

Lemma splitScheme_scheme (L rest : str) :
  Str.truthy L = true -> Str.all (Uri.notIn ":/?#") L = true ->
  Uri.splitScheme (L ++ ":"%char :: rest) = (L, rest).
Proof.
  intros Hne HL. unfold Uri.splitScheme.
  rewrite (span_app_stop (Uri.notIn ":/?#") L rest ":" HL) by reflexivity.
  destruct L; [discriminate|reflexivity].
Qed.

Lemma splitQuery_query (q : str) :
  Str.all (Uri.notIn "#") q = true -> Uri.splitQuery ("?"%char :: q) = (q, []).
Proof. intros Hq. unfold Uri.splitQuery. simpl. now apply span_all. Qed.

Lemma split_rest_plain (s1 q : str) :
  Str.all (Uri.notIn "?#") s1 = true ->
  Uri.splitAuthority (s1 ++ "?"%char :: q) = ([], s1 ++ "?"%char :: q) ->
  exists a p,
    Uri.splitAuthority (s1 ++ "?"%char :: q) = (a, p ++ "?"%char :: q)
    /\ (exists pre, s1 = pre ++ a ++ p)
    /\ Str.span (Uri.notIn "?#") (p ++ "?"%char :: q) = (p, "?"%char :: q).
Proof.
  intros H1 E. exists [], s1. repeat split.
  - exact E.
  - now exists [].
  - now apply span_app_stop.
Qed.

(** What follows the scheme, when it is free of [?] and [#] up to the
    question mark that opens the query. *)
Lemma split_rest (s1 q : str) :
  Str.all (Uri.notIn "?#") s1 = true ->
  exists a p,
    Uri.splitAuthority (s1 ++ "?"%char :: q) = (a, p ++ "?"%char :: q)
    /\ (exists pre, s1 = pre ++ a ++ p)
    /\ Str.span (Uri.notIn "?#") (p ++ "?"%char :: q) = (p, "?"%char :: q).
Proof.
  intros H1.
  destruct s1 as [|x [|y r]].
  - apply split_rest_plain; [assumption|]. now destruct q.
  - apply split_rest_plain; [assumption|]. simpl.
    now rewrite andb_false_r.
  - destruct (Ascii.eqb x "/" && Ascii.eqb y "/") eqn:E.
    + assert (Hr : Str.all (Uri.notIn "?#") r = true).
      { simpl in H1. apply andb_true_iff in H1. destruct H1 as [_ H1].
        apply andb_true_iff in H1. now destruct H1. }
      exists (fst (Str.span (Uri.notIn "/?#") r)), (snd (Str.span (Uri.notIn "/?#") r)).
      repeat split.
      * simpl. rewrite E. now apply span_app_later.
      * exists [x; y]. simpl. now rewrite span_concat.
      * apply span_app_stop; [|reflexivity]. now apply all_span_snd.
    + apply split_rest_plain; [assumption|]. simpl. now rewrite E.
Qed.

(** [Uri.parse] of a scheme, a colon, a text free of [?], [#] and [%], a
    question mark, and a query free of [#] and [%]. *)
Lemma parse_locator (L s1 q : str) :
  Str.truthy L = true -> Str.all (Uri.notIn ":/?#") L = true ->
  Str.all (Uri.notIn "?#") s1 = true -> Str.free "%" s1 = true ->
  Str.all (Uri.notIn "#") q = true -> Str.free "%" q = true ->
  exists a p,
    Uri.parse (L ++ ":"%char :: s1 ++ "?"%char :: q)
    = Some {| Uri.scheme := L; Uri.authority := a; Uri.path := p;
              Uri.query := q; Uri.fragment := [] |}.
Proof.
  intros Hne HL H1 P1 Hq Pq.
  destruct (split_rest s1 q H1) as (a & p & Ha & (pre & Hpre) & Hp).
  exists a, p. unfold Uri.parse.
  rewrite (splitScheme_scheme L _ Hne HL), Ha, Hp, (splitQuery_query q Hq).
  simpl Uri.splitFragment.
  assert (Pa : Str.free "%" a = true /\ Str.free "%" p = true).
  { subst s1. unfold Str.free in *. rewrite !all_app in P1.
    apply andb_true_iff in P1. destruct P1 as [_ P1].
    now apply andb_true_iff in P1. }
  destruct Pa as [Pa Pp].
  now rewrite !decodeURIComponent_plain by assumption.
Qed.

(** The same when the text starts with one slash only: there is no
    authority and the text is the path. *)
Lemma parse_locator_rooted (L r q : str) (c : ascii) :
  Str.truthy L = true -> Str.all (Uri.notIn ":/?#") L = true ->
  Ascii.eqb c "/" = false ->
  Str.all (Uri.notIn "?#") ("/"%char :: c :: r) = true ->
  Str.free "%" ("/"%char :: c :: r) = true ->
  Str.all (Uri.notIn "#") q = true -> Str.free "%" q = true ->
  Uri.parse (L ++ ":"%char :: ("/"%char :: c :: r) ++ "?"%char :: q)
  = Some {| Uri.scheme := L; Uri.authority := []; Uri.path := "/"%char :: c :: r;
            Uri.query := q; Uri.fragment := [] |}.
Proof.
  intros Hne HL Hc H1 P1 Hq Pq. unfold Uri.parse.
  rewrite (splitScheme_scheme L _ Hne HL).
  assert (Ha : Uri.splitAuthority (("/"%char :: c :: r) ++ "?"%char :: q)
               = ([], ("/"%char :: c :: r) ++ "?"%char :: q)).
  { simpl. now rewrite Hc. }
  rewrite Ha.
  rewrite (span_app_stop (Uri.notIn "?#") _ q "?" H1) by reflexivity.
  rewrite (splitQuery_query q Hq). simpl Uri.splitFragment.
  rewrite (decodeURIComponent_plain _ P1), (decodeURIComponent_plain _ Pq).
  reflexivity.
Qed.

End UriFacts.

(* ================================================================== *)
(** * Characters that path functions hand on *)
(* ================================================================== *)

(** The path functions build their results from the characters of their
    arguments, ['/'] and ['.']: a property [q] of characters that holds of
    these two carries over from the arguments to the results. *)

Module PathChars.

Import StrFacts PathFacts.

Section Carried.

Variable q : ascii -> bool.
Hypothesis q_sep : q "/" = true.
Hypothesis q_dot : q "." = true.

Local Abbreviation ok := (carries q).

Lemma ok_dot : ok Path.dot.
Proof. unfold carries. simpl. now rewrite q_dot. Qed.

Lemma ok_dotdot : ok Path.dotdot.
Proof. unfold carries. simpl. now rewrite q_dot. Qed.

Lemma step_ok (a : bool) (res : list str) (seg : str) :
  Forall ok res -> ok seg -> Forall ok (Path.step a res seg).
Proof.
  intros Hres Hseg. unfold Path.step.
  destruct (Str.eqb seg [] || Str.eqb seg Path.dot); [assumption|].
  destruct (Str.eqb seg Path.dotdot).
  - destruct res as [|top below].
    + destruct a; repeat constructor; assumption.
    + inversion Hres; subst.
      destruct (Str.eqb top Path.dotdot); [destruct a|]; try assumption.
      now constructor.
  - now constructor.
Qed.

Lemma fold_ok (a : bool) (l acc : list str) :
  Forall ok acc -> Forall ok l -> Forall ok (fold_left (Path.step a) l acc).
Proof.
  intros Hacc Hl. revert acc Hacc.
  induction Hl as [|x l Hx Hl IH]; intros acc Hacc; simpl; [assumption|].
  apply IH. now apply step_ok.
Qed.

Lemma normalizeSegs_ok (a : bool) (p : str) :
  ok p -> Forall ok (Path.normalizeSegs p a).
Proof.
  intros Hp. unfold Path.normalizeSegs. apply Forall_rev.
  apply fold_ok; [constructor|]. now apply all_split.
Qed.

Lemma join_ok (l : list str) : Forall ok l -> ok (Str.join "/" l).
Proof. intros H. unfold carries. now apply all_join. Qed.

Lemma absolute_ok (xs : list str) : Forall ok xs -> ok (absolutePath xs).
Proof.
  intros H. unfold carries, absolutePath. simpl. rewrite q_sep. now apply join_ok.
Qed.

Lemma resolve_ok (cwd root f : str) :
  Path.isAbsolute root = true -> ok root -> ok f -> ok (Path.resolve cwd [root; f]).
Proof.
  intros Hr Hroot Hf. destruct (Path.isAbsolute f) eqn:E.
  - rewrite resolve_absolute_2_abs by assumption.
    apply absolute_ok. now apply normalizeSegs_ok.
  - rewrite resolve_absolute_2 by assumption.
    apply absolute_ok. apply Forall_rev. apply fold_ok.
    + apply Forall_rev. now apply normalizeSegs_ok.
    + now apply all_split.
Qed.

Lemma relative_ok (cwd from to : str) :
  Path.isAbsolute from = true -> Path.isAbsolute to = true ->
  ok to -> ok (Path.relative cwd from to).
Proof.
  intros Hf Ht Hto.
  destruct (relative_absolute cwd from to Hf Ht) as (common & up & down & _ & Hb & ->).
  apply join_ok. apply Forall_app. split.
  - apply Forall_forall. intros x Hx. apply in_map_iff in Hx.
    destruct Hx as (_ & <- & _). apply ok_dotdot.
  - pose proof (normalizeSegs_ok false to Hto) as H. rewrite Hb in H.
    apply Forall_app in H. now destruct H.
Qed.

Lemma ok_app (a b : str) : ok a -> ok b -> ok (a ++ b).
Proof. unfold carries. intros Ha Hb. now rewrite all_app, Ha, Hb. Qed.

Lemma ok_rev (a : str) : ok a -> ok (rev a).
Proof. unfold carries. intros Ha. now rewrite all_rev. Qed.

Lemma ok_tail (c : ascii) (a : str) : ok (c :: a) -> ok a.
Proof. unfold carries. simpl. intros H. apply andb_true_iff in H. now destruct H. Qed.

Lemma ok_sep : ok "/".
Proof. unfold carries. simpl. now rewrite q_sep. Qed.

Lemma normalize_ok (p : str) : ok p -> ok (Path.normalize p).
Proof.
  intros Hp. unfold Path.normalize. destruct p as [|c r]; [apply ok_dot|].
  pose proof (join_ok _ (normalizeSegs_ok (negb (Path.isAbsolute (c :: r))) (c :: r) Hp)) as Hn.
  fold (Path.normalizeString (c :: r) (negb (Path.isAbsolute (c :: r)))) in Hn.
  destruct (Path.normalizeString (c :: r) (negb (Path.isAbsolute (c :: r)))) as [|x n].
  - destruct (Path.isAbsolute (c :: r)); [apply ok_sep|].
    destruct (Path.isAbsolute (rev (c :: r))); [|apply ok_dot].
    unfold carries. simpl. now rewrite q_dot, q_sep.
  - assert (Hn' : ok (if Path.isAbsolute (rev (c :: r)) then (x :: n) ++ "/" else x :: n)).
    { destruct (Path.isAbsolute (rev (c :: r))); [|assumption].
      apply ok_app; [assumption|apply ok_sep]. }
    destruct (Path.isAbsolute (c :: r)); [|assumption].
    apply ok_app; [apply ok_sep|assumption].
Qed.

Lemma pathJoin_ok (args : list str) : Forall ok args -> ok (Path.join args).
Proof.
  intros H. unfold Path.join.
  assert (Hf : Forall ok (filter Str.truthy args)).
  { apply Forall_forall. intros x Hx. apply filter_In in Hx.
    destruct Hx as [Hx _]. rewrite Forall_forall in H. now apply H. }
  destruct (filter Str.truthy args) as [|j js]; [apply ok_dot|].
  apply normalize_ok. now apply join_ok.
Qed.

Lemma splitExt_ok (b : str) :
  ok b -> ok (fst (Path.splitExt b)) /\ ok (snd (Path.splitExt b)).
Proof.
  intros Hb. unfold Path.splitExt.
  pose proof (all_span_fst (fun c => negb (Ascii.eqb c ".")) q (rev b)) as H1.
  pose proof (all_span_snd (fun c => negb (Ascii.eqb c ".")) q (rev b)) as H2.
  destruct (Str.span (fun c => negb (Ascii.eqb c ".")) (rev b)) as [revExt revName].
  simpl in H1, H2.
  assert (Hr : ok (rev b)) by now apply ok_rev.
  specialize (H1 Hr). specialize (H2 Hr).
  destruct revName as [|d revStem]; [split; [assumption|reflexivity]|].
  destruct revStem as [|e revStem']; [split; [assumption|reflexivity]|].
  destruct (Str.eqb b Path.dotdot); [split; [assumption|reflexivity]|].
  split.
  - apply ok_rev. now apply (ok_tail d).
  - unfold carries. simpl. rewrite q_dot. simpl. now apply ok_rev.
Qed.

Lemma parse_ok (p : str) :
  ok p -> ok (Path.dir (Path.parse p)) /\ ok (Path.name (Path.parse p))
          /\ ok (Path.ext (Path.parse p)).
Proof.
  intros Hp. unfold Path.parse. destruct p as [|c0 rest].
  - repeat split.
  - set (body := if Path.isSep c0 then rest else c0 :: rest).
    assert (Hbody : ok body).
    { unfold body. destruct (Path.isSep c0); [now apply (ok_tail c0)|assumption]. }
    pose proof (all_dropWhile Path.isSep q (rev body) (ok_rev _ Hbody)) as Hr.
    pose proof (all_span_fst (fun c => negb (Path.isSep c)) q _ Hr) as H1.
    pose proof (all_span_snd (fun c => negb (Path.isSep c)) q _ Hr) as H2.
    destruct (Str.span (fun c => negb (Path.isSep c))
                (Str.dropWhile Path.isSep (rev body))) as [revBase before].
    simpl in H1, H2.
    destruct (splitExt_ok (rev revBase) (ok_rev _ H1)) as [Hn He].
    destruct (Path.splitExt (rev revBase)) as [n e]. simpl in Hn, He.
    simpl. repeat split; try assumption.
    destruct before as [|d revDir].
    + destruct (Path.isSep c0); [apply ok_sep|reflexivity].
    + apply ok_app.
      * destruct (Path.isSep c0); [apply ok_sep|reflexivity].
      * apply ok_rev. now apply (ok_tail d).
Qed.

End Carried.

End PathChars.

(* ================================================================== *)
(** * [resolve] on arguments that may be missing *)
(* ================================================================== *)

Module ResolveAny.

Lemma resolveLoopAny_some (l : list str) (acc : str) :
  Path.resolveLoopAny (map Some l) acc = Some (Path.resolveLoop l acc).
Proof.
  revert acc. induction l as [|p more IH]; intros acc; [reflexivity|].
  cbn [map Path.resolveLoopAny Path.resolveLoop].
  destruct p as [|c r]; [apply IH|].
  destruct (Path.isAbsolute (c :: r)); [reflexivity|apply IH].
Qed.

(** Given strings only, [resolve] does not throw. *)
Lemma resolveAny_some (cwd : str) (args : list str) :
  Path.resolveAny cwd (map Some args) = Some (Path.resolve cwd args).
Proof.
  unfold Path.resolveAny, Path.resolve.
  change [Some cwd] with (map (@Some str) [cwd]).
  rewrite <- map_rev, <- map_app, resolveLoopAny_some.
  now destruct (Path.resolveLoop (rev args ++ [cwd]) []) as [p [|]].
Qed.

(** A missing first argument is not looked at when the second is an
    absolute path, and makes [resolve] throw when it is a relative one. *)
Lemma resolveAny_missing_root (cwd p : str) :
  p <> [] ->
  Path.resolveAny cwd [None; Some p]
  = if Path.isAbsolute p then Some (Path.resolve cwd [p]) else None.
Proof.
  intros Hp. destruct p as [|c r]; [contradiction|].
  unfold Path.resolveAny, Path.resolve. cbn [rev app Path.resolveLoopAny Path.resolveLoop].
  destruct (Path.isAbsolute (c :: r)); reflexivity.
Qed.

End ResolveAny.

(* ================================================================== *)
(** * The encoder and the decoder *)
(* ================================================================== *)

Module Codec.

Import StrFacts PathFacts JSONFacts UriFacts.

Lemma pathSafe_delims (c : ascii) : pathSafe c = true -> Uri.notIn "?#" c = true.
Proof. each_char c; intros H; try reflexivity; discriminate H. Qed.

Lemma pathSafe_percent (c : ascii) : pathSafe c = true -> negb (Ascii.eqb c "%") = true.
Proof. each_char c; intros H; try reflexivity; discriminate H. Qed.

Lemma pathSafe_query (c : ascii) : pathSafe c = true -> querySafe c = true.
Proof. each_char c; intros H; try reflexivity; discriminate H. Qed.

Lemma querySafe_hash (c : ascii) : querySafe c = true -> Uri.notIn "#" c = true.
Proof. each_char c; intros H; try reflexivity; discriminate H. Qed.

Lemma querySafe_percent (c : ascii) : querySafe c = true -> negb (Ascii.eqb c "%") = true.
Proof. each_char c; intros H; try reflexivity; discriminate H. Qed.

(** The text of a locator, regrouped around its two delimiters. *)
Lemma text_shape (L P short ext json : str) :
  L ++ ":" ++ P ++ ":" ++ short ++ ext ++ "?" ++ json
  = L ++ ":"%char :: (P ++ ":"%char :: short ++ ext) ++ "?"%char :: json.
Proof.
  change (":" ++ P ++ ":" ++ short ++ ext ++ "?" ++ json)
    with (":"%char :: P ++ ":"%char :: short ++ ext ++ "?"%char :: json).
  f_equal. f_equal. rewrite <- app_assoc. simpl. now rewrite <- app_assoc.
Qed.

(** The members of a parsed query that has the shape of
    [IUriRevisionData]. *)
Lemma asRevisionData_members (obj : list (str * JSON.value)) (data : GitUri.IUriRevisionData) :
  GitUri.asRevisionData obj = Some data ->
  GitUri.memberString obj "fileName" = Some (GitUri.dataFileName data)
  /\ GitUri.memberString obj "repoPath" = Some (GitUri.dataRepoPath data)
  /\ GitUri.memberString obj "sha" = GitUri.dataSha data.
Proof.
  unfold GitUri.asRevisionData, GitUri.memberString.
  destruct (JSON.get obj "fileName") as [[f| | ]|]; try discriminate.
  destruct (JSON.get obj "repoPath") as [[r| | ]|]; try discriminate.
  intros H. injection H as <-. repeat split.
Qed.

(** The constructor on a locator of the revision scheme whose query has
    the shape of [IUriRevisionData]. *)
Lemma new_of_data (G : GitService) (cwd GitLensGit : str) (u : Uri.t)
    (arg : GitUri.CommitOrRepoPath) (obj : list (str * JSON.value))
    (data : GitUri.IUriRevisionData) :
  Str.eqb (Uri.scheme u) GitLensGit = true ->
  JSON.parse (Uri.query u) = Some obj ->
  GitUri.asRevisionData obj = Some data ->
  GitUri.new G cwd GitLensGit (Some u) arg
  = Some {| GitUri.uri :=
              {| Uri.scheme := Uri.scheme u; Uri.authority := Uri.authority u;
                 Uri.path := Path.resolve cwd [GitUri.dataRepoPath data; GitUri.dataFileName data];
                 Uri.query := Uri.query u; Uri.fragment := Uri.fragment u |};
            GitUri.repoPath := Some (GitUri.dataRepoPath data);
            GitUri.sha := GitUri.keptSha G (GitUri.dataSha data) |}.
Proof.
  intros Hs Hp Hd. destruct (asRevisionData_members obj data Hd) as (Hf & Hr & Hsha).
  unfold GitUri.new. rewrite Hs, Hp, Hf, Hr, Hsha.
  change [Some (GitUri.dataRepoPath data); Some (GitUri.dataFileName data)]
    with (map (@Some str) [GitUri.dataRepoPath data; GitUri.dataFileName data]).
  now rewrite ResolveAny.resolveAny_some.
Qed.

Section WithEnv.

Variable G : GitService.
Variable cwd : str.
Variable GitLensGit : str.
Hypothesis scheme_ok : validScheme GitLensGit = true.

(** What the encoder writes for an absolute file name, and what
    [Uri.parse] makes of it. *)
Lemma toRevisionUri_parses (sha fileName repoPath short : str) :
  Str.all pathSafe fileName = true ->
  Str.all pathSafe repoPath = true ->
  Str.all pathSafe sha = true ->
  Str.all pathSafe short = true ->
  Str.all pathSafe (normalizePath G (Path.relative cwd repoPath fileName)) = true ->
  let data := {| GitUri.dataSha := Some sha;
                 GitUri.dataFileName := normalizePath G (Path.relative cwd repoPath fileName);
                 GitUri.dataRepoPath := repoPath |} in
  let parsed := Path.parse fileName in
  exists a p,
    Uri.parse (GitLensGit ++ ":" ++ Path.join [Path.dir parsed; Path.name parsed]
                 ++ ":" ++ short ++ Path.ext parsed
                 ++ "?" ++ GitUri.stringifyRevisionData data)
    = Some {| Uri.scheme := GitLensGit; Uri.authority := a; Uri.path := p;
              Uri.query := GitUri.stringifyRevisionData data;
              Uri.fragment := [] |}.
Proof.
  intros Hf Hr Hs Hsh Hn data parsed.
  rewrite text_shape.
  unfold validScheme in scheme_ok. apply andb_true_iff in scheme_ok.
  destruct scheme_ok as [Lne Lok].
  destruct (PathChars.parse_ok pathSafe eq_refl eq_refl fileName Hf) as (Hd & Hnm & He).
  fold parsed in Hd, Hnm, He.
  assert (H1 : Str.all pathSafe
                 (Path.join [Path.dir parsed; Path.name parsed]
                    ++ ":"%char :: short ++ Path.ext parsed) = true).
  { apply PathChars.ok_app.
    - apply PathChars.pathJoin_ok; try reflexivity.
      repeat constructor; assumption.
    - change (carries pathSafe ([":"%char] ++ short ++ Path.ext parsed)).
      repeat apply PathChars.ok_app; try assumption. reflexivity. }
  assert (Hq : Str.all querySafe (GitUri.stringifyRevisionData data) = true).
  { apply stringify_safe. simpl.
    repeat constructor; simpl; try reflexivity;
      eapply all_weaken; try apply pathSafe_query; assumption. }
  apply parse_locator; try assumption.
  - eapply all_weaken; [apply pathSafe_delims|exact H1].
  - eapply all_weaken; [apply pathSafe_percent|exact H1].
  - eapply all_weaken; [apply querySafe_hash|exact Hq].
  - eapply all_weaken; [apply querySafe_percent|exact Hq].
Qed.

(** What the decoder makes of a locator whose query is the encoder's. *)
Lemma new_of_encoded (a p : str) (data : GitUri.IUriRevisionData) (arg : GitUri.CommitOrRepoPath) :
  GitUri.new G cwd GitLensGit
    (Some {| Uri.scheme := GitLensGit; Uri.authority := a; Uri.path := p;
             Uri.query := GitUri.stringifyRevisionData data; Uri.fragment := [] |})
    arg
  = Some {| GitUri.uri :=
              {| Uri.scheme := GitLensGit; Uri.authority := a;
                 Uri.path := Path.resolve cwd [GitUri.dataRepoPath data; GitUri.dataFileName data];
                 Uri.query := GitUri.stringifyRevisionData data; Uri.fragment := [] |};
            GitUri.repoPath := Some (GitUri.dataRepoPath data);
            GitUri.sha := GitUri.keptSha G (GitUri.dataSha data) |}.
Proof.
  apply new_of_data with (obj := map asValue
                                   (JSON.defined [("fileName" : str, Some (GitUri.dataFileName data));
                                                  ("repoPath" : str, Some (GitUri.dataRepoPath data));
                                                  ("sha" : str, GitUri.dataSha data)])).
  - simpl Uri.scheme. apply eqb_refl.
  - simpl Uri.query. unfold GitUri.stringifyRevisionData. apply parse_stringify.
  - destruct data as [[s|] f r]; reflexivity.
Qed.

End WithEnv.

End Codec.

(* ================================================================== *)
(** * The claims *)
(* ================================================================== *)

Import StrFacts PathFacts.

(** The path functions on samples. *)
Example path_resolve_ex :
  Path.resolve "/home/u" ["/repo" : str; "src/../src/./a.ts" : str] = "/repo/src/a.ts" :> str.
Proof. reflexivity. Qed.

Example path_relative_ex :
  Path.relative "/home/u" "/repo/x/y" "/repo/src/a.ts" = "../../src/a.ts" :> str
  /\ Path.relative "/home/u" "/foobar" "/foo" = "../foo" :> str
  /\ Path.relative "/home/u" "/" "/foo" = "foo" :> str
  /\ Path.relative "/home/u" "/repo" "/repo" = [].
Proof. repeat split. Qed.

Example path_parse_ex :
  Path.dir (Path.parse "/repo/src/a.ts") = "/repo/src" :> str
  /\ Path.name (Path.parse "/repo/src/a.ts") = "a" :> str
  /\ Path.ext (Path.parse "/repo/src/a.ts") = ".ts" :> str
  /\ Path.ext (Path.parse "src/.bashrc") = []
  /\ Path.join [Path.dir (Path.parse "/a.ts"); Path.name (Path.parse "/a.ts")] = "/a" :> str
  /\ Path.dirname "/repo/a.ts" = "/repo" :> str
  /\ Path.dirname "a.ts" = "." :> str
  /\ Path.basename "/repo/src/a.ts" = "a.ts" :> str.
Proof. repeat split. Qed.

(** C1: decoding what [toRevisionUri] encodes for a well-formed
    (repository root, relative file name, revision id), the id being one
    of a committed revision, gives a [GitUri] whose path is
    [resolve(repoRoot, relativeFileName)], whose [repoPath] is the root
    and whose [sha] is the id. *)
Theorem toRevisionUri_round_trip
    (G : GitService) (cwd GitLensGit repoRoot revisionId : str) (status : IGitStatusFile) :
  validScheme GitLensGit = true ->
  wellFormed G cwd repoRoot (statusFileName status) revisionId = true ->
  isUncommitted G (Some revisionId) = false ->
  exists u g,
    GitUri.toRevisionUri G cwd GitLensGit (GitUri.FromStatus revisionId status repoRoot) = Some u
    /\ GitUri.new G cwd GitLensGit (Some u) GitUri.NoArgument = Some g
    /\ GitUri.path g = Path.resolve cwd [repoRoot; statusFileName status]
    /\ GitUri.repoPath g = Some repoRoot
    /\ GitUri.sha g = Some revisionId.
Proof.
  intros HL Hwf Hreal. unfold wellFormed in Hwf.
  apply andb_true_iff in Hwf. destruct Hwf as [Hwf Hnorm].
  apply andb_true_iff in Hwf. destruct Hwf as [Hwf Hshort].
  apply andb_true_iff in Hwf. destruct Hwf as [Hwf Hsha].
  apply andb_true_iff in Hwf. destruct Hwf as [Hwf Hrel].
  apply andb_true_iff in Hwf. destruct Hwf as [Habs Hroot].
  cbv zeta in Hnorm. apply eqb_eq in Hnorm.
  set (X := Path.resolve cwd [repoRoot; statusFileName status]) in *.
  assert (HX : Str.all pathSafe X = true)
    by (apply PathChars.resolve_ok; auto).
  destruct (resolve_absolute_form cwd repoRoot (statusFileName status) Habs)
    as (xs & Nxs & EX).
  fold X in EX.
  assert (Xabs : Path.isAbsolute X = true) by now rewrite EX.
  assert (Hr : Str.all pathSafe (normalizePath G (Path.relative cwd repoRoot X)) = true).
  { rewrite Hnorm. apply PathChars.relative_ok; auto. }
  destruct (Codec.toRevisionUri_parses G cwd GitLensGit HL revisionId X repoRoot
              (shortenSha G revisionId) HX Hroot Hsha Hshort Hr) as (a & p & Hparse).
  eexists. eexists. split; [|split; [|split; [|split]]].
  - unfold GitUri.toRevisionUri, GitUri.toRevisionUriText. fold X.
    simpl interpolate. exact Hparse.
  - apply Codec.new_of_encoded.
  - unfold GitUri.path. simpl. rewrite Hnorm.
    rewrite resolve_relative by assumption.
    rewrite EX. now apply resolve_of_absolute.
  - reflexivity.
  - simpl. unfold GitUri.keptSha. rewrite Hreal. now rewrite orb_true_r.
Qed.

(** The round trip on the sample triple, which is well formed. *)
Lemma toRevisionUri_round_trip_witness :
  validScheme "gitlens-git" = true
  /\ wellFormed sampleGit "/home/u" "/repo" (statusFileName sampleStatus) sampleSha = true
  /\ isUncommitted sampleGit (Some sampleSha) = false
  /\ exists u g,
       GitUri.toRevisionUri sampleGit "/home/u" "gitlens-git"
         (GitUri.FromStatus sampleSha sampleStatus "/repo") = Some u
       /\ GitUri.new sampleGit "/home/u" "gitlens-git" (Some u) GitUri.NoArgument = Some g
       /\ GitUri.path g = Path.resolve "/home/u" ["/repo" : str; "src/a.ts" : str]
       /\ GitUri.repoPath g = Some ("/repo" : str)
       /\ GitUri.sha g = Some sampleSha.
Proof.
  split; [reflexivity|]. split; [reflexivity|]. split; [reflexivity|].
  apply (toRevisionUri_round_trip sampleGit "/home/u" "gitlens-git" "/repo" sampleSha sampleStatus);
    reflexivity.
Defined.

(** The overload of [toRevisionUri] that takes a status record is the one
    that takes a file name, applied to the name resolved against the
    root; so the round trip holds for the latter on absolute names. *)
Lemma toRevisionUri_of_status
    (G : GitService) (cwd GitLensGit sha repoPath : str) (status : IGitStatusFile) :
  GitUri.toRevisionUri G cwd GitLensGit (GitUri.FromStatus sha status repoPath)
  = GitUri.toRevisionUri G cwd GitLensGit
      (GitUri.FromFileName sha (Path.resolve cwd [repoPath; statusFileName status]) repoPath).
Proof. reflexivity. Qed.

(** Given a name that is not absolute, the file-name overload reads it
    against the working directory, not against the root. *)
Example toRevisionUri_of_relative_fileName :
  match GitUri.toRevisionUri sampleGit "/home/u" "gitlens-git"
          (GitUri.FromFileName sampleSha "src/a.ts" "/repo") with
  | Some u => option_map GitUri.path
                (GitUri.new sampleGit "/home/u" "gitlens-git" (Some u) GitUri.NoArgument)
  | None => None
  end = Some ("/home/u/src/a.ts" : str).
Proof. vm_compute. reflexivity. Qed.

(** C3: for the repository root ["/repo"], the relative file name
    ["src/a.ts"] and a revision id starting with ["deadbeef0123"], the
    encoder writes the scheme, then the path ["/repo/src/a"] followed by a
    colon, the shortened id and the extension [".ts"], then the query;
    and the query parses to exactly the three members [fileName],
    [repoPath] and [sha], the last being the whole id. *)
Theorem toRevisionUri_example (G : GitService) (cwd GitLensGit rest : str) :
  validScheme GitLensGit = true ->
  Str.all pathSafe rest = true ->
  Str.all pathSafe (shortenSha G ("deadbeef0123" ++ rest)) = true ->
  normalizePath G "src/a.ts" = "src/a.ts" ->
  let sha : str := "deadbeef0123" ++ rest in
  let data := {| GitUri.dataSha := Some sha;
                 GitUri.dataFileName := "src/a.ts";
                 GitUri.dataRepoPath := "/repo" |} in
  GitUri.toRevisionUriText G cwd GitLensGit (GitUri.FromStatus sha sampleStatus "/repo")
  = Some (GitLensGit ++ ":" ++ "/repo/src/a" ++ ":" ++ shortenSha G sha ++ ".ts"
            ++ "?" ++ GitUri.stringifyRevisionData data)
  /\ GitUri.toRevisionUri G cwd GitLensGit (GitUri.FromStatus sha sampleStatus "/repo")
     = Some {| Uri.scheme := GitLensGit;
               Uri.authority := [];
               Uri.path := "/repo/src/a" ++ ":" ++ shortenSha G sha ++ ".ts";
               Uri.query := GitUri.stringifyRevisionData data;
               Uri.fragment := [] |}
  /\ JSON.parse (GitUri.stringifyRevisionData data)
     = Some [("fileName" : str, JSON.VString "src/a.ts");
             ("repoPath" : str, JSON.VString "/repo");
             ("sha" : str, JSON.VString sha)]
  /\ option_map GitUri.asRevisionData (JSON.parse (GitUri.stringifyRevisionData data))
     = Some (Some data).
Proof.
  intros HL Hrest Hshort Hnorm sha data.
  assert (Hsha : Str.all pathSafe sha = true).
  { unfold sha. apply PathChars.ok_app; [reflexivity|assumption]. }
  assert (Htext : GitUri.toRevisionUriText G cwd GitLensGit
                    (GitUri.FromStatus sha sampleStatus "/repo")
                  = Some (GitLensGit ++ ":" ++ "/repo/src/a" ++ ":" ++ shortenSha G sha ++ ".ts"
                            ++ "?" ++ GitUri.stringifyRevisionData data)).
  { unfold GitUri.toRevisionUriText.
    change (Path.resolve cwd ["/repo" : str; statusFileName sampleStatus])
      with ("/repo/src/a.ts" : str).
    change (Path.relative cwd "/repo" "/repo/src/a.ts") with ("src/a.ts" : str).
    rewrite Hnorm. reflexivity. }
  assert (Hq : Str.all querySafe (GitUri.stringifyRevisionData data) = true).
  { apply JSONFacts.stringify_safe. simpl.
    repeat constructor; simpl; try reflexivity.
    eapply UriFacts.all_weaken; [apply Codec.pathSafe_query|exact Hsha]. }
  assert (Hparse : JSON.parse (GitUri.stringifyRevisionData data)
                   = Some [("fileName" : str, JSON.VString "src/a.ts");
                           ("repoPath" : str, JSON.VString "/repo");
                           ("sha" : str, JSON.VString sha)]).
  { unfold GitUri.stringifyRevisionData. now rewrite JSONFacts.parse_stringify. }
  split; [exact Htext|]. split; [|split; [exact Hparse|now rewrite Hparse]].
  unfold GitUri.toRevisionUri. rewrite Htext. rewrite Codec.text_shape.
  unfold validScheme in HL. apply andb_true_iff in HL. destruct HL as [Lne Lok].
  assert (H1 : Str.all pathSafe ("/repo/src/a" ++ ":" ++ shortenSha G sha ++ ".ts") = true).
  { repeat apply PathChars.ok_app; try reflexivity. exact Hshort. }
  change ("/repo/src/a" ++ ":"%char :: shortenSha G sha ++ ".ts")
    with ("/repo/src/a" ++ ":" ++ shortenSha G sha ++ ".ts").
  change ("/repo/src/a" ++ ":" ++ shortenSha G sha ++ ".ts")
    with ("/"%char :: "r"%char :: ("epo/src/a" ++ ":" ++ shortenSha G sha ++ ".ts")) in *.
  apply UriFacts.parse_locator_rooted; try assumption; try reflexivity.
  - eapply UriFacts.all_weaken; [apply Codec.pathSafe_delims|exact H1].
  - eapply UriFacts.all_weaken; [apply Codec.pathSafe_percent|exact H1].
  - eapply UriFacts.all_weaken; [apply Codec.querySafe_hash|exact Hq].
  - eapply UriFacts.all_weaken; [apply Codec.querySafe_percent|exact Hq].
Qed.

(** The example with the reference helpers: the short id is the first
    seven characters. *)
Lemma toRevisionUri_example_witness :
  GitUri.toRevisionUriText sampleGit "/home/u" "gitlens-git"
    (GitUri.FromStatus sampleSha sampleStatus "/repo")
  = Some ("gitlens-git" ++ ":" ++ "/repo/src/a" ++ ":" ++ "deadbee" ++ ".ts" ++ "?"
            ++ GitUri.stringifyRevisionData
                 {| GitUri.dataSha := Some sampleSha;
                    GitUri.dataFileName := "src/a.ts";
                    GitUri.dataRepoPath := "/repo" |})
  /\ option_map Uri.path
       (GitUri.toRevisionUri sampleGit "/home/u" "gitlens-git"
          (GitUri.FromStatus sampleSha sampleStatus "/repo"))
     = Some ("/repo/src/a:deadbee.ts" : str).
Proof.
  destruct (toRevisionUri_example sampleGit "/home/u" "gitlens-git"
              "456789abcdef0123456789abcdef" eq_refl eq_refl eq_refl eq_refl)
    as (Htext & Huri & _).
  split.
  - exact Htext.
  - change ("deadbeef0123" ++ "456789abcdef0123456789abcdef") with sampleSha in Huri.
    rewrite Huri. reflexivity.
Defined.

(* ------------------------------------------------------------------ *)
(** ** Which ids the decoder keeps *)

Lemma keptSha_some (G : GitService) (s : option str) (x : str) :
  GitUri.keptSha G s = Some x ->
  s = Some x /\ (isStagedUncommitted G (Some x) = true \/ isUncommitted G (Some x) = false).
Proof.
  unfold GitUri.keptSha. intros H.
  destruct (isStagedUncommitted G s || negb (isUncommitted G s)) eqn:E; [|discriminate].
  subst s. split; [reflexivity|].
  apply orb_true_iff in E. destruct E as [E|E]; [now left|right].
  now apply negb_true_iff in E.
Qed.

(** C2, as the code has it: from a revision locator or from a commit-info
    record, the decoder sets [sha] to the embedded id exactly when the id
    is the "staged uncommitted" sentinel or is not uncommitted at all, and
    leaves it unset otherwise; so only the plain "uncommitted" sentinel is
    normalized to no id, and the "staged uncommitted" one is kept. *)
Theorem sha_kept_unless_plain_uncommitted (G : GitService) (cwd GitLensGit : str) :
  (forall (u : Uri.t) (arg : GitUri.CommitOrRepoPath) obj data,
      Str.eqb (Uri.scheme u) GitLensGit = true ->
      JSON.parse (Uri.query u) = Some obj ->
      GitUri.asRevisionData obj = Some data ->
      exists g, GitUri.new G cwd GitLensGit (Some u) arg = Some g
                /\ GitUri.sha g
                   = if isStagedUncommitted G (GitUri.dataSha data)
                        || negb (isUncommitted G (GitUri.dataSha data))
                     then GitUri.dataSha data else None)
  /\ (forall (u : Uri.t) (commit : GitUri.IGitCommitInfo),
         Str.eqb (Uri.scheme u) GitLensGit = false ->
         exists g, GitUri.new G cwd GitLensGit (Some u) (GitUri.Commit commit) = Some g
                   /\ GitUri.sha g
                      = if isStagedUncommitted G (GitUri.infoSha commit)
                           || negb (isUncommitted G (GitUri.infoSha commit))
                        then GitUri.infoSha commit else None)
  /\ (forall (u : option Uri.t) (arg : GitUri.CommitOrRepoPath) (g : GitUri.t) (s : str),
         GitUri.new G cwd GitLensGit u arg = Some g ->
         GitUri.sha g = Some s ->
         isStagedUncommitted G (Some s) = true \/ isUncommitted G (Some s) = false).
Proof.
  split; [|split].
  - intros u arg obj data Hs Hp Hd.
    rewrite (Codec.new_of_data G cwd GitLensGit u arg obj data Hs Hp Hd).
    eexists. split; reflexivity.
  - intros u commit Hs. unfold GitUri.new. rewrite Hs.
    assert (Hf : exists f, orElse (GitUri.infoFileName commit) (Some (Uri.fsPath u)) = Some f).
    { unfold orElse. destruct (GitUri.infoFileName commit) as [[|c f]|]; simpl; eauto. }
    destruct Hf as [f ->]. eexists. split; reflexivity.
  - intros u arg g s Hnew Hsha. unfold GitUri.new in Hnew.
    destruct u as [u|]; [|injection Hnew as <-; discriminate].
    destruct (Str.eqb (Uri.scheme u) GitLensGit).
    + destruct (JSON.parse (Uri.query u)) as [obj|]; [|discriminate].
      destruct (Path.resolveAny cwd _) as [p|]; [|discriminate].
      injection Hnew as <-. simpl in Hsha. now apply keptSha_some in Hsha.
    + destruct arg as [|r|commit].
      * injection Hnew as <-. discriminate.
      * injection Hnew as <-. discriminate.
      * destruct (orElse _ _); [|discriminate].
        injection Hnew as <-. simpl in Hsha. now apply keptSha_some in Hsha.
Qed.

(** C2, as stated, fails: the locator [stagedLocator] embeds the "staged
    uncommitted" sentinel, which is an uncommitted id, and the decoder
    sets [sha] to it. *)
Lemma staged_sentinel_is_kept :
  isUncommitted sampleGit (Some (zeroSha ++ ":")) = true
  /\ isStagedUncommitted sampleGit (Some (zeroSha ++ ":")) = true
  /\ option_map GitUri.sha
       (GitUri.new sampleGit "/home/u" "gitlens-git" (Some stagedLocator) GitUri.NoArgument)
     = Some (Some (zeroSha ++ ":"))
  /\ option_map GitUri.sha
       (GitUri.new sampleGit "/home/u" "gitlens-git" (Some (Uri.file "/repo/a.ts"))
          (GitUri.Commit {| GitUri.infoFileName := None;
                            GitUri.infoRepoPath := "/repo";
                            GitUri.infoSha := Some (zeroSha ++ ":") |}))
     = Some (Some (zeroSha ++ ":")).
Proof. repeat split; vm_compute; reflexivity. Qed.

(** The plain "uncommitted" sentinel is normalized to no id. *)
Lemma plain_sentinel_is_dropped :
  option_map GitUri.sha
    (GitUri.new sampleGit "/home/u" "gitlens-git"
       (Some {| Uri.scheme := "gitlens-git"; Uri.authority := []; Uri.path := [];
                Uri.query := GitUri.stringifyRevisionData
                               {| GitUri.dataSha := Some zeroSha;
                                  GitUri.dataFileName := "a.ts";
                                  GitUri.dataRepoPath := "/repo" |};
                Uri.fragment := [] |})
       GitUri.NoArgument)
  = Some None.
Proof. vm_compute. reflexivity. Qed.

(* ------------------------------------------------------------------ *)
(** ** The previous file of a commit *)

Lemma previousUri_unset (cwd : str) (c : GitCommit.t) :
  Str.opt_truthy (GitCommit.previousFileName c) = false ->
  GitCommit.previousUri cwd c = Some (GitCommit.uri cwd c).
Proof. intros H. unfold GitCommit.previousUri. now rewrite H. Qed.

Lemma previousUri_set (cwd : str) (c : GitCommit.t) (x : ascii) (f : str) :
  GitCommit.previousFileName c = Some (x :: f) ->
  GitCommit.previousUri cwd c
  = Some (Uri.file (Path.resolve cwd [GitCommit.repoPath c; x :: f])).
Proof. intros H. unfold GitCommit.previousUri, orElse. now rewrite H. Qed.

Lemma previousUri_total (cwd : str) (c : GitCommit.t) :
  exists u, GitCommit.previousUri cwd c = Some u.
Proof.
  destruct (GitCommit.previousFileName c) as [[|x f]|] eqn:E.
  - eexists. apply previousUri_unset. now rewrite E.
  - eexists. exact (previousUri_set cwd c x f E).
  - eexists. apply previousUri_unset. now rewrite E.
Qed.

(** C4 at its failing input: [renamedCommit] has no [previousFileName] and
    the original file name [old.ts]; [previousUri] is the locator of the
    current file [new.ts], not of [old.ts]. *)
Lemma previousUri_skips_originalFileName :
  GitCommit.previousFileName renamedCommit = None
  /\ GitCommit.originalFileName renamedCommit = Some ("old.ts" : str)
  /\ GitCommit.previousUri "/home/u" renamedCommit = Some (Uri.file "/repo/new.ts")
  /\ Uri.file (Path.resolve "/home/u" ["/repo" : str; "old.ts" : str]) = Uri.file "/repo/old.ts"
  /\ GitCommit.previousUri "/home/u" renamedCommit
     <> Some (Uri.file (Path.resolve "/home/u" ["/repo" : str; "old.ts" : str])).
Proof. repeat split; try (vm_compute; reflexivity). vm_compute. discriminate. Qed.

(* ------------------------------------------------------------------ *)
(** ** The observable file name *)

(** C5: [isFile] holds exactly of the tags Blame, File and StashFile,
    [isStash] exactly of Stash and StashFile; the observable [fileName] is
    the stored one under the first three tags and empty under the other
    two, so that, when a name is stored, it is observable if and only if
    the tag is one of the three. *)
Theorem fileName_by_type (c : GitCommit.t) :
  (GitCommit.isFile c = true
   <-> GitCommit.type c = GitCommit.Blame \/ GitCommit.type c = GitCommit.File
       \/ GitCommit.type c = GitCommit.StashFile)
  /\ (GitCommit.isStash c = true
      <-> GitCommit.type c = GitCommit.Stash \/ GitCommit.type c = GitCommit.StashFile)
  /\ (GitCommit.type c = GitCommit.Blame \/ GitCommit.type c = GitCommit.File
      \/ GitCommit.type c = GitCommit.StashFile -> GitCommit.fileName c = GitCommit._fileName c)
  /\ (GitCommit.type c = GitCommit.Branch \/ GitCommit.type c = GitCommit.Stash ->
      GitCommit.fileName c = [])
  /\ (GitCommit._fileName c <> [] ->
      (GitCommit.fileName c = GitCommit._fileName c
       <-> GitCommit.type c = GitCommit.Blame \/ GitCommit.type c = GitCommit.File
           \/ GitCommit.type c = GitCommit.StashFile)).
Proof.
  unfold GitCommit.fileName, GitCommit.isFile, GitCommit.isStash.
  destruct (GitCommit.type c); simpl; repeat split; intros;
    repeat match goal with
           | H : _ \/ _ |- _ => destruct H
           | H : _ <-> _ |- _ => destruct H
           end;
    try discriminate; try reflexivity; try congruence; auto.
Qed.

(* ------------------------------------------------------------------ *)
(** ** Resolving the previous revision, and what invalidates it *)

Section Memo.

Variable cwd : str.
Variables E W : Type.
Variable resolveReference : GitCommitOps.ResolveRequest -> W -> (E + str) * W.
Variable previousFileSha : GitCommit.t -> str.

Local Abbreviation request := (requestOf cwd previousFileSha).

Lemma resolve_cached (h : GitCommitOps.Heap W) (v : str) :
  GitCommit._resolvedPreviousFileSha (GitCommitOps.this h) = Some v ->
  GitCommitOps.resolvePreviousFileSha cwd resolveReference previousFileSha h = (inr tt, h).
Proof.
  intros H. unfold GitCommitOps.resolvePreviousFileSha, GitCommitOps.bind, GitCommitOps.getThis.
  now rewrite H.
Qed.

Lemma resolve_uncached (h : GitCommitOps.Heap W) :
  GitCommit._resolvedPreviousFileSha (GitCommitOps.this h) = None ->
  GitCommitOps.resolvePreviousFileSha cwd resolveReference previousFileSha h
  = match resolveReference (request (GitCommitOps.this h)) (GitCommitOps.world h) with
    | (inr v, w) =>
        (inr tt,
         {| GitCommitOps.this :=
              GitCommit.set_resolvedPreviousFileSha (Some v) (GitCommitOps.this h);
            GitCommitOps.world := w;
            GitCommitOps.calls := GitCommitOps.calls h ++ [request (GitCommitOps.this h)] |})
    | (inl e, w) =>
        (inl (GitCommitOps.Rejected e),
         {| GitCommitOps.this := GitCommitOps.this h;
            GitCommitOps.world := w;
            GitCommitOps.calls := GitCommitOps.calls h ++ [request (GitCommitOps.this h)] |})
    end.
Proof.
  intros H. unfold GitCommitOps.resolvePreviousFileSha, GitCommitOps.bind, GitCommitOps.getThis.
  rewrite H. unfold requestOf.
  destruct (previousUri_total cwd (GitCommitOps.this h)) as [pu Hpu]. rewrite Hpu.
  destruct (Str.truthy (GitCommit.fileName (GitCommitOps.this h)));
    simpl; unfold GitCommitOps.await_resolveReference; simpl;
    destruct (resolveReference _ (GitCommitOps.world h)) as [[e|v] w]; reflexivity.
Qed.

(** C6: once a value is cached, [resolvePreviousFileSha] does nothing (no
    call to the resolver, heap unchanged).  With an empty cache it calls
    the resolver once; a result is cached, so the next call does nothing;
    a rejection propagates to the caller and leaves the commit as it was,
    cache empty, so the next call asks the resolver again. *)
Theorem resolvePreviousFileSha_memoizes (h : GitCommitOps.Heap W) :
  let run := GitCommitOps.resolvePreviousFileSha cwd resolveReference previousFileSha in
  let req := request (GitCommitOps.this h) in
  (forall v, GitCommit._resolvedPreviousFileSha (GitCommitOps.this h) = Some v ->
             run h = (inr tt, h))
  /\ (GitCommit._resolvedPreviousFileSha (GitCommitOps.this h) = None ->
      GitCommitOps.calls (snd (run h)) = GitCommitOps.calls h ++ [req]
      /\ (forall v w, resolveReference req (GitCommitOps.world h) = (inr v, w) ->
            fst (run h) = inr tt
            /\ GitCommit._resolvedPreviousFileSha (GitCommitOps.this (snd (run h))) = Some v
            /\ run (snd (run h)) = (inr tt, snd (run h)))
      /\ (forall e w, resolveReference req (GitCommitOps.world h) = (inl e, w) ->
            fst (run h) = inl (GitCommitOps.Rejected e)
            /\ GitCommitOps.this (snd (run h)) = GitCommitOps.this h
            /\ GitCommit._resolvedPreviousFileSha (GitCommitOps.this (snd (run h))) = None
            /\ GitCommitOps.calls (snd (run (snd (run h))))
               = GitCommitOps.calls h ++ [req; req])).
Proof.
  intros run req. split.
  - intros v Hv. now apply resolve_cached with (v := v).
  - intros Hnone. unfold run. rewrite (resolve_uncached h Hnone). fold req.
    destruct (resolveReference req (GitCommitOps.world h)) as [[e|v] w] eqn:Er.
    + split; [reflexivity|]. split; [intros v' w' Hv'; discriminate|].
      intros e' w' He'. injection He' as <- <-. simpl.
      repeat split; try assumption.
      rewrite resolve_uncached by exact Hnone. simpl. fold req.
      destruct (resolveReference req w) as [[e2|v2] w2]; simpl;
        now rewrite <- app_assoc.
    + split; [reflexivity|]. split; [|intros e' w' He'; discriminate].
      intros v' w' Hv'. injection Hv' as <- <-. simpl.
      repeat split.
Qed.

(** C7: if a resolved value is cached and [previousSha] is assigned a value
    other than the stored one, the cache is emptied, and the next
    [resolvePreviousFileSha] calls the resolver, for the new value, and
    caches its answer in place of the old one. *)
Theorem previousSha_assignment_invalidates
    (h : GitCommitOps.Heap W) (stale : str) (value : option str) :
  GitCommit._resolvedPreviousFileSha (GitCommitOps.this h) = Some stale ->
  value <> GitCommit._previousSha (GitCommitOps.this h) ->
  let h1 := snd (GitCommitOps.assign_previousSha E value h) in
  let run := GitCommitOps.resolvePreviousFileSha cwd resolveReference previousFileSha in
  let req := request (GitCommitOps.this h1) in
  GitCommit.previousSha (GitCommitOps.this h1) = value
  /\ GitCommit._resolvedPreviousFileSha (GitCommitOps.this h1) = None
  /\ GitCommitOps.calls (snd (run h1)) = GitCommitOps.calls h ++ [req]
  /\ GitCommit._resolvedPreviousFileSha (GitCommitOps.this (snd (run h1)))
     = match fst (resolveReference req (GitCommitOps.world h)) with
       | inr fresh => Some fresh
       | inl _ => None
       end.
Proof.
  intros Hc Hneq h1 run req.
  assert (Hset : GitCommitOps.this h1
                 = GitCommit.assign (GitCommitOps.this h) value
                     (GitCommit._isStagedUncommitted (GitCommitOps.this h))
                     (GitCommit._isUncommitted (GitCommitOps.this h))
                     (GitCommit._shortSha (GitCommitOps.this h)) None).
  { unfold h1, GitCommitOps.assign_previousSha, GitCommitOps.modifyThis. simpl.
    unfold GitCommit.set_previousSha.
    destruct (Str.opt_eqb value (GitCommit._previousSha (GitCommitOps.this h))) eqn:Eq;
      [|reflexivity].
    apply opt_eqb_eq in Eq. contradiction. }
  assert (Hnone : GitCommit._resolvedPreviousFileSha (GitCommitOps.this h1) = None)
    by now rewrite Hset.
  split; [now rewrite Hset|]. split; [exact Hnone|].
  unfold run. rewrite (resolve_uncached h1 Hnone). fold req.
  change (GitCommitOps.world h1) with (GitCommitOps.world h).
  change (GitCommitOps.calls h1) with (GitCommitOps.calls h).
  destruct (resolveReference req (GitCommitOps.world h)) as [[e|v] w]; simpl.
  - split; [reflexivity|exact Hnone].
  - split; reflexivity.
Qed.

End Memo.

(** On the sample heap the commit has ["0123abc"] cached; assigning
    ["fedcba9"] empties the cache and the next resolution asks the backend
    for the new id. *)
Lemma previousSha_assignment_invalidates_witness :
  let h1 := snd (GitCommitOps.assign_previousSha unit (Some ("fedcba9" : str)) sampleHeap) in
  let run := GitCommitOps.resolvePreviousFileSha "/home/u" echoBackend samplePreviousFileSha in
  GitCommit._resolvedPreviousFileSha (GitCommitOps.this sampleHeap) = Some ("0123abc" : str)
  /\ Some ("fedcba9" : str) <> GitCommit._previousSha (GitCommitOps.this sampleHeap)
  /\ GitCommit._resolvedPreviousFileSha (GitCommitOps.this h1) = None
  /\ List.length (GitCommitOps.calls (snd (run h1))) = 1
  /\ GitCommit._resolvedPreviousFileSha (GitCommitOps.this (snd (run h1)))
     = Some ("fedcba9^" : str).
Proof.
  intros h1 run.
  assert (Hneq : Some ("fedcba9" : str)
                 <> GitCommit._previousSha (GitCommitOps.this sampleHeap))
    by discriminate.
  destruct (previousSha_assignment_invalidates "/home/u" unit nat echoBackend
              samplePreviousFileSha sampleHeap "0123abc" (Some ("fedcba9" : str))
              eq_refl Hneq)
    as (_ & Hnone & Hcalls & Hfresh).
  split; [reflexivity|]. split; [exact Hneq|]. split; [exact Hnone|]. split.
  - fold h1 in Hcalls. fold run in Hcalls. rewrite Hcalls. reflexivity.
  - exact Hfresh.
Defined.

(** On the sample commit with the failing backend the rejection reaches
    the caller, the cache stays empty, and a second call asks the backend
    again. *)
Example resolve_failure_retries :
  let h0 := {| GitCommitOps.this := renamedCommit; GitCommitOps.world := 0;
               GitCommitOps.calls := [] |} in
  let run := GitCommitOps.resolvePreviousFileSha "/home/u" failingBackend samplePreviousFileSha in
  fst (run h0) = inl (GitCommitOps.Rejected tt)
  /\ GitCommit._resolvedPreviousFileSha (GitCommitOps.this (snd (run h0))) = None
  /\ GitCommitOps.world (snd (run (snd (run h0)))) = 2.
Proof. repeat split. Qed.

(** C10: assigning to [previousSha] the value it already has changes
    nothing: the commit, and with it the field and the cached resolved
    value, are as before, and a resolution that was cached still answers
    without calling the resolver. *)
Theorem previousSha_same_value_is_noop
    (cwd : str) (E W : Type)
    (resolveReference : GitCommitOps.ResolveRequest -> W -> (E + str) * W)
    (previousFileSha : GitCommit.t -> str)
    (c : GitCommit.t) (h : GitCommitOps.Heap W) :
  GitCommit.set_previousSha (GitCommit.previousSha c) c = c
  /\ GitCommitOps.assign_previousSha E (GitCommit.previousSha (GitCommitOps.this h)) h
     = (inr tt, h)
  /\ (forall v, GitCommit._resolvedPreviousFileSha (GitCommitOps.this h) = Some v ->
        let h1 := snd (GitCommitOps.assign_previousSha E
                         (GitCommit.previousSha (GitCommitOps.this h)) h) in
        GitCommit._resolvedPreviousFileSha (GitCommitOps.this h1) = Some v
        /\ GitCommitOps.resolvePreviousFileSha cwd resolveReference previousFileSha h1
           = (inr tt, h1)).
Proof.
  assert (Hc : forall c', GitCommit.set_previousSha (GitCommit.previousSha c') c' = c').
  { intros c'. unfold GitCommit.set_previousSha, GitCommit.previousSha.
    now rewrite opt_eqb_refl. }
  assert (Hh : GitCommitOps.assign_previousSha E (GitCommit.previousSha (GitCommitOps.this h)) h
               = (inr tt, h)).
  { unfold GitCommitOps.assign_previousSha, GitCommitOps.modifyThis.
    rewrite Hc. now destruct h. }
  split; [apply Hc|]. split; [exact Hh|].
  intros v Hv h1. unfold h1. rewrite Hh. simpl. split; [exact Hv|].
  now apply resolve_cached with (v := v).
Qed.

(* ------------------------------------------------------------------ *)
(** ** Copying with overrides *)

(** C8: [getChangedValue] keeps the original for an omitted change
    ([undefined]), gives no value for the clear sentinel ([null]), and
    gives the supplied value otherwise; it computes from its two arguments
    alone and leaves the commit it is called on, and the rest of the heap,
    as they were. *)
Theorem getChangedValue_cases (T E W : Type) (original : option T) (v : T)
    (h : GitCommitOps.Heap W) :
  GitCommit.getChangedValue GitCommit.Omitted original = original
  /\ GitCommit.getChangedValue GitCommit.Clear original = None
  /\ GitCommit.getChangedValue (GitCommit.SetTo v) original = Some v
  /\ (forall change : GitCommit.Change T,
        GitCommitOps.getChangedValue E W change original h
        = (inr (GitCommit.getChangedValue change original), h)).
Proof. repeat split. Qed.

(* ------------------------------------------------------------------ *)
(** ** Formatting a path *)

Lemma relative_same_resolved (cwd from to : str) :
  Path.resolve cwd [to] = Path.resolve cwd [from] -> Path.relative cwd from to = [].
Proof.
  intros H. unfold Path.relative.
  destruct (Str.eqb from to); [reflexivity|].
  now rewrite H, eqb_refl.
Qed.

Lemma app_tail_nil (a b : str) : a ++ b = a -> b = [].
Proof.
  intros H. apply (app_inv_head a). now rewrite app_nil_r.
Qed.

(** C9, as the code has it: [getFormattedPath] computes a directory:
    [dirname] of the path, made relative to [repoPath] when that is set
    and not empty, made relative to [relativeTo] when that is given, then
    normalized.  It returns the base name alone exactly when this
    directory is empty or ["."], and the base name, the separator and the
    directory otherwise.  For a file directly in the repository root the
    result is the base name alone when no [relativeTo] is given; when one
    is given, the empty directory is made relative to it once more, and
    the result is the base name alone exactly when that normalizes to the
    empty path or to ["."]. *)
Theorem getFormattedPath_cases
    (G : GitService) (cwd : str) (g : GitUri.t) (separator : str) (relativeTo : option str) :
  let inRepo :=
    match GitUri.repoPath g with
    | Some (c :: r) => Path.relative cwd (c :: r) (Path.dirname (GitUri.fsPath g))
    | _ => Path.dirname (GitUri.fsPath g)
    end in
  let directory :=
    normalizePath G
      match relativeTo with
      | Some rel => Path.relative cwd rel inRepo
      | None => inRepo
      end in
  let result := GitUri.getFormattedPath G cwd g separator relativeTo in
  (directory = [] \/ directory = "." -> result = Path.basename (GitUri.fsPath g))
  /\ (directory <> [] -> directory <> "." ->
      result = Path.basename (GitUri.fsPath g) ++ separator ++ directory)
  /\ (result = Path.basename (GitUri.fsPath g) <-> directory = [] \/ directory = ".")
  /\ (forall root : str,
        GitUri.repoPath g = Some root -> root <> [] -> relativeTo = None ->
        directChild cwd root (GitUri.fsPath g) ->
        normalizePath G [] = [] \/ normalizePath G [] = "." ->
        result = Path.basename (GitUri.fsPath g))
  /\ (forall root rel : str,
        GitUri.repoPath g = Some root -> root <> [] -> relativeTo = Some rel ->
        directChild cwd root (GitUri.fsPath g) ->
        (result = Path.basename (GitUri.fsPath g)
         <-> normalizePath G (Path.relative cwd rel []) = []
             \/ normalizePath G (Path.relative cwd rel []) = ".")).
Proof.
  intros inRepo directory result.
  assert (Hres : result
                 = if negb (Str.truthy directory) || Str.eqb directory "."
                   then Path.basename (GitUri.fsPath g)
                   else Path.basename (GitUri.fsPath g) ++ separator ++ directory)
    by reflexivity.
  assert (Hbare : directory = [] \/ directory = "." ->
                  result = Path.basename (GitUri.fsPath g)).
  { intros [H|H]; rewrite Hres, H; [reflexivity|].
    now rewrite eqb_refl, orb_true_r. }
  assert (Hfull : directory <> [] -> directory <> "." ->
                  result = Path.basename (GitUri.fsPath g) ++ separator ++ directory).
  { intros H0 H1. rewrite Hres. apply eqb_neq in H1. rewrite H1.
    destruct directory; [contradiction|reflexivity]. }
  assert (Hiff : result = Path.basename (GitUri.fsPath g)
                 <-> directory = [] \/ directory = ".").
  { split; [|exact Hbare]. intros H.
    destruct (Str.eqb directory []) eqn:E0; [left; now apply eqb_eq|].
    destruct (Str.eqb directory ".") eqn:E1; [right; now apply eqb_eq|].
    apply eqb_neq in E0, E1. rewrite (Hfull E0 E1) in H.
    apply app_tail_nil in H. apply app_eq_nil in H. destruct H as [_ H]. contradiction. }
  split; [exact Hbare|]. split; [exact Hfull|]. split; [exact Hiff|]. split.
  - intros root Hroot Hne -> Hchild Hnorm. apply Hbare.
    unfold directory, inRepo. rewrite Hroot.
    destruct root as [|c r]; [contradiction|].
    now rewrite (relative_same_resolved cwd (c :: r) _ Hchild).
  - intros root rel Hroot Hne Hrel Hchild.
    assert (Hdir : directory = normalizePath G (Path.relative cwd rel [])).
    { unfold directory, inRepo. rewrite Hroot, Hrel.
      destruct root as [|c r]; [contradiction|].
      now rewrite (relative_same_resolved cwd (c :: r) _ Hchild). }
    rewrite <- Hdir. exact Hiff.
Qed.

(** C9, as stated, fails: the file [/repo/a.ts] lies directly in the
    repository [/repo]; with [relativeTo] given as the directory [src] the
    empty directory is made relative to it, and the result is the base
    name, the separator and [..], not the base name alone. *)
Lemma direct_child_with_relativeTo_keeps_a_directory :
  let g := {| GitUri.uri := fileLocator "/repo/a.ts";
              GitUri.repoPath := Some ("/repo" : str); GitUri.sha := None |} in
  directChild "/home/u" "/repo" (GitUri.fsPath g)
  /\ Path.basename (GitUri.fsPath g) = "a.ts" :> str
  /\ GitUri.getFormattedPath sampleGit "/home/u" g " in " (Some ("src" : str))
     = "a.ts in .." :> str
  /\ GitUri.getFormattedPath sampleGit "/home/u" g " in " (Some ("src" : str))
     <> Path.basename (GitUri.fsPath g).
Proof.
  intros g. split; [reflexivity|]. split; [reflexivity|].
  split; [vm_compute; reflexivity|]. vm_compute. discriminate.
Qed.

(** A file directly in the repository root, and one in a subdirectory of
    it. *)
Example getFormattedPath_samples :
  option_map (fun g => GitUri.getFormattedPath sampleGit "/home/u" g " in " None)
    (GitUri.new sampleGit "/home/u" "gitlens-git" (Some (Uri.file "/repo/a.ts"))
       (GitUri.RepoPath "/repo"))
  = Some ("a.ts" : str)
  /\ option_map (fun g => GitUri.getFormattedPath sampleGit "/home/u" g " in " None)
       (GitUri.new sampleGit "/home/u" "gitlens-git" (Some (Uri.file "/repo/src/git/a.ts"))
          (GitUri.RepoPath "/repo"))
     = Some ("a.ts in src/git" : str)
  /\ directChild "/home/u" "/repo" "/repo/a.ts".
Proof. repeat split. Qed.

(** With [relativeTo] given the directory is made relative a second time,
    an empty directory being read as the working directory. *)
Example getFormattedPath_relativeTo_sample :
  option_map (fun g => GitUri.getFormattedPath sampleGit "/home/u" g " in " (Some ("/home" : str)))
    (GitUri.new sampleGit "/home/u" "gitlens-git" (Some (Uri.file "/repo/a.ts"))
       (GitUri.RepoPath "/repo"))
  = Some ("a.ts in u" : str)
  /\ option_map (fun g => GitUri.getFormattedPath sampleGit "/home/u" g " in " (Some ("/repo" : str)))
       (GitUri.new sampleGit "/home/u" "gitlens-git" (Some (Uri.file "/repo/src/a.ts"))
          (GitUri.RepoPath "/repo"))
     = Some ("a.ts in ../home/u/src" : str).
Proof. split; vm_compute; reflexivity. Qed.

(* ================================================================== *)
(** * Further properties: locators of files *)
(* ================================================================== *)

Module FileLocators.

(** [Uri.file] of a path that does not start with two separators: the
    path, with a leading separator. *)
Lemma file_rooted (p : str) :
  doubleSlash p = false -> Uri.file p = fileLocator (Uri.rooted p).
Proof.
  destruct p as [|a [|b r]]; try reflexivity.
  unfold doubleSlash, Uri.file, Path.isSep. now intros ->.
Qed.

(** [Uri.file] leaves an absolute path alone unless it starts with two
    separators. *)
Lemma file_plain (p : str) :
  Path.isAbsolute p = true -> doubleSlash p = false -> Uri.file p = fileLocator p.
Proof.
  intros Ha Hd. rewrite (file_rooted p Hd). unfold Uri.rooted. now rewrite Ha.
Qed.

(** [fsPath] is the path unless there is an authority or a drive. *)
Lemma fsPath_plain (u : Uri.t) :
  Uri.authority u = [] -> driveLetter (Uri.path u) = false -> Uri.fsPath u = Uri.path u.
Proof.
  intros Ha Hd. unfold Uri.fsPath. rewrite Ha. cbn [Str.truthy andb].
  destruct (Uri.path u) as [|a [|c [|d r]]]; try reflexivity.
  - each_char a; reflexivity.
  - each_char a; reflexivity.
  - unfold driveLetter in Hd.
    each_char a; try reflexivity; each_char d; try reflexivity.
    cbn [Ascii.eqb Bool.eqb andb] in Hd. rewrite andb_true_r in Hd.
    cbv iota beta. rewrite Hd. reflexivity.
Qed.

Lemma doubleSlash_absolutePath (xs : list str) :
  Forall normalSeg xs -> doubleSlash (absolutePath xs) = false.
Proof.
  intros H. unfold absolutePath. destruct xs as [|x xs]; [reflexivity|].
  inversion H as [|? ? Hx _]; subst.
  destruct (join_head "/" x xs (normalSeg_nonempty x Hx)) as (a & r & -> & ->).
  apply normalSeg_free in Hx. unfold Str.free in Hx. simpl in Hx.
  apply andb_true_iff in Hx. destruct Hx as [Hx _].
  simpl. now apply negb_true_iff in Hx.
Qed.

Section WithCwd.

Variable cwd : str.

Lemma resolve_onto_absolute (root : str) (xs : list str) :
  Forall normalSeg xs -> Path.resolve cwd [root; absolutePath xs] = absolutePath xs.
Proof.
  intros H. rewrite resolve_absolute_2_abs by reflexivity.
  unfold absolutePath. now rewrite normalizeSegs_of_normal.
Qed.

Lemma resolve_twice (root : str) :
  Path.isAbsolute root = true -> Path.resolve cwd [root; root] = Path.resolve cwd [root].
Proof.
  intros H. rewrite resolve_absolute_2_abs by assumption.
  now rewrite resolve_absolute_1.
Qed.

End WithCwd.

Section WithEnv.

Variable G : GitService.
Variable cwd : str.
Variable GitLensGit : str.
Hypothesis file_is_other : Str.eqb "file" GitLensGit = false.

(** The constructor on a file locator and a repository path. *)
Lemma new_file_repoPath (p root : str) :
  GitUri.new G cwd GitLensGit (Some (Uri.file p)) (GitUri.RepoPath root)
  = Some {| GitUri.uri := Uri.file p; GitUri.repoPath := Some root; GitUri.sha := None |}.
Proof.
  unfold GitUri.new.
  assert (Hs : Uri.scheme (Uri.file p) = "file").
  { destruct p as [|a [|b r]]; try reflexivity.
    unfold Uri.file. destruct (Path.isSep a && Path.isSep b); [|reflexivity].
    now destruct (Str.span _ r). }
  rewrite Hs, file_is_other. reflexivity.
Qed.

(** The constructor on the file locator of a resolved path and a commit:
    the path is kept when the commit names the file the path was resolved
    from, or names none and the path shows no drive. *)
Lemma new_file_commit (root f : str) (name sha : option str) :
  Path.isAbsolute root = true ->
  (name = Some f /\ f <> [])
  \/ (Str.opt_truthy name = false /\ driveLetter (Path.resolve cwd [root; f]) = false) ->
  Uri.file (Path.resolve cwd [root; f]) = fileLocator (Path.resolve cwd [root; f])
  /\ GitUri.new G cwd GitLensGit (Some (Uri.file (Path.resolve cwd [root; f])))
       (GitUri.Commit {| GitUri.infoFileName := name; GitUri.infoRepoPath := root;
                         GitUri.infoSha := sha |})
     = Some {| GitUri.uri := fileLocator (Path.resolve cwd [root; f]);
               GitUri.repoPath := Some root;
               GitUri.sha := GitUri.keptSha G sha |}.
Proof.
  intros Habs Hname.
  destruct (resolve_absolute_form cwd root f Habs) as (xs & Nxs & EX).
  assert (Hfile : Uri.file (Path.resolve cwd [root; f]) = fileLocator (Path.resolve cwd [root; f])).
  { apply file_plain; rewrite EX; [reflexivity|now apply doubleSlash_absolutePath]. }
  split; [exact Hfile|]. rewrite Hfile.
  unfold GitUri.new. cbn [Uri.scheme fileLocator]. rewrite file_is_other.
  cbn [GitUri.infoFileName GitUri.infoRepoPath GitUri.infoSha].
  destruct Hname as [[-> Hf]|[Hn Hd]].
  - destruct f as [|c r]; [contradiction|]. reflexivity.
  - assert (Hor : orElse name (Some (Uri.fsPath (fileLocator (Path.resolve cwd [root; f]))))
                  = Some (Path.resolve cwd [root; f])).
    { unfold orElse. rewrite Hn. f_equal. now apply fsPath_plain. }
    rewrite Hor. rewrite EX at 2. rewrite resolve_onto_absolute by assumption.
    now rewrite <- EX.
Qed.

End WithEnv.

End FileLocators.

(* ================================================================== *)
(** * Further properties: building a [GitUri] *)
(* ================================================================== *)

Import FileLocators.

(** X1: [fromFileStatus] addresses the file the status names, or the one it was
    renamed from when [original] is set and that name is recorded and not
    empty: the locator is the [file] locator of that name resolved against
    the repository, the repository is the one given.  Without a revision id
    the [sha] stays unset; with one it is kept under the constructor's
    guard. *)
Theorem fromFileStatus_addresses_file
    (G : GitService) (cwd GitLensGit repoPath : str) (status : IGitStatusFile)
    (original : bool) :
  Str.eqb "file" GitLensGit = false ->
  Path.isAbsolute repoPath = true ->
  exists name,
    (original = false \/ Str.opt_truthy (statusOriginalFileName status) = false ->
     name = statusFileName status)
    /\ (original = true -> Str.opt_truthy (statusOriginalFileName status) = true ->
        statusOriginalFileName status = Some name)
    /\ GitUri.fromFileStatus G cwd GitLensGit status repoPath None original
       = Some {| GitUri.uri := fileLocator (Path.resolve cwd [repoPath; name]);
                 GitUri.repoPath := Some repoPath;
                 GitUri.sha := None |}
    /\ (forall sha,
          driveLetter (Path.resolve cwd [repoPath; name]) = false ->
          GitUri.fromFileStatus G cwd GitLensGit status repoPath (Some sha) original
          = Some {| GitUri.uri := fileLocator (Path.resolve cwd [repoPath; name]);
                    GitUri.repoPath := Some repoPath;
                    GitUri.sha := if isStagedUncommitted G (Some sha)
                                     || negb (isUncommitted G (Some sha))
                                  then Some sha else None |}).
Proof.
  intros HL Habs.
  exists (match (if original then statusOriginalFileName status else None) with
          | Some (c :: r) => c :: r
          | _ => statusFileName status
          end).
  split; [|split; [|split]].
  - intros [->|H]; [reflexivity|].
    destruct original; [|reflexivity].
    destruct (statusOriginalFileName status) as [[|c r]|]; try reflexivity; discriminate H.
  - intros -> H.
    destruct (statusOriginalFileName status) as [[|c r]|]; try discriminate H; reflexivity.
  - unfold GitUri.fromFileStatus.
    rewrite (new_file_repoPath G cwd GitLensGit HL).
    destruct (resolve_absolute_form cwd repoPath
                (match (if original then statusOriginalFileName status else None) with
                 | Some (c :: r) => c :: r
                 | _ => statusFileName status
                 end) Habs) as (xs & Nxs & EX).
    rewrite file_plain; [reflexivity| |];
      rewrite EX; [reflexivity|now apply doubleSlash_absolutePath].
  - intros sha Hd. unfold GitUri.fromFileStatus.
    now apply new_file_commit; [| |right].
Qed.

(** On the sample status, renamed from [old.ts], with the reference
    helpers. *)
Lemma fromFileStatus_addresses_file_witness :
  Str.eqb "file" "gitlens-git" = false
  /\ Path.isAbsolute "/repo" = true
  /\ GitUri.fromFileStatus sampleGit "/home/u" "gitlens-git"
       {| statusFileName := "src/new.ts"; statusOriginalFileName := Some ("src/old.ts" : str) |}
       "/repo" (Some sampleSha) true
     = Some {| GitUri.uri := fileLocator "/repo/src/old.ts";
               GitUri.repoPath := Some ("/repo" : str);
               GitUri.sha := Some sampleSha |}.
Proof.
  split; [reflexivity|]. split; [reflexivity|].
  destruct (fromFileStatus_addresses_file sampleGit "/home/u" "gitlens-git" "/repo"
              {| statusFileName := "src/new.ts";
                 statusOriginalFileName := Some ("src/old.ts" : str) |}
              true eq_refl eq_refl) as (name & _ & Hname & _ & Hsha).
  specialize (Hname eq_refl eq_refl). injection Hname as <-.
  exact (Hsha sampleSha eq_refl).
Defined.

(** X2: [fromRepoPath] without a reference keeps the repository path as it is
    written; with a reference the constructor resolves it, so the locator's
    path is the normal form of the repository path, and the reference is
    kept under the constructor's guard. *)
Theorem fromRepoPath_with_and_without_ref
    (G : GitService) (cwd GitLensGit repoPath : str) :
  Str.eqb "file" GitLensGit = false ->
  GitUri.fromRepoPath G cwd GitLensGit repoPath None
  = Some {| GitUri.uri := Uri.file repoPath; GitUri.repoPath := Some repoPath;
            GitUri.sha := None |}
  /\ (forall ref,
        Path.isAbsolute repoPath = true ->
        doubleSlash repoPath = false -> driveLetter repoPath = false ->
        GitUri.fromRepoPath G cwd GitLensGit repoPath (Some ref)
        = Some {| GitUri.uri := fileLocator (Path.resolve cwd [repoPath]);
                  GitUri.repoPath := Some repoPath;
                  GitUri.sha := if isStagedUncommitted G (Some ref)
                                   || negb (isUncommitted G (Some ref))
                                then Some ref else None |}).
Proof.
  intros HL. split.
  - unfold GitUri.fromRepoPath. now apply new_file_repoPath.
  - intros ref Habs Hds Hdl. unfold GitUri.fromRepoPath.
    rewrite (file_plain repoPath Habs Hds).
    unfold GitUri.new. cbn [Uri.scheme fileLocator]. rewrite HL.
    cbn [GitUri.infoFileName GitUri.infoRepoPath GitUri.infoSha orElse Str.opt_truthy].
    rewrite (fsPath_plain (fileLocator repoPath) eq_refl Hdl).
    cbn [Uri.path fileLocator]. rewrite resolve_twice by assumption. reflexivity.
Qed.

(** A repository path written with a trailing separator: kept without a
    reference, resolved with one.  One written without a leading
    separator: [Uri.file] gives it one, and the repository path stays as
    written. *)
Lemma fromRepoPath_with_and_without_ref_witness :
  Str.eqb "file" "gitlens-git" = false
  /\ option_map GitUri.path (GitUri.fromRepoPath sampleGit "/home/u" "gitlens-git" "/repo/" None)
     = Some ("/repo/" : str)
  /\ option_map GitUri.path
       (GitUri.fromRepoPath sampleGit "/home/u" "gitlens-git" "/repo/" (Some sampleSha))
     = Some ("/repo" : str)
  /\ GitUri.fromRepoPath sampleGit "/home/u" "gitlens-git" "repo" None
     = Some {| GitUri.uri := fileLocator "/repo"; GitUri.repoPath := Some ("repo" : str);
               GitUri.sha := None |}.
Proof.
  split; [reflexivity|].
  destruct (fromRepoPath_with_and_without_ref sampleGit "/home/u" "gitlens-git" "/repo/" eq_refl)
    as [H0 H1].
  split; [|split].
  - rewrite H0. reflexivity.
  - rewrite (H1 sampleSha eq_refl eq_refl eq_refl). reflexivity.
  - destruct (fromRepoPath_with_and_without_ref sampleGit "/home/u" "gitlens-git" "repo"
                eq_refl) as [H _].
    rewrite H. reflexivity.
Defined.

(** X3: [toGitUri] of a commit is a [GitUri] with the commit's own locator, its
    repository and its id under the constructor's guard; for the previous
    revision it has the locator [previousUri] gives and the previous id, if
    any. *)
Theorem toGitUri_addresses_commit
    (G : GitService) (cwd GitLensGit : str) (c : GitCommit.t) :
  Str.eqb "file" GitLensGit = false ->
  Path.isAbsolute (GitCommit.repoPath c) = true ->
  (driveLetter (Path.resolve cwd [GitCommit.repoPath c; GitCommit.fileName c]) = false ->
   GitCommitOps.toGitUri G cwd GitLensGit c false
   = Some {| GitUri.uri := GitCommit.uri cwd c;
             GitUri.repoPath := Some (GitCommit.repoPath c);
             GitUri.sha := GitUri.keptSha G (Some (GitCommit.sha c)) |})
  /\ (forall pu,
        GitCommit.previousUri cwd c = Some pu ->
        driveLetter (Uri.path pu) = false ->
        GitCommitOps.toGitUri G cwd GitLensGit c true
        = Some {| GitUri.uri := pu;
                  GitUri.repoPath := Some (GitCommit.repoPath c);
                  GitUri.sha := GitUri.keptSha G (GitCommit.previousSha c) |}).
Proof.
  intros HL Habs. split.
  - intros Hd. unfold GitCommitOps.toGitUri, GitUri.fromCommit, GitCommit.uri.
    cbn [negb].
    destruct (new_file_commit G cwd GitLensGit HL (GitCommit.repoPath c) (GitCommit.fileName c)
                (Some (GitCommit.fileName c)) (Some (GitCommit.sha c)) Habs) as [Hf Hn].
    + destruct (GitCommit.fileName c) as [|x r] eqn:Ef.
      * right. split; [reflexivity|exact Hd].
      * left. split; [reflexivity|discriminate].
    + rewrite Hn. now rewrite Hf.
  - intros pu Hpu Hd. unfold GitCommitOps.toGitUri, GitUri.fromCommit. cbn [negb].
    rewrite Hpu.
    assert (Hshape : exists f, pu = Uri.file (Path.resolve cwd [GitCommit.repoPath c; f])).
    { unfold GitCommit.previousUri in Hpu.
      destruct (Str.opt_truthy (GitCommit.previousFileName c)).
      - destruct (orElse _ _) as [f|]; [|discriminate].
        injection Hpu as <-. now exists f.
      - injection Hpu as <-. now exists (GitCommit.fileName c). }
    destruct Hshape as [f ->].
    destruct (resolve_absolute_form cwd (GitCommit.repoPath c) f Habs) as (xs & Nxs & EX).
    assert (Hfile : Uri.file (Path.resolve cwd [GitCommit.repoPath c; f])
                    = fileLocator (Path.resolve cwd [GitCommit.repoPath c; f])).
    { apply file_plain; rewrite EX; [reflexivity|now apply doubleSlash_absolutePath]. }
    rewrite Hfile in Hd. cbn [Uri.path fileLocator] in Hd.
    destruct (new_file_commit G cwd GitLensGit HL (GitCommit.repoPath c) f
                None (GitCommit.previousSha c) Habs) as [_ Hn].
    + right. split; [reflexivity|exact Hd].
    + rewrite Hn. now rewrite Hfile.
Qed.

(** On the renamed sample commit. *)
Lemma toGitUri_addresses_commit_witness :
  Str.eqb "file" "gitlens-git" = false
  /\ Path.isAbsolute (GitCommit.repoPath renamedCommit) = true
  /\ GitCommitOps.toGitUri sampleGit "/home/u" "gitlens-git" renamedCommit false
     = Some {| GitUri.uri := fileLocator "/repo/new.ts";
               GitUri.repoPath := Some ("/repo" : str);
               GitUri.sha := Some sampleSha |}.
Proof.
  split; [reflexivity|]. split; [reflexivity|].
  destruct (toGitUri_addresses_commit sampleGit "/home/u" "gitlens-git" renamedCommit
              eq_refl eq_refl) as [H _].
  exact (H eq_refl).
Defined.

(* ================================================================== *)
(** * Further properties: encoding a [GitUri] again *)
(* ================================================================== *)

Module Reencoding.

Import JSONFacts UriFacts.

Section WithEnv.

Variable G : GitService.
Variable cwd : str.
Variable GitLensGit : str.
Hypothesis scheme_ok : validScheme GitLensGit = true.

(** What [Uri.parse] makes of the encoder's text, whether or not there is
    a revision id to write. *)
Lemma encoded_parses (sha : option str) (fileName repoPath short : str) :
  Str.all pathSafe fileName = true ->
  Str.all pathSafe repoPath = true ->
  Str.all pathSafe (interpolate sha) = true ->
  Str.all pathSafe short = true ->
  Str.all pathSafe (normalizePath G (Path.relative cwd repoPath fileName)) = true ->
  let data := {| GitUri.dataSha := sha;
                 GitUri.dataFileName := normalizePath G (Path.relative cwd repoPath fileName);
                 GitUri.dataRepoPath := repoPath |} in
  let parsed := Path.parse fileName in
  exists a p,
    Uri.parse (GitLensGit ++ ":" ++ Path.join [Path.dir parsed; Path.name parsed]
                 ++ ":" ++ short ++ Path.ext parsed
                 ++ "?" ++ GitUri.stringifyRevisionData data)
    = Some {| Uri.scheme := GitLensGit; Uri.authority := a; Uri.path := p;
              Uri.query := GitUri.stringifyRevisionData data;
              Uri.fragment := [] |}.
Proof.
  intros Hf Hr Hs Hsh Hn data parsed.
  rewrite Codec.text_shape.
  unfold validScheme in scheme_ok. apply andb_true_iff in scheme_ok.
  destruct scheme_ok as [Lne Lok].
  destruct (PathChars.parse_ok pathSafe eq_refl eq_refl fileName Hf) as (Hd & Hnm & He).
  fold parsed in Hd, Hnm, He.
  assert (H1 : Str.all pathSafe
                 (Path.join [Path.dir parsed; Path.name parsed]
                    ++ ":"%char :: short ++ Path.ext parsed) = true).
  { apply PathChars.ok_app.
    - apply PathChars.pathJoin_ok; try reflexivity.
      repeat constructor; assumption.
    - change (carries pathSafe ([":"%char] ++ short ++ Path.ext parsed)).
      repeat apply PathChars.ok_app; try assumption. reflexivity. }
  assert (Hq : Str.all querySafe (GitUri.stringifyRevisionData data) = true).
  { apply stringify_safe. destruct sha as [s|]; simpl;
      repeat constructor; simpl; try reflexivity;
      eapply all_weaken; try apply Codec.pathSafe_query; assumption. }
  apply parse_locator; try assumption.
  - eapply all_weaken; [apply Codec.pathSafe_delims|exact H1].
  - eapply all_weaken; [apply Codec.pathSafe_percent|exact H1].
  - eapply all_weaken; [apply Codec.querySafe_hash|exact Hq].
  - eapply all_weaken; [apply Codec.querySafe_percent|exact Hq].
Qed.

(** Applying the constructor's guard twice is applying it once. *)
Lemma keptSha_idempotent (s : option str) :
  GitUri.keptSha G (GitUri.keptSha G s) = GitUri.keptSha G s.
Proof.
  unfold GitUri.keptSha.
  destruct (isStagedUncommitted G s || negb (isUncommitted G s)) eqn:E.
  - now rewrite E.
  - now destruct (isStagedUncommitted G None || negb (isUncommitted G None)).
Qed.

(** The [sha] of a constructed [GitUri] has passed the guard. *)
Lemma sha_of_new (u : option Uri.t) (arg : GitUri.CommitOrRepoPath) (g : GitUri.t) :
  GitUri.new G cwd GitLensGit u arg = Some g ->
  GitUri.keptSha G (GitUri.sha g) = GitUri.sha g.
Proof.
  assert (Hnone : GitUri.keptSha G None = None).
  { unfold GitUri.keptSha.
    now destruct (isStagedUncommitted G None || negb (isUncommitted G None)). }
  unfold GitUri.new. destruct u as [u|].
  - destruct (Str.eqb (Uri.scheme u) GitLensGit).
    + destruct (JSON.parse (Uri.query u)) as [obj|]; [|discriminate].
      destruct (Path.resolveAny cwd _) as [p|]; [|discriminate].
      intros H. injection H as <-. apply keptSha_idempotent.
    + destruct arg as [|r|c].
      * intros H. injection H as <-. exact Hnone.
      * intros H. injection H as <-. exact Hnone.
      * destruct (orElse _ _) as [f|]; [|discriminate].
        intros H. injection H as <-. apply keptSha_idempotent.
  - intros H. injection H as <-. exact Hnone.
Qed.

End WithEnv.

End Reencoding.

(** X4: Encoding a [GitUri] and decoding the result gives a [GitUri] with the
    same repository, with the file's path in resolved form, and with the
    revision id under the constructor's guard; so with the same id when
    the [GitUri] was itself built by the constructor. *)
Theorem toRevisionUri_of_GitUri_round_trip
    (G : GitService) (cwd GitLensGit : str) (g : GitUri.t) :
  validScheme GitLensGit = true ->
  reencodable G cwd g = true ->
  exists u g',
    GitUri.toRevisionUri G cwd GitLensGit (GitUri.FromGitUri g) = Some u
    /\ GitUri.new G cwd GitLensGit (Some u) GitUri.NoArgument = Some g'
    /\ GitUri.path g' = Path.resolve cwd [GitUri.fsPath g]
    /\ GitUri.repoPath g' = GitUri.repoPath g
    /\ GitUri.sha g' = GitUri.keptSha G (GitUri.sha g)
    /\ (forall u0 arg, GitUri.new G cwd GitLensGit u0 arg = Some g ->
                       GitUri.sha g' = GitUri.sha g).
Proof.
  intros HL Hre. unfold reencodable in Hre.
  destruct (GitUri.repoPath g) as [root|] eqn:Eroot; [|discriminate].
  apply andb_true_iff in Hre. destruct Hre as [Hre Hnorm].
  apply andb_true_iff in Hre. destruct Hre as [Hre Hshort].
  apply andb_true_iff in Hre. destruct Hre as [Hre Hsha].
  apply andb_true_iff in Hre. destruct Hre as [Hre Hfs].
  apply andb_true_iff in Hre. destruct Hre as [Hre Hroot].
  apply andb_true_iff in Hre. destruct Hre as [Habs Hfabs].
  cbv zeta in Hnorm. apply eqb_eq in Hnorm.
  assert (Hr : Str.all pathSafe
                 (normalizePath G (Path.relative cwd root (GitUri.fsPath g))) = true).
  { rewrite Hnorm. apply PathChars.relative_ok; auto. }
  destruct (Reencoding.encoded_parses G cwd GitLensGit HL (GitUri.sha g) (GitUri.fsPath g) root
              (interpolate (GitUri.shortSha G g)) Hfs Hroot Hsha Hshort Hr)
    as (a & p & Hparse).
  eexists. eexists. split; [|split; [|split; [|split; [|split]]]].
  - unfold GitUri.toRevisionUri, GitUri.toRevisionUriText. rewrite Eroot. exact Hparse.
  - apply Codec.new_of_encoded.
  - unfold GitUri.path. simpl. rewrite Hnorm. now apply resolve_relative.
  - reflexivity.
  - reflexivity.
  - intros u0 arg Hnew. simpl.
    now apply (Reencoding.sha_of_new G cwd GitLensGit u0 arg).
Qed.

(** Decoding the staged sample locator gives a [GitUri] that can be
    encoded again; decoding that gives the same path, repository and id. *)
Lemma toRevisionUri_of_GitUri_round_trip_witness :
  exists g u g',
    GitUri.new sampleGit "/home/u" "gitlens-git" (Some stagedLocator) GitUri.NoArgument = Some g
    /\ validScheme "gitlens-git" = true
    /\ reencodable sampleGit "/home/u" g = true
    /\ GitUri.toRevisionUri sampleGit "/home/u" "gitlens-git" (GitUri.FromGitUri g) = Some u
    /\ GitUri.new sampleGit "/home/u" "gitlens-git" (Some u) GitUri.NoArgument = Some g'
    /\ GitUri.path g' = GitUri.path g
    /\ GitUri.repoPath g' = GitUri.repoPath g
    /\ GitUri.sha g' = GitUri.sha g.
Proof.
  destruct (GitUri.new sampleGit "/home/u" "gitlens-git" (Some stagedLocator) GitUri.NoArgument)
    as [g|] eqn:Eg; [|discriminate Eg].
  assert (Hre : reencodable sampleGit "/home/u" g = true).
  { injection Eg as <-. reflexivity. }
  assert (Hpath : Path.resolve "/home/u" [GitUri.fsPath g] = GitUri.path g).
  { injection Eg as <-. reflexivity. }
  destruct (toRevisionUri_of_GitUri_round_trip sampleGit "/home/u" "gitlens-git" g eq_refl Hre)
    as (u & g' & Hu & Hg' & Hp & Hr & _ & Hs).
  exists g, u, g'. repeat split; try assumption.
  - now rewrite Hp.
  - exact (Hs _ _ Eg).
Defined.

(** X5: Two well-formed triples that [toRevisionUri] encodes to the same
    locator have the same repository root, the same revision id and the
    same resolved file. *)
Theorem toRevisionUri_injective
    (G : GitService) (cwd GitLensGit : str)
    (root root' sha sha' : str) (status status' : IGitStatusFile) :
  validScheme GitLensGit = true ->
  wellFormed G cwd root (statusFileName status) sha = true ->
  wellFormed G cwd root' (statusFileName status') sha' = true ->
  GitUri.toRevisionUri G cwd GitLensGit (GitUri.FromStatus sha status root)
  = GitUri.toRevisionUri G cwd GitLensGit (GitUri.FromStatus sha' status' root') ->
  root = root' /\ sha = sha'
  /\ Path.resolve cwd [root; statusFileName status]
     = Path.resolve cwd [root'; statusFileName status'].
Proof.
  intros HL Hwf Hwf' Heq.
  assert (Hshape : forall r s st,
    wellFormed G cwd r (statusFileName st) s = true ->
    let X := Path.resolve cwd [r; statusFileName st] in
    Path.isAbsolute r = true
    /\ Path.resolve cwd [X] = X
    /\ exists a p q,
         GitUri.toRevisionUri G cwd GitLensGit (GitUri.FromStatus s st r)
         = Some {| Uri.scheme := GitLensGit; Uri.authority := a; Uri.path := p;
                   Uri.query := q; Uri.fragment := [] |}
         /\ JSON.parse q
            = Some [("fileName" : str, JSON.VString (Path.relative cwd r X));
                    ("repoPath" : str, JSON.VString r);
                    ("sha" : str, JSON.VString s)]).
  { intros r s st H X. unfold wellFormed in H.
    apply andb_true_iff in H. destruct H as [H Hnorm].
    apply andb_true_iff in H. destruct H as [H Hshort].
    apply andb_true_iff in H. destruct H as [H Hsha].
    apply andb_true_iff in H. destruct H as [H Hrel].
    apply andb_true_iff in H. destruct H as [Habs Hroot].
    cbv zeta in Hnorm. apply eqb_eq in Hnorm. fold X in Hnorm.
    assert (HX : Str.all pathSafe X = true) by (apply PathChars.resolve_ok; auto).
    destruct (resolve_absolute_form cwd r (statusFileName st) Habs) as (xs & Nxs & EX).
    fold X in EX.
    assert (Xabs : Path.isAbsolute X = true) by now rewrite EX.
    assert (Hr : Str.all pathSafe (normalizePath G (Path.relative cwd r X)) = true).
    { rewrite Hnorm. apply PathChars.relative_ok; auto. }
    split; [exact Habs|]. split.
    { rewrite EX. now apply resolve_of_absolute. }
    destruct (Reencoding.encoded_parses G cwd GitLensGit HL (Some s) X r
                (shortenSha G s) HX Hroot Hsha Hshort Hr) as (a & p & Hparse).
    exists a, p. eexists. split; [exact Hparse|].
    unfold GitUri.stringifyRevisionData. rewrite JSONFacts.parse_stringify.
    simpl. unfold asValue. simpl. now rewrite Hnorm. }
  destruct (Hshape root sha status Hwf) as (Habs & HX & a & p & q & Hu & Hq).
  destruct (Hshape root' sha' status' Hwf') as (Habs' & HX' & a' & p' & q' & Hu' & Hq').
  rewrite Hu, Hu' in Heq. injection Heq as _ _ <-.
  rewrite Hq in Hq'. injection Hq' as Hfile Hroot Hsha.
  subst root' sha'. split; [reflexivity|]. split; [reflexivity|].
  rewrite <- HX, <- HX'.
  assert (Xabs : forall st, Path.isAbsolute (Path.resolve cwd [root; statusFileName st]) = true).
  { intros st. destruct (resolve_absolute_form cwd root (statusFileName st) Habs)
      as (xs & _ & ->). reflexivity. }
  rewrite <- (resolve_relative cwd root _ Habs (Xabs status)).
  rewrite <- (resolve_relative cwd root _ Habs (Xabs status')).
  now rewrite Hfile.
Qed.

(** Two names of one file give one locator, and the theorem applies; two
    ids with the same short form are told apart by the locator. *)
Lemma toRevisionUri_injective_witness :
  let dotted := {| statusFileName := "src/./a.ts"; statusOriginalFileName := None |} in
  validScheme "gitlens-git" = true
  /\ wellFormed sampleGit "/home/u" "/repo" (statusFileName sampleStatus) sampleSha = true
  /\ wellFormed sampleGit "/home/u" "/repo" (statusFileName dotted) sampleSha = true
  /\ GitUri.toRevisionUri sampleGit "/home/u" "gitlens-git"
       (GitUri.FromStatus sampleSha sampleStatus "/repo")
     = GitUri.toRevisionUri sampleGit "/home/u" "gitlens-git"
         (GitUri.FromStatus sampleSha dotted "/repo")
  /\ Path.resolve "/home/u" ["/repo" : str; statusFileName sampleStatus]
     = Path.resolve "/home/u" ["/repo" : str; statusFileName dotted]
  /\ shortenSha sampleGit sampleSha = shortenSha sampleGit ("deadbeef" : str)
  /\ GitUri.toRevisionUri sampleGit "/home/u" "gitlens-git"
       (GitUri.FromStatus sampleSha sampleStatus "/repo")
     <> GitUri.toRevisionUri sampleGit "/home/u" "gitlens-git"
          (GitUri.FromStatus "deadbeef" sampleStatus "/repo").
Proof.
  intros dotted.
  split; [reflexivity|]. split; [reflexivity|]. split; [reflexivity|].
  split; [reflexivity|]. split.
  - apply (toRevisionUri_injective sampleGit "/home/u" "gitlens-git" "/repo" "/repo"
             sampleSha sampleSha sampleStatus dotted); reflexivity.
  - split; [reflexivity|]. intros H.
    destruct (toRevisionUri_injective sampleGit "/home/u" "gitlens-git" "/repo" "/repo"
                sampleSha "deadbeef" sampleStatus sampleStatus eq_refl eq_refl eq_refl H)
      as (_ & Hsha & _).
    discriminate Hsha.
Defined.

(* ================================================================== *)
(** * Further properties: relative and formatted paths *)
(* ================================================================== *)

Module PathParts.

Lemma dropWhile_span (p : ascii -> bool) (s : str) :
  Str.dropWhile p s = snd (Str.span p s).
Proof.
  induction s as [|c r IH]; [reflexivity|]. simpl.
  destruct (p c); [|reflexivity]. rewrite IH. now destruct (Str.span p r).
Qed.

(** The reverse of a component: not empty, and its characters are no
    separators. *)
Lemma rev_component (b : str) :
  b <> [] -> Str.free "/" b = true ->
  exists x r, rev b = x :: r /\ Path.isSep x = false
              /\ Str.all (fun c => negb (Path.isSep c)) (x :: r) = true.
Proof.
  intros Hne Hfree.
  assert (H : Str.all (fun c => negb (Path.isSep c)) (rev b) = true)
    by (rewrite all_rev; exact Hfree).
  destruct (rev b) as [|x r] eqn:E.
  - apply (f_equal (@rev ascii)) in E. rewrite rev_involutive in E. contradiction.
  - exists x, r. split; [reflexivity|]. split; [|exact H].
    simpl in H. apply andb_true_iff in H. destruct H as [H _].
    now apply negb_true_iff in H.
Qed.

(** [dirname] and [basename] of a directory joined with a component. *)
Lemma dirname_joined (d b : str) :
  d <> [] -> d <> ["/"%char] -> b <> [] -> Str.free "/" b = true ->
  Path.dirname (d ++ "/"%char :: b) = d.
Proof.
  intros Hd Hroot Hb Hfree.
  destruct d as [|c0 dt]; [contradiction|].
  destruct (rev_component b Hb Hfree) as (x & r & Erev & Hx & Hall).
  unfold Path.dirname. cbn [app].
  rewrite rev_app_distr. cbn [rev]. rewrite Erev, <- app_assoc. cbn [app].
  cbn [Str.dropWhile]. rewrite Hx.
  rewrite dropWhile_span.
  change (x :: r ++ "/"%char :: rev dt) with ((x :: r) ++ "/"%char :: rev dt).
  rewrite (span_app_stop _ (x :: r) (rev dt) "/" Hall eq_refl). cbn [snd].
  destruct dt as [|y dt'].
  - cbn [rev]. destruct (Path.isSep c0) eqn:E0; [|reflexivity].
    exfalso. apply Hroot. unfold Path.isSep in E0.
    apply Ascii.eqb_eq in E0. now subst.
  - destruct (rev (y :: dt')) as [|z zs] eqn:E.
    + apply (f_equal (@rev ascii)) in E. rewrite rev_involutive in E. discriminate E.
    + rewrite <- E. now rewrite rev_involutive.
Qed.

Lemma basename_joined (d b : str) :
  b <> [] -> Str.free "/" b = true -> Path.basename (d ++ "/"%char :: b) = b.
Proof.
  intros Hb Hfree.
  destruct (rev_component b Hb Hfree) as (x & r & Erev & Hx & Hall).
  unfold Path.basename. rewrite rev_app_distr. cbn [rev].
  rewrite Erev, <- app_assoc. cbn [app Str.dropWhile]. rewrite Hx.
  unfold Str.takeWhile.
  change (x :: r ++ "/"%char :: rev d) with ((x :: r) ++ "/"%char :: rev d).
  rewrite (span_app_stop _ (x :: r) (rev d) "/" Hall eq_refl). cbn [fst].
  rewrite <- Erev. apply rev_involutive.
Qed.

(** [dirname] and [basename] of a single component. *)
Lemma dirname_component (b : str) :
  b <> [] -> Str.free "/" b = true -> Path.dirname b = Path.dot.
Proof.
  intros Hb Hfree. destruct b as [|c0 rest]; [contradiction|].
  unfold Str.free in Hfree. simpl in Hfree. apply andb_true_iff in Hfree.
  destruct Hfree as [H0 Hrest]. apply negb_true_iff in H0.
  unfold Path.dirname.
  assert (Hall : Str.all (fun c => negb (Path.isSep c)) (rev rest) = true)
    by (rewrite all_rev; exact Hrest).
  assert (Hdrop : Str.dropWhile Path.isSep (rev rest) = rev rest).
  { destruct (rev rest) as [|x r]; [reflexivity|].
    simpl in Hall. apply andb_true_iff in Hall. destruct Hall as [Hx _].
    apply negb_true_iff in Hx. simpl. now rewrite Hx. }
  rewrite Hdrop, dropWhile_span, (span_all _ _ Hall). cbn [snd].
  unfold Path.isSep. now rewrite H0.
Qed.

Lemma basename_component (b : str) :
  Str.free "/" b = true -> Path.basename b = b.
Proof.
  intros Hfree. unfold Path.basename.
  assert (Hall : Str.all (fun c => negb (Path.isSep c)) (rev b) = true)
    by (rewrite all_rev; exact Hfree).
  assert (Hdrop : Str.dropWhile Path.isSep (rev b) = rev b).
  { destruct (rev b) as [|x r]; [reflexivity|].
    simpl in Hall. apply andb_true_iff in Hall. destruct Hall as [Hx _].
    apply negb_true_iff in Hx. simpl. now rewrite Hx. }
  rewrite Hdrop. unfold Str.takeWhile. rewrite (span_all _ _ Hall).
  apply rev_involutive.
Qed.

(** A missing [from] is read as the working directory. *)
Lemma relative_from_empty (cwd to : str) :
  Path.isAbsolute cwd = true -> Path.relative cwd [] to = Path.relative cwd cwd to.
Proof.
  intros Habs. remember ([] : str) as from eqn:Ef.
  assert (Hcwd : Path.resolve cwd [from] = Path.resolve cwd [cwd]).
  { subst from. unfold Path.resolve. cbn [rev app]. cbn [Path.resolveLoop].
    destruct cwd as [|c r]; [discriminate Habs|].
    cbn [Path.resolveLoop]. now rewrite Habs. }
  unfold Path.relative. rewrite Hcwd.
  destruct (Str.eqb from to) eqn:E0.
  - apply eqb_eq in E0. subst to.
    destruct (Str.eqb cwd from); [reflexivity|]. now rewrite Hcwd, eqb_refl.
  - destruct (Str.eqb cwd to) eqn:E1; [|reflexivity].
    apply eqb_eq in E1. subst to. now rewrite eqb_refl.
Qed.

End PathParts.

(** X6: The relative path of a [GitUri] leads from the repository back to the
    file: resolved against the repository path it gives the resolved file
    path.  The static form, given the locator and the repository path,
    computes the same relative path. *)
Theorem getRelativePath_resolves_back
    (G : GitService) (cwd root : str) (g : GitUri.t) :
  GitUri.repoPath g = Some root ->
  Path.isAbsolute root = true ->
  Path.isAbsolute (GitUri.fsPath g) = true ->
  normalizePath G (Path.relative cwd root (GitUri.fsPath g))
  = Path.relative cwd root (GitUri.fsPath g) ->
  Path.resolve cwd [root; GitUri.getRelativePath G cwd g None]
  = Path.resolve cwd [GitUri.fsPath g]
  /\ GitUri.getRelativePathOf G cwd (GitUri.OfUri (GitUri.uri g)) None (Some root)
     = GitUri.getRelativePath G cwd g None
  /\ GitUri.getRelativePathOf G cwd (GitUri.OfGitUri g) None None
     = GitUri.getRelativePath G cwd g None.
Proof.
  intros Hroot Habs Hfabs Hnorm.
  assert (Hrel : GitUri.getRelativePath G cwd g None
                 = Path.relative cwd root (GitUri.fsPath g)).
  { unfold GitUri.getRelativePath. rewrite Hroot.
    destruct root as [|c r]; [discriminate Habs|]. exact Hnorm. }
  split; [|split].
  - rewrite Hrel. now apply resolve_relative.
  - unfold GitUri.getRelativePathOf, GitUri.getRelativePath. now rewrite Hroot.
  - reflexivity.
Qed.

(** The file of the staged sample locator, seen from its repository. *)
Lemma getRelativePath_resolves_back_witness :
  let g := {| GitUri.uri := fileLocator "/repo/src/git/a.ts";
              GitUri.repoPath := Some ("/repo" : str); GitUri.sha := None |} in
  GitUri.getRelativePath sampleGit "/home/u" g None = "src/git/a.ts" :> str
  /\ Path.resolve "/home/u" ["/repo" : str; GitUri.getRelativePath sampleGit "/home/u" g None]
     = "/repo/src/git/a.ts" :> str.
Proof.
  intros g. split; [reflexivity|].
  destruct (getRelativePath_resolves_back sampleGit "/home/u" "/repo" g
              eq_refl eq_refl eq_refl eq_refl) as [H _].
  rewrite H. reflexivity.
Defined.

(** X7: A [GitUri] without a repository path is read as its plain locator: its
    formatted path is what the static formatter gives for the locator, its
    relative path is what the static form gives without a repository
    path, and that is the path relative to the working directory. *)
Theorem GitUri_without_repoPath
    (G : GitService) (cwd : str) (g : GitUri.t) :
  Str.opt_truthy (GitUri.repoPath g) = false ->
  (forall separator relativeTo,
     GitUri.getFormattedPath G cwd g separator relativeTo
     = GitUri.getFormattedPathOf G cwd (GitUri.OfUri (GitUri.uri g)) separator relativeTo)
  /\ (forall relativeTo,
        GitUri.getRelativePath G cwd g relativeTo
        = GitUri.getRelativePathOf G cwd (GitUri.OfUri (GitUri.uri g)) relativeTo None)
  /\ (Path.isAbsolute cwd = true ->
      GitUri.getRelativePath G cwd g None
      = normalizePath G (Path.relative cwd cwd (GitUri.fsPath g))).
Proof.
  intros Hno.
  assert (Hor : match orElse (GitUri.repoPath g) (Some []) with
                | Some r => r
                | None => []
                end = []).
  { unfold orElse. rewrite Hno. reflexivity. }
  split; [|split].
  - intros separator relativeTo.
    unfold GitUri.getFormattedPath, GitUri.getFormattedPathOf, GitUri.getDirectory.
    fold (GitUri.fsPath g).
    assert (Hdir : match GitUri.repoPath g with
                   | Some (c :: r) => Path.relative cwd (c :: r) (Path.dirname (GitUri.fsPath g))
                   | _ => Path.dirname (GitUri.fsPath g)
                   end = Path.dirname (GitUri.fsPath g)).
    { destruct (GitUri.repoPath g) as [[|c r]|]; try reflexivity. discriminate Hno. }
    rewrite Hdir.
    destruct (negb (Str.truthy _) || Str.eqb _ ".") eqn:E; [reflexivity|].
    apply orb_false_iff in E. destruct E as [E _]. now rewrite E.
  - intros relativeTo. unfold GitUri.getRelativePath, GitUri.getRelativePathOf.
    rewrite Hor. reflexivity.
  - intros Habs. unfold GitUri.getRelativePath. rewrite Hor.
    now rewrite PathParts.relative_from_empty.
Qed.

(** A file under the working directory, addressed without a repository. *)
Lemma GitUri_without_repoPath_witness :
  let g := {| GitUri.uri := fileLocator "/home/u/notes/a.md";
              GitUri.repoPath := None; GitUri.sha := None |} in
  Str.opt_truthy (GitUri.repoPath g) = false
  /\ GitUri.getRelativePath sampleGit "/home/u" g None = "notes/a.md" :> str
  /\ GitUri.getFormattedPath sampleGit "/home/u" g " - " None
     = GitUri.getFormattedPathOf sampleGit "/home/u" (GitUri.OfUri (GitUri.uri g)) " - " None.
Proof.
  intros g. split; [reflexivity|].
  destruct (GitUri_without_repoPath sampleGit "/home/u" g eq_refl) as (Hf & _ & Hr).
  split.
  - rewrite (Hr eq_refl). reflexivity.
  - apply Hf.
Defined.

(** X8: A commit that is not of a single file is addressed by its repository:
    its file name reads as empty, its locator is the [file] locator of the
    resolved repository path, and so is the locator of its previous
    revision when no previous file name is recorded. *)
Theorem commit_uri_defaults_to_repoPath (cwd : str) (c : GitCommit.t) :
  GitCommit.isFile c = false ->
  GitCommit.fileName c = []
  /\ GitCommit.uri cwd c = Uri.file (Path.resolve cwd [GitCommit.repoPath c])
  /\ (Str.opt_truthy (GitCommit.previousFileName c) = false ->
      GitCommit.previousUri cwd c = Some (Uri.file (Path.resolve cwd [GitCommit.repoPath c]))).
Proof.
  intros H.
  assert (Hf : GitCommit.fileName c = []) by (unfold GitCommit.fileName; now rewrite H).
  assert (Hu : GitCommit.uri cwd c = Uri.file (Path.resolve cwd [GitCommit.repoPath c])).
  { unfold GitCommit.uri. rewrite Hf. reflexivity. }
  split; [exact Hf|]. split; [exact Hu|].
  intros Hp. unfold GitCommit.previousUri. rewrite Hp. now rewrite Hu.
Qed.

(** A branch commit constructed with a file name all the same. *)
Lemma commit_uri_defaults_to_repoPath_witness :
  let c := GitCommit.new GitCommit.Branch "/repo/" sampleSha "author" 0 "merge"
             (Some ("src/a.ts" : str)) None None None in
  GitCommit.isFile c = false
  /\ GitCommit.fileName c = []
  /\ GitCommit.uri "/home/u" c = fileLocator "/repo".
Proof.
  intros c. split; [reflexivity|].
  destruct (commit_uri_defaults_to_repoPath "/home/u" c eq_refl) as (Hf & Hu & _).
  split; [exact Hf|]. rewrite Hu. reflexivity.
Defined.

(** X9: The formatted path of a commit, which is that of its file name: empty
    for a commit that is not of a single file, the name alone for a file
    at the top of the repository, and the base name, the separator and
    the normalized directory for a file further down. *)
Theorem commit_getFormattedPath_shapes
    (G : GitService) (cwd : str) (c : GitCommit.t) (separator : str) :
  normalizePath G "." = [] \/ normalizePath G "." = "." ->
  (GitCommit.isFile c = false -> GitCommitOps.getFormattedPath G cwd c separator = [])
  /\ (forall b,
        GitCommit.fileName c = b -> b <> [] -> Str.free "/" b = true ->
        GitCommitOps.getFormattedPath G cwd c separator = b)
  /\ (forall d b,
        GitCommit.fileName c = d ++ "/"%char :: b ->
        d <> [] -> d <> ["/"%char] -> b <> [] -> Str.free "/" b = true ->
        normalizePath G d <> [] -> normalizePath G d <> "." ->
        GitCommitOps.getFormattedPath G cwd c separator
        = b ++ separator ++ normalizePath G d).
Proof.
  intros Hdot.
  assert (Hbare : forall f, Path.dirname f = Path.dot ->
            GitUri.getFormattedPathOf G cwd (GitUri.OfString f) separator None
            = Path.basename f).
  { intros f Hd. unfold GitUri.getFormattedPathOf, GitUri.getDirectory. rewrite Hd.
    change Path.dot with ("." : str).
    destruct Hdot as [-> | ->]; reflexivity. }
  split; [|split].
  - intros H. unfold GitCommitOps.getFormattedPath, GitCommit.fileName. rewrite H.
    now rewrite Hbare.
  - intros b Hf Hb Hfree. unfold GitCommitOps.getFormattedPath. rewrite Hf.
    rewrite Hbare by now apply PathParts.dirname_component.
    now apply PathParts.basename_component.
  - intros d b Hf Hd Hroot Hb Hfree Hn0 Hn1.
    unfold GitCommitOps.getFormattedPath. rewrite Hf.
    unfold GitUri.getFormattedPathOf, GitUri.getDirectory.
    rewrite PathParts.dirname_joined, PathParts.basename_joined by assumption.
    apply eqb_neq in Hn1. rewrite Hn1.
    destruct (normalizePath G d) as [|x r]; [contradiction|]. reflexivity.
Qed.

(** With the reference helpers, on the renamed sample commit and on a
    commit of a file two directories down. *)
Lemma commit_getFormattedPath_shapes_witness :
  (normalizePath sampleGit "." = [] \/ normalizePath sampleGit "." = ".")
  /\ GitCommitOps.getFormattedPath sampleGit "/home/u" renamedCommit " in " = "new.ts" :> str
  /\ GitCommitOps.getFormattedPath sampleGit "/home/u"
       (GitCommit.new GitCommit.File "/repo" sampleSha "author" 0 "edit"
          (Some ("src/git/a.ts" : str)) None None None) " in "
     = "a.ts in src/git" :> str.
Proof.
  assert (Hdot : normalizePath sampleGit "." = [] \/ normalizePath sampleGit "." = ".")
    by (right; reflexivity).
  split; [exact Hdot|]. split.
  - destruct (commit_getFormattedPath_shapes sampleGit "/home/u" renamedCommit " in " Hdot)
      as (_ & H & _).
    apply H; [reflexivity|discriminate|reflexivity].
  - destruct (commit_getFormattedPath_shapes sampleGit "/home/u"
                (GitCommit.new GitCommit.File "/repo" sampleSha "author" 0 "edit"
                   (Some ("src/git/a.ts" : str)) None None None) " in " Hdot)
      as (_ & _ & H).
    apply (H ("src/git" : str) ("a.ts" : str));
      try reflexivity; discriminate.
Defined.

(* ================================================================== *)
(** * Further properties: [fromUri] *)
(* ================================================================== *)


(** X10: A locator of the revision scheme is decoded by the constructor, as
    [fromRevisionUri] does, whatever the backend would answer; and a value
    that already is a [GitUri] is returned as it is.  The constructor does
    not ask for a repository path in the query: with none, the result has
    none and its path is the file name resolved alone when that is
    absolute, and the constructor throws when it is relative, as it does
    whenever the query holds no file name. *)
Theorem fromUri_decodes_revision_locators
    (G : GitService) (cwd GitLensGit GitScheme : str) (E : Type)
    (git : GitUri.GitBackend E) (u : Uri.t) :
  Str.eqb (Uri.scheme u) GitLensGit = true ->
  let result := GitUri.fromUri G cwd GitLensGit GitScheme E git (GitUri.PlainUri u) in
  result
  = match GitUri.fromRevisionUri G cwd GitLensGit u with
    | Some g => GitUri.Returned g
    | None => GitUri.Threw
    end
  /\ (forall g,
        result = GitUri.Returned g ->
        GitUri.fromUri G cwd GitLensGit GitScheme E git (GitUri.IsGitUri g)
        = GitUri.Returned g)
  /\ (forall data fileName,
        JSON.parse (Uri.query u) = Some data ->
        GitUri.memberString data "fileName" = Some fileName ->
        fileName <> [] ->
        GitUri.memberString data "repoPath" = None ->
        result
        = if Path.isAbsolute fileName
          then GitUri.Returned
                 {| GitUri.uri :=
                      {| Uri.scheme := Uri.scheme u; Uri.authority := Uri.authority u;
                         Uri.path := Path.resolve cwd [fileName];
                         Uri.query := Uri.query u; Uri.fragment := Uri.fragment u |};
                    GitUri.repoPath := None;
                    GitUri.sha := GitUri.keptSha G (GitUri.memberString data "sha") |}
          else GitUri.Threw)
  /\ (forall data,
        JSON.parse (Uri.query u) = Some data ->
        GitUri.memberString data "fileName" = None ->
        result = GitUri.Threw).
Proof.
  intros Hs result.
  assert (H : result
              = match GitUri.fromRevisionUri G cwd GitLensGit u with
                | Some g => GitUri.Returned g
                | None => GitUri.Threw
                end).
  { unfold result, GitUri.fromUri, GitUri.ofConstructor, GitUri.fromRevisionUri.
    rewrite Hs. now destruct (negb (GitUri.isTrackable git u)). }
  split; [exact H|]. split; [reflexivity|]. split.
  - intros data fileName Hp Hf Hne Hr. rewrite H.
    unfold GitUri.fromRevisionUri, GitUri.new. rewrite Hs, Hp, Hf, Hr.
    rewrite ResolveAny.resolveAny_missing_root by assumption.
    now destruct (Path.isAbsolute fileName).
  - intros data Hp Hf. rewrite H.
    unfold GitUri.fromRevisionUri, GitUri.new. rewrite Hs, Hp, Hf.
    unfold Path.resolveAny. cbn [rev app Path.resolveLoopAny]. reflexivity.
Qed.

(** The staged sample locator, and a locator whose query names a file and
    no repository, with a backend that tracks nothing and rejects every
    question. *)
Lemma fromUri_decodes_revision_locators_witness :
  let git := {| GitUri.isTrackable := fun _ => false;
                GitUri.getRepoPath := fun _ => inl tt;
                GitUri.getGitUriForVersionedFile := fun _ => None |} in
  let bare := {| Uri.scheme := "gitlens-git"; Uri.authority := [];
                 Uri.path := "/abs/a.ts";
                 Uri.query := JSON.stringify [("fileName" : str, Some ("/abs/a.ts" : str))];
                 Uri.fragment := [] |} in
  Str.eqb (Uri.scheme stagedLocator) "gitlens-git" = true
  /\ (exists g,
        GitUri.fromUri sampleGit "/home/u" "gitlens-git" "git" unit git
          (GitUri.PlainUri stagedLocator) = GitUri.Returned g
        /\ GitUri.path g = "/repo/a.ts" :> str
        /\ GitUri.repoPath g = Some ("/repo" : str)
        /\ GitUri.sha g = Some (zeroSha ++ ":"))
  /\ (exists g,
        GitUri.fromUri sampleGit "/home/u" "gitlens-git" "git" unit git
          (GitUri.PlainUri bare) = GitUri.Returned g
        /\ GitUri.path g = "/abs/a.ts" :> str
        /\ GitUri.repoPath g = None
        /\ GitUri.sha g = None).
Proof.
  intros git bare. split; [reflexivity|]. split.
  - destruct (fromUri_decodes_revision_locators sampleGit "/home/u" "gitlens-git" "git" unit
                git stagedLocator eq_refl) as [H _].
    eexists. split; [rewrite H; reflexivity|]. repeat split.
  - destruct (fromUri_decodes_revision_locators sampleGit "/home/u" "gitlens-git" "git" unit
                git bare eq_refl) as (_ & _ & H & _).
    specialize (H [("fileName" : str, JSON.VString "/abs/a.ts")] ("/abs/a.ts" : str)
                  eq_refl eq_refl).
    eexists. split; [apply H; [discriminate|reflexivity]|]. repeat split.
Defined.

(** The constructor reads the three members it knows where a query holds
    more, of any kind, and in any order. *)
Example constructor_reads_its_members :
  let member (k v : str) := JSON.quote k ++ ":" ++ v in
  let query :=
    "{ " ++ member "line" "12" ++ ", "
         ++ member "sha" (JSON.quote sampleSha) ++ ","
         ++ member "tags" ("[" ++ JSON.quote "x" ++ ", {" ++ member "y" "null" ++ "}, -1.5e3]")
         ++ "," ++ member "repoPath" (JSON.quote "/repo") ++ ","
         ++ member "staged" "false" ++ ","
         ++ member "fileName" (JSON.quote "src/a.ts") ++ " }" in
  option_map (fun g => (GitUri.path g, GitUri.repoPath g, GitUri.sha g))
    (GitUri.new sampleGit "/home/u" "gitlens-git"
       (Some {| Uri.scheme := "gitlens-git"; Uri.authority := []; Uri.path := [];
                Uri.query := query; Uri.fragment := [] |})
       GitUri.NoArgument)
  = Some ("/repo/src/a.ts" : str, Some ("/repo" : str), Some sampleSha).
Proof. vm_compute. reflexivity. Qed.

(** X11: A locator of the editor's own git scheme carries a file path and a
    reference in its query.  A rejection of the backend's search for the
    repository is the result.  Otherwise the result keeps the locator but
    for its path: with a repository found it is the file path resolved
    against the repository; with none found it is the file path resolved
    alone when that is absolute, and [fromUri] throws when it is not.  An
    empty or missing reference leaves the [sha] to the guard on no
    value. *)
Theorem fromUri_git_scheme
    (G : GitService) (cwd GitLensGit GitScheme : str) (E : Type)
    (git : GitUri.GitBackend E) (u : Uri.t)
    (data : list (str * JSON.value)) (p : str) :
  GitUri.isTrackable git u = true ->
  Str.eqb (Uri.scheme u) GitLensGit = false ->
  Str.eqb (Uri.scheme u) GitScheme = true ->
  JSON.parse (Uri.query u) = Some data ->
  GitUri.memberString data "path" = Some p ->
  p <> [] ->
  let ref := match GitUri.memberString data "ref" with
             | Some (c :: r) => Some (c :: r)
             | _ => None
             end in
  let result := GitUri.fromUri G cwd GitLensGit GitScheme E git (GitUri.PlainUri u) in
  let located (path : str) (repoPath : option str) :=
    GitUri.Returned
      {| GitUri.uri := {| Uri.scheme := Uri.scheme u; Uri.authority := Uri.authority u;
                          Uri.path := path;
                          Uri.query := Uri.query u; Uri.fragment := Uri.fragment u |};
         GitUri.repoPath := repoPath;
         GitUri.sha := GitUri.keptSha G ref |} in
  (forall e, GitUri.getRepoPath git (GitUri.ByPath (Some p)) = inl e ->
             result = GitUri.RejectedWith e)
  /\ (forall root, GitUri.getRepoPath git (GitUri.ByPath (Some p)) = inr (Some root) ->
                   result = located (Path.resolve cwd [root; p]) (Some root))
  /\ (GitUri.getRepoPath git (GitUri.ByPath (Some p)) = inr None ->
      result = if Path.isAbsolute p then located (Path.resolve cwd [p]) None
               else GitUri.Threw).
Proof.
  intros Ht HL HG Hq Hp Hne ref result located.
  assert (Hres : result
                 = match GitUri.getRepoPath git (GitUri.ByPath (Some p)) with
                   | inl e => GitUri.RejectedWith e
                   | inr repoPath =>
                       GitUri.ofConstructor E
                         (GitUri.newOfInfo G cwd u (Some p) repoPath ref)
                   end).
  { unfold result, GitUri.fromUri. rewrite Ht, HL, HG, Hq, Hp. reflexivity. }
  assert (Hor : orElse (Some p) (Some (Uri.fsPath u)) = Some p).
  { destruct p as [|c r]; [contradiction|reflexivity]. }
  split; [|split].
  - intros e He. now rewrite Hres, He.
  - intros root Hr. rewrite Hres, Hr. unfold GitUri.newOfInfo. rewrite Hor.
    change [Some root; Some p] with (map (@Some str) [root; p]).
    now rewrite ResolveAny.resolveAny_some.
  - intros Hr. rewrite Hres, Hr. unfold GitUri.newOfInfo. rewrite Hor.
    rewrite ResolveAny.resolveAny_missing_root by assumption.
    now destruct (Path.isAbsolute p).
Qed.

(** A file of the index, as the editor's git extension addresses it, with
    a backend that finds the repository. *)
Lemma fromUri_git_scheme_witness :
  let u := {| Uri.scheme := "git"; Uri.authority := [];
              Uri.path := "/repo/src/a.ts";
              Uri.query := JSON.stringify [("path" : str, Some ("/repo/src/a.ts" : str));
                                           ("ref" : str, Some ("~" : str))];
              Uri.fragment := [] |} in
  let git := {| GitUri.isTrackable := fun _ => true;
                GitUri.getRepoPath := fun _ => inr (Some ("/repo" : str)) : unit + option str;
                GitUri.getGitUriForVersionedFile := fun _ => None |} in
  exists g,
    GitUri.fromUri sampleGit "/home/u" "gitlens-git" "git" unit git (GitUri.PlainUri u)
    = GitUri.Returned g
    /\ GitUri.path g = "/repo/src/a.ts" :> str
    /\ GitUri.repoPath g = Some ("/repo" : str)
    /\ GitUri.sha g = Some ("~" : str).
Proof.
  intros u git.
  destruct (fromUri_git_scheme sampleGit "/home/u" "gitlens-git" "git" unit git u
              [("path" : str, JSON.VString "/repo/src/a.ts"); ("ref" : str, JSON.VString "~")]
              "/repo/src/a.ts" eq_refl eq_refl eq_refl eq_refl eq_refl)
    as (_ & H & _); [discriminate|].
  eexists. split; [exact (H "/repo" eq_refl)|]. repeat split.
Defined.

(** X12: For a locator of any other scheme, or one the backend does not track,
    [fromUri] never rewrites the locator: unless the backend knows it as a
    versioned file, the result has that very locator, no [sha], and the
    repository path the backend found, if it was asked. *)
Theorem fromUri_other_schemes
    (G : GitService) (cwd GitLensGit GitScheme : str) (E : Type)
    (git : GitUri.GitBackend E) (u : Uri.t) :
  Str.eqb (Uri.scheme u) GitLensGit = false ->
  let result := GitUri.fromUri G cwd GitLensGit GitScheme E git (GitUri.PlainUri u) in
  (GitUri.isTrackable git u = false ->
   result = GitUri.Returned {| GitUri.uri := u; GitUri.repoPath := None; GitUri.sha := None |})
  /\ (GitUri.isTrackable git u = true -> Str.eqb (Uri.scheme u) GitScheme = false ->
      match GitUri.getGitUriForVersionedFile git u with
      | Some g => result = GitUri.Returned g
      | None =>
          match GitUri.getRepoPath git (GitUri.ByUri u) with
          | inl e => result = GitUri.RejectedWith e
          | inr repoPath =>
              result = GitUri.Returned {| GitUri.uri := u; GitUri.repoPath := repoPath;
                                          GitUri.sha := None |}
          end
      end).
Proof.
  intros HL result. split.
  - intros Ht. unfold result, GitUri.fromUri, GitUri.new. rewrite Ht. cbn [negb].
    now rewrite HL.
  - intros Ht HG. unfold result, GitUri.fromUri, GitUri.new. rewrite Ht, HL, HG. cbn [negb].
    destruct (GitUri.getGitUriForVersionedFile git u) as [g|]; [reflexivity|].
    destruct (GitUri.getRepoPath git (GitUri.ByUri u)) as [e|[r|]]; reflexivity.
Qed.

(** A file the backend does not track, and one it finds in [/repo]. *)
Lemma fromUri_other_schemes_witness :
  let untracked := {| GitUri.isTrackable := fun _ => false;
                      GitUri.getRepoPath := fun _ => inl tt : unit + option str;
                      GitUri.getGitUriForVersionedFile := fun _ => None |} in
  let tracked := {| GitUri.isTrackable := fun _ => true;
                    GitUri.getRepoPath := fun _ => inr (Some ("/repo" : str)) : unit + option str;
                    GitUri.getGitUriForVersionedFile := fun _ => None |} in
  Str.eqb (Uri.scheme (fileLocator "/repo/a.ts")) "gitlens-git" = false
  /\ GitUri.fromUri sampleGit "/home/u" "gitlens-git" "git" unit untracked
       (GitUri.PlainUri (fileLocator "/repo/a.ts"))
     = GitUri.Returned {| GitUri.uri := fileLocator "/repo/a.ts";
                          GitUri.repoPath := None; GitUri.sha := None |}
  /\ GitUri.fromUri sampleGit "/home/u" "gitlens-git" "git" unit tracked
       (GitUri.PlainUri (fileLocator "/repo/a.ts"))
     = GitUri.Returned {| GitUri.uri := fileLocator "/repo/a.ts";
                          GitUri.repoPath := Some ("/repo" : str); GitUri.sha := None |}.
Proof.
  intros untracked tracked. split; [reflexivity|]. split.
  - destruct (fromUri_other_schemes sampleGit "/home/u" "gitlens-git" "git" unit untracked
                (fileLocator "/repo/a.ts") eq_refl) as [H _].
    exact (H eq_refl).
  - destruct (fromUri_other_schemes sampleGit "/home/u" "gitlens-git" "git" unit tracked
                (fileLocator "/repo/a.ts") eq_refl) as [_ H].
    exact (H eq_refl eq_refl).
Defined.

(* ================================================================== *)
(** * Further properties: the accessors of a commit *)
(* ================================================================== *)

(** X13: Assigning to [previousSha] and reading it gives the value assigned;
    assigning the same value again changes nothing; and the assignment
    leaves everything but the field and the resolved-id cache alone: the
    read-only fields, the file names, the caches of the lazy accessors,
    the locators, the backend and the log of its calls. *)
Theorem previousSha_set_then_get
    (cwd : str) (E W : Type) (value : option str) (c : GitCommit.t)
    (h : GitCommitOps.Heap W) :
  let c' := GitCommit.set_previousSha value c in
  let h' := snd (GitCommitOps.assign_previousSha E value h) in
  GitCommit.previousSha c' = value
  /\ GitCommit.set_previousSha value c' = c'
  /\ GitCommit.assign c' (GitCommit._previousSha c) (GitCommit._isStagedUncommitted c)
       (GitCommit._isUncommitted c) (GitCommit._shortSha c)
       (GitCommit._resolvedPreviousFileSha c) = c
  /\ GitCommit._shortSha c' = GitCommit._shortSha c
  /\ GitCommit._isStagedUncommitted c' = GitCommit._isStagedUncommitted c
  /\ GitCommit._isUncommitted c' = GitCommit._isUncommitted c
  /\ GitCommit.uri cwd c' = GitCommit.uri cwd c
  /\ GitCommit.previousUri cwd c' = GitCommit.previousUri cwd c
  /\ fst (GitCommitOps.assign_previousSha E value h) = inr tt
  /\ GitCommitOps.this h' = GitCommit.set_previousSha value (GitCommitOps.this h)
  /\ GitCommitOps.world h' = GitCommitOps.world h
  /\ GitCommitOps.calls h' = GitCommitOps.calls h.
Proof.
  intros c' h'.
  assert (Hget : GitCommit.previousSha c' = value).
  { unfold c', GitCommit.set_previousSha.
    destruct (Str.opt_eqb value (GitCommit._previousSha c)) eqn:Eq; [|reflexivity].
    apply opt_eqb_eq in Eq. now subst value. }
  split; [exact Hget|]. split.
  { unfold GitCommit.set_previousSha at 1. unfold GitCommit.previousSha in Hget.
    now rewrite Hget, opt_eqb_refl. }
  split.
  { unfold c', GitCommit.set_previousSha.
    destruct (Str.opt_eqb value (GitCommit._previousSha c)); now destruct c. }
  split.
  { unfold c', GitCommit.set_previousSha.
    now destruct (Str.opt_eqb value (GitCommit._previousSha c)). }
  split.
  { unfold c', GitCommit.set_previousSha.
    now destruct (Str.opt_eqb value (GitCommit._previousSha c)). }
  split.
  { unfold c', GitCommit.set_previousSha.
    now destruct (Str.opt_eqb value (GitCommit._previousSha c)). }
  split.
  { unfold c', GitCommit.set_previousSha.
    now destruct (Str.opt_eqb value (GitCommit._previousSha c)). }
  split.
  { unfold c', GitCommit.set_previousSha.
    now destruct (Str.opt_eqb value (GitCommit._previousSha c)). }
  repeat split.
Qed.

Section Lazy.

Variable G : GitService.
Variables E W : Type.


End Lazy.

(* ================================================================== *)
(** * Further properties: the logger *)
(* ================================================================== *)

Module LoggerFacts.

Section WithConstants.

Variable ConsolePrefix : str.

Lemma invariant_write (method : Logger.ConsoleMethod) (toChannel : Logger.OutputLevel -> bool)
    (tc tl : str) (ci li : list str) (s : Logger.t) :
  loggerInvariant s -> loggerInvariant (Logger.write ConsolePrefix method toChannel tc tl ci li s).
Proof.
  unfold loggerInvariant, liveChannels, Logger.write. intros [[H1 H2] H3].
  destruct s as [d l [ch|] co cr di]; cbn in *;
    destruct (toChannel l); cbn; repeat split; auto; intros H; try discriminate H;
    exfalso; apply H2 in H; discriminate H.
Qed.

Lemma invariant_call (s : Logger.t) (c : LoggerCall) :
  loggerInvariant s -> loggerInvariant (loggerCall ConsolePrefix s c).
Proof.
  destruct c as [e|tc tl m ps|tc tl ex cm ps|tc tl m ps];
    try (now apply invariant_write).
  unfold loggerInvariant, liveChannels, loggerCall, Logger.onConfigurationChanged.
  intros [[H1 H2] H3].
  destruct s as [d l [ch|] co cr di]; cbn in *;
    destruct (Logger.initializing e || Logger.changedOutputLevel e); cbn;
    try destruct (Logger.getOutputLevel e); cbn;
    rewrite ?length_app; cbn;
    repeat split; auto; try lia; intros H; try discriminate H;
    try (exfalso; apply H2 in H; discriminate H);
    try (exfalso; apply H1 in H; discriminate H).
Qed.

Lemma invariant_fold (calls : list LoggerCall) (s : Logger.t) :
  loggerInvariant s -> loggerInvariant (fold_left (loggerCall ConsolePrefix) calls s).
Proof.
  revert s. induction calls as [|c calls IH]; intros s H; [exact H|].
  apply IH. now apply invariant_call.
Qed.

Lemma invariant_after (calls : list LoggerCall) : loggerInvariant (loggerAfter ConsolePrefix calls).
Proof.
  apply invariant_fold. unfold loggerInvariant. cbn. repeat split; auto.
Qed.

(** One call extends the lines and the console calls. *)
Lemma call_extends (s : Logger.t) (c : LoggerCall) :
  exists lines entries,
    allLines (loggerCall ConsolePrefix s c) = allLines s ++ lines
    /\ Logger.console (loggerCall ConsolePrefix s c) = Logger.console s ++ entries.
Proof.
  assert (Hw : forall method toChannel tc tl ci li,
    exists lines entries,
      allLines (Logger.write ConsolePrefix method toChannel tc tl ci li s) = allLines s ++ lines
      /\ Logger.console (Logger.write ConsolePrefix method toChannel tc tl ci li s)
         = Logger.console s ++ entries).
  { intros method toChannel tc tl ci li. unfold allLines, Logger.write.
    exists (match Logger.output s with
            | Some _ =>
                if toChannel (Logger.level s)
                then [Str.join " " (if Logger.debug s then tl :: li else li)]
                else []
            | None => []
            end),
           (if Logger.debug s then [(method, tc :: ConsolePrefix :: ci)] else []).
    destruct s as [d l [ch|] co cr di]; cbn.
    - destruct (toChannel l); destruct d; cbn;
        rewrite ?app_nil_r, ?app_assoc; split; reflexivity.
    - destruct d; cbn; rewrite ?app_nil_r; split; reflexivity. }
  destruct c as [e|tc tl m ps|tc tl ex cm ps|tc tl m ps]; try apply Hw.
  exists [], []. unfold allLines, loggerCall, Logger.onConfigurationChanged.
  destruct s as [d l [ch|] co cr di]; cbn;
    destruct (Logger.initializing e || Logger.changedOutputLevel e); cbn;
    try destruct (Logger.getOutputLevel e); cbn;
    rewrite ?concat_app; cbn; rewrite ?app_nil_r; split; reflexivity.
Qed.

End WithConstants.

(** The last three characters of a number below a thousand, padded. *)
Lemma padded_milliseconds (ms : nat) :
  ms < 1000 ->
  Logger.sliceLast 3 ("00" ++ Logger.numberToString ms)
  = [digit (ms / 100); digit (ms / 10 mod 10); digit (ms mod 10)].
Proof.
  intros H.
  assert (Hall : forallb (fun n => Str.eqb (Logger.sliceLast 3 ("00" ++ Logger.numberToString n))
                                     [digit (n / 100); digit (n / 10 mod 10); digit (n mod 10)])
                   (seq 0 1000) = true) by (vm_compute; reflexivity).
  rewrite forallb_forall in Hall. apply eqb_eq. apply Hall. apply in_seq. lia.
Qed.

Lemma replaceFirstT_first (date rest : str) :
  Str.free "T" date = true ->
  Logger.replaceFirstT (date ++ "T"%char :: rest) = date ++ " "%char :: rest.
Proof.
  induction date as [|c r IH]; intros H; [reflexivity|].
  unfold Str.free in H. cbn in H. apply andb_true_iff in H. destruct H as [Hc Hr].
  apply negb_true_iff in Hc. cbn [app Logger.replaceFirstT]. rewrite Hc.
  f_equal. now apply IH.
Qed.

Lemma dropWhile_all (p : ascii -> bool) (s : str) :
  Str.all p s = true -> Str.dropWhile p s = [].
Proof.
  induction s as [|c r IH]; intros H; [reflexivity|].
  cbn in H. apply andb_true_iff in H. destruct H as [Hc Hr].
  cbn. rewrite Hc. now apply IH.
Qed.

Lemma removeFraction_first (pre fraction : str) :
  Str.free "." pre = true -> fraction <> [] ->
  Str.all (fun c => negb (Uri.isLineEnd c)) fraction = true ->
  Logger.removeFraction (pre ++ "."%char :: fraction) = pre.
Proof.
  intros Hpre Hne Hall. induction pre as [|c r IH].
  - destruct fraction as [|d fr]; [contradiction|].
    cbn [app Logger.removeFraction]. cbn [Ascii.eqb Bool.eqb andb].
    assert (Hd : Uri.isLineEnd d = false).
    { cbn in Hall. apply andb_true_iff in Hall. destruct Hall as [Hd _].
      now apply negb_true_iff in Hd. }
    rewrite Hd. now apply dropWhile_all.
  - unfold Str.free in Hpre. cbn in Hpre. apply andb_true_iff in Hpre.
    destruct Hpre as [Hc Hr]. apply negb_true_iff in Hc.
    cbn [app Logger.removeFraction]. rewrite Hc. f_equal. now apply IH.
Qed.

End LoggerFacts.

(** X15: Whatever the logger has been asked, from its start: it holds a channel
    exactly when its level is not [Silent], and every channel it created
    is either the one it holds or has been disposed of. *)
Theorem logger_channel_follows_level (ConsolePrefix : str) (calls : list LoggerCall) :
  let s := loggerAfter ConsolePrefix calls in
  (Logger.output s = None <-> Logger.level s = Logger.Silent)
  /\ Logger.created s = List.length (Logger.disposed s) + liveChannels s.
Proof. apply LoggerFacts.invariant_after. Qed.

(** X16: What a call writes, in a state the logger can be in: [log] appends its
    line exactly at level [Verbose], [warn] and [error] theirs exactly at
    a level other than [Silent]; each calls the console exactly when
    [debug] is on; the line starts with the timestamp exactly then; and
    [error] puts the class or method before the exception. *)
Theorem logger_writes_by_level
    (ConsolePrefix : str) (calls : list LoggerCall)
    (tsConsole tsLine message ex : str) (params : list str) :
  let s := loggerAfter ConsolePrefix calls in
  let line (items : list str) :=
    Str.join " " (if Logger.debug s then tsLine :: items else items) in
  let entry (method : Logger.ConsoleMethod) (items : list str) :=
    if Logger.debug s then [(method, tsConsole :: ConsolePrefix :: items)] else [] in
  let logged := Logger.log ConsolePrefix tsConsole tsLine message params s in
  let warned := Logger.warn ConsolePrefix tsConsole tsLine message params s in
  let failed := Logger.error ConsolePrefix tsConsole tsLine ex message params s in
  allLines logged
  = allLines s ++ (if Logger.OutputLevel_eqb (Logger.level s) Logger.Verbose
                   then [line (message :: params)] else [])
  /\ allLines warned
     = allLines s ++ (if Logger.OutputLevel_eqb (Logger.level s) Logger.Silent
                      then [] else [line (message :: params)])
  /\ allLines failed
     = allLines s ++ (if Logger.OutputLevel_eqb (Logger.level s) Logger.Silent
                      then [] else [line (message :: ex :: params)])
  /\ Logger.console logged = Logger.console s ++ entry Logger.ConsoleLog (message :: params)
  /\ Logger.console warned = Logger.console s ++ entry Logger.ConsoleWarn (message :: params)
  /\ Logger.console failed
     = Logger.console s ++ entry Logger.ConsoleError (message :: ex :: params)
  /\ Logger.disposed logged = Logger.disposed s
  /\ Logger.disposed warned = Logger.disposed s
  /\ Logger.disposed failed = Logger.disposed s.
Proof.
  intros s line entry logged warned failed.
  destruct (LoggerFacts.invariant_after ConsolePrefix calls) as [[H1 H2] _].
  fold s in H1, H2.
  unfold logged, warned, failed, line, entry, allLines, Logger.log, Logger.warn, Logger.error,
    Logger.write.
  destruct s as [d l [ch|] co cr di]; cbn in *.
  - destruct l; cbn; destruct d; cbn; rewrite ?app_nil_r, ?app_assoc;
      repeat split; try reflexivity.
    all: specialize (H2 eq_refl); discriminate H2.
  - rewrite (H1 eq_refl). cbn. destruct d; cbn; rewrite ?app_nil_r; repeat split.
Qed.

(** X17: Nothing the logger wrote is lost: after more calls, the lines written
    so far, to the channel it holds or to those it disposed of, and the
    console calls made so far are the beginning of what is there.  A
    configuration change adds nothing to either. *)
Theorem logger_history_grows (ConsolePrefix : str) (calls more : list LoggerCall) :
  (exists lines entries,
     allLines (loggerAfter ConsolePrefix (calls ++ more))
     = allLines (loggerAfter ConsolePrefix calls) ++ lines
     /\ Logger.console (loggerAfter ConsolePrefix (calls ++ more))
        = Logger.console (loggerAfter ConsolePrefix calls) ++ entries)
  /\ (forall e s,
        allLines (Logger.onConfigurationChanged e s) = allLines s
        /\ Logger.console (Logger.onConfigurationChanged e s) = Logger.console s).
Proof.
  split.
  2: { intros e s. unfold allLines, Logger.onConfigurationChanged.
       destruct s as [d l [ch|] co cr di]; cbn;
         destruct (Logger.initializing e || Logger.changedOutputLevel e); cbn;
         try destruct (Logger.getOutputLevel e); cbn;
         rewrite ?concat_app; cbn; rewrite ?app_nil_r; split; reflexivity. }
  unfold loggerAfter. rewrite fold_left_app.
  generalize (fold_left (loggerCall ConsolePrefix) calls Logger.initial) as s.
  induction more as [|c more IH]; intros s.
  - exists [], []. cbn. now rewrite !app_nil_r.
  - cbn [fold_left].
    destruct (LoggerFacts.call_extends ConsolePrefix s c) as (l1 & e1 & Hl1 & He1).
    destruct (IH (loggerCall ConsolePrefix s c)) as (l2 & e2 & Hl2 & He2).
    exists (l1 ++ l2), (e1 ++ e2). rewrite Hl2, He2, Hl1, He1.
    now rewrite !app_assoc.
Qed.

(** X18: The timestamp of an instant whose ISO form is a date, a [T], a time, a
    dot and a fraction: the date, a blank, the time, a colon and the
    milliseconds in three digits, in brackets. *)
Theorem timestamp_shape (date time fraction : str) (milliseconds : nat) :
  Str.free "T" date = true ->
  Str.free "." date = true ->
  Str.free "." time = true ->
  fraction <> [] ->
  Str.all (fun c => negb (Uri.isLineEnd c)) fraction = true ->
  milliseconds < 1000 ->
  Logger.timestamp (date ++ "T"%char :: time ++ "."%char :: fraction) milliseconds
  = "[" ++ date ++ " " ++ time ++ ":"
        ++ [digit (milliseconds / 100); digit (milliseconds / 10 mod 10);
            digit (milliseconds mod 10)]
        ++ "]".
Proof.
  intros HT Hd Ht Hne Hall Hms. unfold Logger.timestamp.
  rewrite LoggerFacts.replaceFirstT_first by assumption.
  rewrite LoggerFacts.padded_milliseconds by assumption.
  change (date ++ " "%char :: time ++ "."%char :: fraction)
    with (date ++ (" "%char :: time) ++ "."%char :: fraction).
  rewrite (app_assoc date (" "%char :: time) ("."%char :: fraction)).
  rewrite LoggerFacts.removeFraction_first; try assumption.
  - now rewrite <- app_assoc.
  - unfold Str.free. rewrite all_app. unfold Str.free in Hd, Ht. rewrite Hd. cbn.
    exact Ht.
Qed.

(** Seven milliseconds past 03:04:05 on the second of January 2018. *)
Lemma timestamp_shape_witness :
  Logger.timestamp "2018-01-02T03:04:05.007Z" 7 = "[2018-01-02 03:04:05:007]" :> str.
Proof.
  apply (timestamp_shape "2018-01-02" "03:04:05" "007Z" 7); try reflexivity.
  - discriminate.
  - lia.
Defined.

(* ================================================================== *)
(** * Further properties: the stash command *)
(* ================================================================== *)

Module StashFacts.

(** [reduce] with [concat] from the empty array is the concatenation. *)
Lemma reduce_concat {A B : Type} (f : A -> list B) (l : list A) (acc : list B) :
  fold_left (fun a b => a ++ f b) l acc = acc ++ flat_map f l.
Proof.
  revert acc. induction l as [|x l IH]; intros acc; cbn.
  - now rewrite app_nil_r.
  - rewrite IH. now rewrite app_assoc.
Qed.

End StashFacts.

(** X19: From the source-control view the command stashes the files of the
    selected resource states, or of all states of the selected groups, in
    their order; the other arguments are passed on as given, and any other
    context leaves the arguments as they are. *)
Theorem preExecute_collects_uris
    (Cmd V E : Type) (env : StashSave.Environment Cmd V E)
    (args : StashSave.StashSaveCommandArgs Cmd) :
  (forall states,
     StashSave.preExecute env (StashSave.ScmStates states) args
     = StashSave.execute env
         {| StashSave.message := StashSave.message args;
            StashSave.uris := Some (map StashSave.resourceUri states);
            StashSave.goBackCommand := StashSave.goBackCommand args |})
  /\ (forall groups,
        StashSave.preExecute env (StashSave.ScmGroups groups) args
        = StashSave.execute env
            {| StashSave.message := StashSave.message args;
               StashSave.uris :=
                 Some (flat_map (fun g => map StashSave.resourceUri (StashSave.resourceStates g))
                         groups);
               StashSave.goBackCommand := StashSave.goBackCommand args |})
  /\ (forall groups,
        StashSave.preExecute env (StashSave.ScmGroups groups) args
        = StashSave.preExecute env
            (StashSave.ScmStates (flat_map StashSave.resourceStates groups)) args)
  /\ StashSave.preExecute env StashSave.OtherContext args = StashSave.execute env args.
Proof.
  assert (Hg : forall groups,
            StashSave.preExecuteArgs (StashSave.ScmGroups groups) args
            = {| StashSave.message := StashSave.message args;
                 StashSave.uris :=
                   Some (flat_map
                           (fun g => map StashSave.resourceUri (StashSave.resourceStates g))
                           groups);
                 StashSave.goBackCommand := StashSave.goBackCommand args |}).
  { intros groups. unfold StashSave.preExecuteArgs.
    now rewrite (StashFacts.reduce_concat
                   (fun g => map StashSave.resourceUri (StashSave.resourceStates g))). }
  split; [reflexivity|]. split; [|split; [|reflexivity]].
  - intros groups. unfold StashSave.preExecute. now rewrite Hg.
  - intros groups. unfold StashSave.preExecute. rewrite Hg.
    unfold StashSave.preExecuteArgs. do 3 f_equal.
    induction groups as [|g groups IH]; [reflexivity|].
    cbn [flat_map]. now rewrite map_app, IH.
Qed.

(** X20: What reaches the backend's [stashSave], if anything does: the files of
    the arguments; the message of the arguments, or else the one typed
    into the input box; the repository the backend named as the only one,
    or else the one picked.  And the command then ends with what the
    backend answered, or with the error message if it failed. *)
Theorem stash_saves_what_was_asked
    (Cmd V E : Type) (env : StashSave.Environment Cmd V E)
    (args : StashSave.StashSaveCommandArgs Cmd)
    (repoPath message : str) (uris : option (list Uri.t)) :
  In (StashSave.StashSaved repoPath message uris) (fst (StashSave.execute env args)) ->
  uris = StashSave.uris args
  /\ match StashSave.message args with
     | Some m => message = m
     | None => StashSave.showInputBox env = inr (Some message)
     end
  /\ match StashSave.getHighlanderRepoPath env with
     | inr (Some (c :: r)) => repoPath = c :: r
     | _ => StashSave.showRepositories env (StashSave.goBackCommand args)
            = inr (StashSave.PickRepository repoPath)
     end
  /\ snd (StashSave.execute env args)
     = match StashSave.stashSave env repoPath message uris with
       | inr v => StashSave.ReturnedValue v
       | inl _ => StashSave.ReturnedErrorMessage
       end.
Proof.
  assert (Htry : forall repo,
    In (StashSave.StashSaved repoPath message uris) (fst (StashSave.tryBlock env repo args)) ->
    repoPath = repo
    /\ uris = StashSave.uris args
    /\ match StashSave.message args with
       | Some m => message = m
       | None => StashSave.showInputBox env = inr (Some message)
       end
    /\ snd (StashSave.tryBlock env repo args)
       = match StashSave.stashSave env repoPath message uris with
         | inr v => StashSave.ReturnedValue v
         | inl _ => StashSave.ReturnedErrorMessage
         end).
  { intros repo. unfold StashSave.tryBlock, StashSave.save, StashSave.caught.
    destruct (StashSave.message args) as [m|].
    - destruct (StashSave.stashSave env repo m (StashSave.uris args)) as [ex|v] eqn:Es;
        cbn; intros H; split_events; try discriminate H;
        injection H as <- <- <-; rewrite Es; repeat split.
    - destruct (StashSave.showInputBox env) as [ex|[m|]].
      + cbn. intros H. split_events; discriminate H.
      + destruct (StashSave.stashSave env repo m (StashSave.uris args)) as [ex|v] eqn:Es;
          cbn; intros H; split_events; try discriminate H;
          injection H as <- <- <-; rewrite Es; repeat split.
      + destruct (StashSave.goBackCommand args) as [c|].
        * destruct (StashSave.executeCommand env c); cbn; intros H;
            split_events; discriminate H.
        * cbn. intros H. split_events; discriminate H. }
  unfold StashSave.execute, StashSave.prepend.
  destruct (StashSave.getHighlanderRepoPath env) as [ex|[[|c r]|]]; cbn [fst snd].
  - intros H. split_events; discriminate H.
  - destruct (StashSave.showRepositories env (StashSave.goBackCommand args)) as [ex|[c| |repo]];
      cbn [fst snd]; intros H.
    + split_events; discriminate H.
    + unfold StashSave.runCommand in H. cbn in H. split_events; discriminate H.
    + unfold StashSave.goBack, StashSave.runCommand in H.
      destruct (StashSave.goBackCommand args); cbn in H;
        split_events; discriminate H.
    + destruct H as [H|[H|H]]; try discriminate H.
      destruct (Htry repo H) as (-> & Hu & Hm & Ho). repeat split; assumption.
  - intros H. destruct H as [H|H]; [discriminate H|].
    destruct (Htry (c :: r) H) as (-> & Hu & Hm & Ho). repeat split; assumption.
  - destruct (StashSave.showRepositories env (StashSave.goBackCommand args)) as [ex|[c| |repo]];
      cbn [fst snd]; intros H.
    + split_events; discriminate H.
    + unfold StashSave.runCommand in H. cbn in H. split_events; discriminate H.
    + unfold StashSave.goBack, StashSave.runCommand in H.
      destruct (StashSave.goBackCommand args); cbn in H;
        split_events; discriminate H.
    + destruct H as [H|[H|H]]; try discriminate H.
      destruct (Htry repo H) as (-> & Hu & Hm & Ho). repeat split; assumption.
Qed.

(** With several repositories, the picked one and the typed message reach
    the backend. *)
Lemma stash_saves_what_was_asked_witness :
  In (StashSave.StashSaved "/repo" "wip" None)
     (fst (StashSave.execute pickingEnvironment StashSave.noArgs))
  /\ snd (StashSave.execute pickingEnvironment StashSave.noArgs)
     = StashSave.ReturnedValue ("/repo: wip" : str).
Proof.
  assert (H : In (StashSave.StashSaved "/repo" "wip" None)
                (fst (StashSave.execute pickingEnvironment StashSave.noArgs)))
    by (cbn; auto).
  split; [exact H|].
  destruct (stash_saves_what_was_asked str str str pickingEnvironment StashSave.noArgs
              "/repo" "wip" None H) as (_ & _ & _ & Ho).
  exact Ho.
Defined.

(** X21: How the stash command fails.  Its promise is rejected only with what
    the search for the repository or the repository picker threw, or with
    what a quick pick command it ran threw or was rejected with; and then
    it has neither called the backend's [stashSave] nor logged anything.
    Every other failure is logged, under the name of the command, and
    answered with the error message, which are the last two things it
    does; and it ends with the error message only in this way. *)
Theorem stash_failures_are_logged
    (Cmd V E : Type) (env : StashSave.Environment Cmd V E)
    (args : StashSave.StashSaveCommandArgs Cmd) :
  let trace := fst (StashSave.execute env args) in
  let outcome := snd (StashSave.execute env args) in
  (forall ex, outcome = StashSave.ThrewError ex ->
     existsb isStashSaved trace = false
     /\ existsb isLoggedError trace = false
     /\ (StashSave.getHighlanderRepoPath env = inl ex
         \/ StashSave.showRepositories env (StashSave.goBackCommand args) = inl ex
         \/ exists c, In (StashSave.Executed c) trace
                      /\ (StashSave.executeCommand env c = StashSave.Throws ex
                          \/ StashSave.executeCommand env c = StashSave.Rejects ex)))
  /\ (existsb isLoggedError trace = true <-> outcome = StashSave.ReturnedErrorMessage)
  /\ (forall ex classOrMethod,
        In (StashSave.LoggedError ex classOrMethod) trace ->
        classOrMethod = "StashSaveCommand"
        /\ skipn (List.length trace - 2) trace
           = [StashSave.LoggedError ex "StashSaveCommand";
              StashSave.ShowedErrorMessage stashErrorText]).
Proof.
  intros trace outcome. unfold trace, outcome.
  unfold StashSave.execute, StashSave.prepend, StashSave.tryBlock, StashSave.save,
    StashSave.caught, StashSave.goBack, StashSave.runCommand.
  stash_answers;
    (split; [|split]);
    try (split; intros H'; try discriminate H'; reflexivity);
    try (intros ex' cm H'; split_events; try discriminate H';
         injection H' as <- <-; split; reflexivity);
    try (intros ex' H';
         first [ discriminate H'
               | injection H' as <-;
                 split; [reflexivity|]; split; [reflexivity|];
                 first [ now left
                       | now (right; left)
                       | right; right; eexists; split; [cbn; eauto|]; eauto ] ]).
Qed.

(** X22: What the stash command asks the user: for a message only when the
    arguments give none, for a repository only when the backend names no
    single one; it asks the backend for that first of all, and calls
    [stashSave] at most once. *)
Theorem stash_prompts_only_when_needed
    (Cmd V E : Type) (env : StashSave.Environment Cmd V E)
    (args : StashSave.StashSaveCommandArgs Cmd) :
  let trace := fst (StashSave.execute env args) in
  (existsb isShowedInputBox trace = true -> StashSave.message args = None)
  /\ (existsb isShowedRepositories trace = true ->
      forall repo, StashSave.getHighlanderRepoPath env = inr (Some repo) -> repo = [])
  /\ hd_error trace = Some StashSave.AskedHighlanderRepoPath
  /\ List.length (filter isStashSaved trace) <= 1.
Proof.
  intros trace. unfold trace.
  unfold StashSave.execute, StashSave.prepend, StashSave.tryBlock, StashSave.save,
    StashSave.caught, StashSave.goBack, StashSave.runCommand.
  stash_answers;
    (split; [|split; [|split]]);
    try reflexivity; try lia;
    try (intros H'; try discriminate H'; reflexivity);
    try (intros H' repo Hr; try discriminate H'; try discriminate Hr;
         injection Hr as <-; reflexivity).
Qed.

(** X23: Dismissing a prompt stashes nothing and goes back: with no command to
    go back to the result is [undefined]; otherwise that command is run
    and its result passed on, a rejection as well.  What executing that
    command throws is passed on if it was the repository picker that was
    dismissed, and logged and answered with the error message if it was
    the input box. *)
Theorem stash_cancelled
    (Cmd V E : Type) (env : StashSave.Environment Cmd V E)
    (args : StashSave.StashSaveCommandArgs Cmd) :
  cancelledPicker env args \/ cancelledPrompt env args ->
  let trace := fst (StashSave.execute env args) in
  let outcome := snd (StashSave.execute env args) in
  existsb isStashSaved trace = false
  /\ match StashSave.goBackCommand args with
     | None => outcome = StashSave.ReturnedUndefined
     | Some c =>
         In (StashSave.Executed c) trace
         /\ match StashSave.executeCommand env c with
            | StashSave.Fulfils v => outcome = StashSave.ReturnedValue v
            | StashSave.Rejects ex => outcome = StashSave.ThrewError ex
            | StashSave.Throws ex =>
                (cancelledPicker env args -> outcome = StashSave.ThrewError ex)
                /\ (cancelledPrompt env args ->
                    outcome = StashSave.ReturnedErrorMessage
                    /\ In (StashSave.LoggedError ex "StashSaveCommand") trace)
            end
     end.
Proof.
  intros Hc trace outcome. unfold trace, outcome.
  assert (Hpick : cancelledPicker env args -> cancelledPrompt env args -> False).
  { intros (r & Hr & Ht & Hp) (_ & _ & [(repo & Hr' & Hne)|(r' & repo & Hr' & Ht' & Hp')]).
    - rewrite Hr in Hr'. injection Hr' as ->. destruct repo; [contradiction|discriminate Ht].
    - rewrite Hp in Hp'. discriminate Hp'. }
  destruct Hc as [Hc|Hc].
  - pose proof Hc as (r & Hr & Ht & Hp).
    unfold StashSave.execute, StashSave.prepend, StashSave.goBack, StashSave.runCommand.
    rewrite Hr, Hp.
    destruct r as [[|c0 r0]|]; try discriminate Ht;
      (destruct (StashSave.goBackCommand args) as [c|] eqn:Eg; cbn;
       [|split; reflexivity];
       split; [reflexivity|]; split; [auto|];
       destruct (StashSave.executeCommand env c) as [ex|v|ex]; cbn; try reflexivity;
       split; [intros _; reflexivity|]; intros Hq; exfalso; exact (Hpick Hc Hq)).
  - pose proof Hc as (Hm & Hi & Hrepo).
    assert (Htry : forall repo,
              fst (StashSave.tryBlock env repo args)
              = StashSave.ShowedInputBox
                  :: match StashSave.goBackCommand args with
                     | None => []
                     | Some c =>
                         StashSave.Executed c
                           :: match StashSave.executeCommand env c with
                              | StashSave.Throws ex =>
                                  [StashSave.LoggedError ex "StashSaveCommand";
                                   StashSave.ShowedErrorMessage stashErrorText]
                              | _ => []
                              end
                     end
              /\ snd (StashSave.tryBlock env repo args)
                 = match StashSave.goBackCommand args with
                   | None => StashSave.ReturnedUndefined
                   | Some c =>
                       match StashSave.executeCommand env c with
                       | StashSave.Fulfils v => StashSave.ReturnedValue v
                       | StashSave.Rejects ex => StashSave.ThrewError ex
                       | StashSave.Throws _ => StashSave.ReturnedErrorMessage
                       end
                   end).
    { intros repo. unfold StashSave.tryBlock. rewrite Hm, Hi.
      destruct (StashSave.goBackCommand args) as [c|]; [|split; reflexivity].
      destruct (StashSave.executeCommand env c); split; reflexivity. }
    assert (Hex : exists repo pre,
              fst (StashSave.execute env args) = pre ++ fst (StashSave.tryBlock env repo args)
              /\ existsb isStashSaved pre = false
              /\ snd (StashSave.execute env args) = snd (StashSave.tryBlock env repo args)).
    { unfold StashSave.execute, StashSave.prepend.
      destruct Hrepo as [(repo & Hr & Hne)|(r & repo & Hr & Ht & Hp)].
      - rewrite Hr. destruct repo as [|c0 r0]; [contradiction|].
        exists (c0 :: r0), [StashSave.AskedHighlanderRepoPath]. repeat split.
      - rewrite Hr, Hp.
        exists repo, [StashSave.AskedHighlanderRepoPath;
                      StashSave.ShowedRepositories (StashSave.goBackCommand args)].
        destruct r as [[|c0 r0]|]; try discriminate Ht; repeat split. }
    destruct Hex as (repo & pre & Hf & Hpre & Hs).
    destruct (Htry repo) as [Ht1 Ht2].
    rewrite Hf, Hs, Ht1, Ht2, existsb_app, Hpre.
    destruct (StashSave.goBackCommand args) as [c|] eqn:Eg; [|split; reflexivity].
    destruct (StashSave.executeCommand env c) as [ex|v|ex] eqn:Ee; cbn.
    + split; [reflexivity|]. split.
      * apply in_or_app. right. cbn. auto.
      * split; [intros Hq; exfalso; now apply (Hpick Hq)|].
        intros _. split; [reflexivity|].
        apply in_or_app. right. cbn. auto.
    + split; [reflexivity|]. split; [|reflexivity].
      apply in_or_app. right. cbn. auto.
    + split; [reflexivity|]. split; [|reflexivity].
      apply in_or_app. right. cbn. auto.
Qed.

(** The picker dismissed, with a command to go back to that fails. *)
Lemma stash_cancelled_witness :
  let args := {| StashSave.message := Some ("wip" : str); StashSave.uris := None;
                 StashSave.goBackCommand := Some ("back" : str) |} in
  cancelledPicker dismissingEnvironment args
  /\ StashSave.execute dismissingEnvironment args
     = ([StashSave.AskedHighlanderRepoPath;
         StashSave.ShowedRepositories (Some ("back" : str));
         StashSave.Executed ("back" : str)],
        StashSave.ThrewError ("failed: back" : str)).
Proof.
  intros args.
  assert (Hc : cancelledPicker dismissingEnvironment args).
  { exists None. repeat split. }
  split; [exact Hc|].
  destruct (stash_cancelled str str str dismissingEnvironment args (or_introl Hc))
    as (_ & _ & Ho & _).
  specialize (Ho Hc).
  destruct (StashSave.execute dismissingEnvironment args) as [trace outcome] eqn:Ex.
  cbn in Ho. rewrite Ho. cbn in Ex. injection Ex as <- _. reflexivity.
Defined.

(* ================================================================== *)
(** * Further properties: the file behind a [GitUri] *)
(* ================================================================== *)

(** X24: The [file] locator of a [GitUri] is that of its path, given a
    leading separator if it has none, with or without [useSha], when the
    locator has no authority and its path starts neither with a drive nor
    with two separators.  For an absolute path it is the file locator of
    the path itself, and its [fsPath] is the path. *)
Theorem fileUri_is_file_locator_of_path (g : GitUri.t) (useSha : bool) :
  Uri.authority (GitUri.uri g) = [] ->
  driveLetter (GitUri.path g) = false ->
  doubleSlash (GitUri.path g) = false ->
  GitUri.fileUri g useSha = fileLocator (Uri.rooted (GitUri.path g))
  /\ (Path.isAbsolute (GitUri.path g) = true ->
      GitUri.fileUri g useSha = fileLocator (GitUri.path g)
      /\ Uri.fsPath (GitUri.fileUri g useSha) = GitUri.path g)
  /\ (Path.isAbsolute (GitUri.path g) = false ->
      Uri.path (GitUri.fileUri g useSha) = "/"%char :: GitUri.path g).
Proof.
  intros Ha Hd Hs.
  assert (Hfs : GitUri.fsPath g = GitUri.path g) by now apply fsPath_plain.
  assert (Hf : GitUri.fileUri g useSha = fileLocator (Uri.rooted (GitUri.path g))).
  { unfold GitUri.fileUri. rewrite Hfs.
    destruct (useSha && Str.opt_truthy (GitUri.sha g)); now apply file_rooted. }
  split; [exact Hf|]. split.
  - intros Habs. rewrite Hf. unfold Uri.rooted. rewrite Habs.
    split; [reflexivity|]. now apply fsPath_plain.
  - intros Hrel. rewrite Hf. unfold Uri.rooted. now rewrite Hrel.
Qed.

(** The file behind the staged sample locator, and the one behind an
    untitled document. *)
Lemma fileUri_is_file_locator_of_path_witness :
  let untitled := {| GitUri.uri := {| Uri.scheme := "untitled"; Uri.authority := [];
                                      Uri.path := "Untitled-1"; Uri.query := [];
                                      Uri.fragment := [] |};
                     GitUri.repoPath := None; GitUri.sha := None |} in
  (exists g,
     GitUri.new sampleGit "/home/u" "gitlens-git" (Some stagedLocator) GitUri.NoArgument = Some g
     /\ GitUri.fileUri g true = fileLocator "/repo/a.ts"
     /\ GitUri.fileUri g false = fileLocator "/repo/a.ts")
  /\ GitUri.fileUri untitled true = fileLocator "/Untitled-1".
Proof.
  intros untitled. split.
  - destruct (GitUri.new sampleGit "/home/u" "gitlens-git" (Some stagedLocator)
                GitUri.NoArgument) as [g|] eqn:Eg; [|discriminate Eg].
    exists g. split; [reflexivity|].
    injection Eg as <-.
    split;
      match goal with
      | |- GitUri.fileUri ?g ?b = _ =>
          destruct (fileUri_is_file_locator_of_path g b eq_refl eq_refl eq_refl) as [H _];
          exact H
      end.
  - destruct (fileUri_is_file_locator_of_path untitled true eq_refl eq_refl eq_refl)
      as [H _].
    exact H.
Defined.

(** With a drive in the path, [useSha] tells the two apart. *)
Example fileUri_drive_letter :
  let g := {| GitUri.uri := fileLocator "/C:/repo/a.ts";
              GitUri.repoPath := Some ("/C:/repo" : str);
              GitUri.sha := Some sampleSha |} in
  Uri.path (GitUri.fileUri g true) = "/C:/repo/a.ts" :> str
  /\ Uri.path (GitUri.fileUri g false) = "/c:/repo/a.ts" :> str.
Proof. split; reflexivity. Qed.
